(** * ThunderClerk-AI: the extraction pipeline, embedded and verified

    A shallow embedding of the pure utility functions of [utils.js]
    ([extractTextBody], [normalizeCalDate], [extractJSON],
    [isValidHostUrl]) and of the post-processing code of [background.js]
    ([normalizeCalendarData], [normalizeTaskData], [callOllama], the all-day
    adjustment of [handleCalendar]), followed by the theorems that relate
    them to the natural-language specification.

    The rest of the code that computes is embedded as well and has its own
    properties proved: the builders of [utils.js] ([buildAttendeesHint],
    [buildDescription], [buildCategoryInstruction]); of [background.js],
    [callOllamaWithNotification], the steps of [handleCalendar] and
    [handleTask] between the answer of the model and the dialog, the HTML of
    [handleDraftReply] and [handleSummarizeForward] and the report of a
    failure; of [api/CalendarTools/implementation.js], [getCategories],
    [findCalendarByName], [getCalendars] and the address of an attendee; of
    [contact/review.js], [saveContact] and [populateAddressBooks]; of
    [analyze/analyze.js], the detected items, [buildSelections] and the two
    checkboxes that exclude each other.

    Conventions.
    - A JavaScript string is a list of code units.  The model covers the code
      units below 256, written [ascii]; [§"abc"] is the literal.
    - A JavaScript regular expression is a term of [regex], run by a
      backtracking matcher that follows the ECMAScript semantics (leftmost
      match, greedy quantifiers, [^] and [$] under the [m] flag).
    - A record produced by [JSON.parse] is a finite map from keys to [json]
      values; reading an absent key gives [None], JavaScript's [undefined].
    - A function that can throw returns a [result].
    - What comes from outside (the network, the clock, the preferences, the
      user) is an argument of the function that uses it. *)

From Stdlib Require Import ZArith Ascii String List Lia DecimalString DecimalPos.
From stdpp Require Import base option list gmap strings sorting.

Set Warnings "-register-all".

Local Open Scope Z_scope.
Local Open Scope list_scope.

Abbreviation jstring := (list ascii).
Notation "§ s" := (list_ascii_of_string s%string) (at level 1, format "§ s").

Definition dquote : ascii := ascii_of_N 34.
Definition LF : ascii := ascii_of_N 10.

(** A literal in which every apostrophe stands for a double quote. *)
Definition quoted (s : string) : jstring :=
  map (λ c, if Ascii.eqb c "'" then dquote else c) (list_ascii_of_string s).

(** ** Results of functions that can throw *)

Inductive error :=
| TypeError                 (* a method called on a value that lacks it *)
| JsError (msg : jstring).    (* [throw new Error(msg)] *)

Inductive result (A : Type) :=
| OK (a : A)
| Throw (e : error).
Arguments OK {A} a.
Arguments Throw {A} e.

(** Sequencing with propagation of the exception, behind stdpp's
    [x ← r; k] notation. *)
#[global] Instance result_bind : MBind result := λ A B f r,
  match r with
  | OK a => f a
  | Throw e => Throw e
  end.
#[global] Instance result_ret : MRet result := λ A a, OK a.

(** ** Character classes *)

Definition code (c : ascii) : N := N_of_ascii c.

(** [\d] *)
Definition is_digit (c : ascii) : bool := (48 <=? code c)%N && (code c <=? 57)%N.

(** [\s], which is also what [String.prototype.trim] removes: TAB, LF, VT, FF,
    CR, SPACE and NBSP among the code units below 256. *)
Definition is_space (c : ascii) : bool :=
  ((9 <=? code c)%N && (code c <=? 13)%N) || (code c =? 32)%N || (code c =? 160)%N.

(** LineTerminator: LF and CR among the code units below 256. *)
Definition is_line_terminator (c : ascii) : bool :=
  (code c =? 10)%N || (code c =? 13)%N.

Definition is_char (c : ascii) : ascii → bool := Ascii.eqb c.

Definition to_upper (c : ascii) : ascii :=
  if (97 <=? code c)%N && (code c <=? 122)%N then ascii_of_N (code c - 32) else c.

(** A literal letter under the [i] flag. *)
Definition is_char_ci (c : ascii) : ascii → bool :=
  λ x, Ascii.eqb (to_upper c) (to_upper x).

(** ** Regular expressions *)

Inductive regex :=
| REps                           (* the empty pattern *)
| RChar (p : ascii → bool)       (* one character of a class *)
| RSeq (r1 r2 : regex)           (* r1 r2 *)
| ROpt (r : regex)               (* (?:r)? *)
| RStar (p : ascii → bool)       (* class* *)
| RPlus (p : ascii → bool)       (* class+ *)
| RBol (multiline : bool)        (* ^ *)
| REol (multiline : bool).       (* $ *)

(** Greedy iteration of a class with backtracking: take the longest run first
    and give characters back until the continuation accepts. *)
Fixpoint star_match (p : ascii → bool) (prev : option ascii) (s : jstring)
    (k : option ascii → jstring → option nat) : option nat :=
  match s with
  | c :: s' =>
      if p c then
        match star_match p (Some c) s' k with
        | Some n => Some n
        | None => k prev s
        end
      else k prev s
  | [] => k prev s
  end.

(** [rmatch r prev s k]: match [r] at the front of [s], where [prev] is the
    character before [s] ([None] at the start of the input), then run the
    continuation on what is left. *)
Fixpoint rmatch (r : regex) (prev : option ascii) (s : jstring)
    (k : option ascii → jstring → option nat) : option nat :=
  match r with
  | REps => k prev s
  | RChar p =>
      match s with
      | c :: s' => if p c then k (Some c) s' else None
      | [] => None
      end
  | RSeq r1 r2 => rmatch r1 prev s (λ prev' s', rmatch r2 prev' s' k)
  | ROpt r1 =>
      match rmatch r1 prev s k with
      | Some n => Some n
      | None => k prev s
      end
  | RStar p => star_match p prev s k
  | RPlus p =>
      match s with
      | c :: s' => if p c then star_match p (Some c) s' k else None
      | [] => None
      end
  | RBol multiline =>
      match prev with
      | None => k prev s
      | Some c => if multiline && is_line_terminator c then k prev s else None
      end
  | REol multiline =>
      match s with
      | [] => k prev s
      | c :: _ => if multiline && is_line_terminator c then k prev s else None
      end
  end.

(** The length of the match of [r] that starts exactly at the front of [s]. *)
Definition match_here (r : regex) (prev : option ascii) (s : jstring) : option nat :=
  rmatch r prev s (λ _ rest, Some (length s - length rest)%nat).

(** [s.replace(/r/, empty)]: delete the leftmost match. *)
Fixpoint replace_from (r : regex) (prev : option ascii) (s : jstring) : jstring :=
  match match_here r prev s with
  | Some n => drop n s
  | None =>
      match s with
      | [] => []
      | c :: s' => c :: replace_from r (Some c) s'
      end
  end.

Definition replace (r : regex) (s : jstring) : jstring := replace_from r None s.

(** [s.replace(/r/g, empty)]: delete every match, scanning left to right;
    [skip] counts the characters of the current match still to delete. *)
Fixpoint replaceAll_from (r : regex) (prev : option ascii) (s : jstring)
    (skip : nat) : jstring :=
  match skip with
  | S n =>
      match s with
      | [] => []
      | c :: s' => replaceAll_from r (Some c) s' n
      end
  | O =>
      match match_here r prev s, s with
      | Some (S n), c :: s' => replaceAll_from r (Some c) s' n
      | _, c :: s' => c :: replaceAll_from r (Some c) s' O
      | _, [] => []
      end
  end.

Definition replaceAll (r : regex) (s : jstring) : jstring := replaceAll_from r None s O.

(** A literal word as a regular expression; [cls] is [is_char], or
    [is_char_ci] under the [i] flag. *)
Fixpoint RLit (cls : ascii → ascii → bool) (w : jstring) : regex :=
  match w with
  | [] => REps
  | c :: w' => RSeq (RChar (cls c)) (RLit cls w')
  end.

(** The characters a regular expression can consume. *)
Fixpoint regex_class (r : regex) (c : ascii) : bool :=
  match r with
  | REps | RBol _ | REol _ => false
  | RChar p | RStar p | RPlus p => p c
  | RSeq r1 r2 => regex_class r1 c || regex_class r2 c
  | ROpt r1 => regex_class r1 c
  end.

(** ** String primitives *)

(** [s.indexOf(c)], [None] standing for -1. *)
Fixpoint indexOf (c : ascii) (s : jstring) : option nat :=
  match s with
  | [] => None
  | x :: s' => if Ascii.eqb x c then Some O else S <$> indexOf c s'
  end.

(** [s.slice(a, b)] for [0 ≤ a]. *)
Definition slice (a b : nat) (s : jstring) : jstring := take (b - a) (drop a s).

(** [s.padEnd(n, c)] *)
Definition padEnd (n : nat) (c : ascii) (s : jstring) : jstring :=
  s ++ replicate (n - length s) c.

Fixpoint drop_while (p : ascii → bool) (s : jstring) : jstring :=
  match s with
  | c :: s' => if p c then drop_while p s' else s
  | [] => []
  end.

(** [s.trim()] *)
Definition trim (s : jstring) : jstring :=
  reverse (drop_while is_space (reverse (drop_while is_space s))).

(** ** JSON values, as [JSON.parse] returns them

    Numbers are the integer-valued ones that print in plain decimal; every
    other finite number behaves like a non-zero integer in the code modelled
    here (truthy, not a string, printed without brace or line break). *)

Inductive json :=
| JNull
| JBool (b : bool)
| JNum (n : Z)
| JStr (s : jstring)
| JArr (items : list json)
| JObj (fields : list (jstring * json)).

(** A JavaScript value read from a variable or a property: [None] is
    [undefined]. *)
Abbreviation jsval := (option json).

(** ToBoolean *)
Definition truthy (v : jsval) : bool :=
  match v with
  | None => false
  | Some JNull => false
  | Some (JBool b) => b
  | Some (JNum n) => negb (n =? 0)
  | Some (JStr s) => negb (bool_decide (s = []))
  | Some (JArr _) => true
  | Some (JObj _) => true
  end.

(** ** utils.js: normalizeCalDate *)

Definition re_dash : regex := RChar (is_char "-").                       (* /-/g *)
Definition re_colon : regex := RChar (is_char ":").                      (* /:/g *)
Definition re_zulu : regex := RSeq (RChar (is_char_ci "Z")) (REol false). (* /Z$/i *)
Definition re_sign (c : ascii) : bool := is_char "+" c || is_char "-" c.
Definition re_tz_offset : regex :=                                       (* /[+-]\d{4}$/ *)
  RSeq (RChar re_sign)
    (RSeq (RChar is_digit) (RSeq (RChar is_digit)
      (RSeq (RChar is_digit) (RSeq (RChar is_digit) (REol false))))).
Definition re_fraction : regex :=                                        (* /\.\d+$/ *)
  RSeq (RChar (is_char ".")) (RSeq (RPlus is_digit) (REol false)).

(** The body of [normalizeCalDate] once [dateStr] is known to be a non-empty
    string. *)
Definition normalizeCalDate_string (dateStr : jstring) : jstring :=
  let s :=
    replace re_fraction
      (replace re_tz_offset
        (replace re_zulu
          (replaceAll re_colon
            (replaceAll re_dash dateStr)))) in
  match indexOf "T" s with
  | None => slice 0 8 s ++ §"T000000"
  | Some tIdx =>
      let datePart := slice 0 8 (slice 0 tIdx s) in
      let timePart := padEnd 6 "0" (slice 0 6 (drop (tIdx + 1) s)) in
      datePart ++ §"T" ++ timePart
  end.

(** [normalizeCalDate(dateStr)]: a falsy argument is returned as it is; a
    truthy argument that is not a string has no [replace] method. *)
Definition normalizeCalDate (dateStr : jsval) : result jsval :=
  if negb (truthy dateStr) then OK dateStr
  else
    match dateStr with
    | Some (JStr s) => OK (Some (JStr (normalizeCalDate_string s)))
    | _ => Throw TypeError
    end.


(** ** utils.js: extractJSON *)

Definition re_fence_open : regex :=                     (* /^```(?:json)?\s*/im *)
  RSeq (RBol true)
    (RSeq (RLit is_char_ci §"```")
      (RSeq (ROpt (RLit is_char_ci §"json")) (RStar is_space))).
Definition re_fence_close : regex :=                    (* /\s*```\s*$/m *)
  RSeq (RStar is_space)
    (RSeq (RLit is_char §"```") (RSeq (RStar is_space) (REol true))).

Definition NoJsonFound : error := JsError §"No JSON object found in model output".
Definition UnclosedJson : error := JsError §"Unclosed JSON object in model output".

(** The [for] loop of [extractJSON]: [s] is what is left of [fenced] from
    index [i] on.  [Some e] is the value of [end] at the [break], [None] is
    [end === -1] after the loop. *)
Fixpoint scan_braces (s : jstring) (i : nat) (depth : Z) : option nat :=
  match s with
  | [] => None
  | c :: s' =>
      if Ascii.eqb c "{" then scan_braces s' (S i) (depth + 1)
      else if Ascii.eqb c "}" then
        let depth := depth - 1 in
        if depth =? 0 then Some i else scan_braces s' (S i) depth
      else scan_braces s' (S i) depth
  end.

Definition strip_fences (text : jstring) : jstring :=
  trim (replace re_fence_close (replace re_fence_open text)).

Definition extractJSON (text : jstring) : result jstring :=
  let fenced := strip_fences text in
  match indexOf "{" fenced with
  | None => Throw NoJsonFound
  | Some start =>
      match scan_braces (drop start fenced) start 0 with
      | None => Throw UnclosedJson
      | Some end_ => OK (slice start (end_ + 1) fenced)
      end
  end.

(** ** utils.js: extractTextBody *)

(** A message part as [messages.getFull] returns it: the properties read by
    the code, each possibly absent; a child may be [null]. *)
Inductive part :=
| Part (contentType : option jstring) (body : option jstring)
       (parts : option (list (option part))).

Definition contentType (p : part) := let 'Part ct _ _ := p in ct.
Definition body (p : part) := let 'Part _ b _ := p in b.
Definition parts (p : part) := let 'Part _ _ ps := p in ps.

(** The test of line 8: [contentType === "text/plain" && body]. *)
Definition is_plain_text (p : part) : bool :=
  bool_decide (contentType p = Some §"text/plain") && truthy (JStr <$> body p).

Fixpoint extractTextBody_part (p : part) : jstring :=
  if is_plain_text p then default [] (body p)
  else
    match parts p with
    | Some children =>
        (fix each (l : list (option part)) : jstring :=
           match l with
           | [] => []
           | child :: l' =>
               let text :=
                 match child with
                 | None => []
                 | Some c => extractTextBody_part c
                 end in
               if truthy (Some (JStr text)) then text else each l'
           end) children
    | None => []
    end.

Definition extractTextBody (p : option part) : jstring :=
  match p with
  | None => []
  | Some p => extractTextBody_part p
  end.

(** The parts of a tree in depth-first pre-order: a part, then the subtrees
    of its children from first to last. *)
Fixpoint preorder (p : part) : list part :=
  p ::
  match parts p with
  | Some children =>
      (fix each (l : list (option part)) : list part :=
         match l with
         | [] => []
         | child :: l' =>
             match child with
             | None => []
             | Some c => preorder c
             end ++ each l'
         end) children
  | None => []
  end.

Definition first_plain_text (p : option part) : option part :=
  match p with
  | None => None
  | Some p => List.find is_plain_text (preorder p)
  end.

(** ** The runtime's [JSON.stringify], without indentation *)

Definition hex_digit (n : N) : ascii :=
  if (n <? 10)%N then ascii_of_N (48 + n) else ascii_of_N (87 + n).

(** QuoteJSONString, one code unit at a time. *)
Definition json_escape (c : ascii) : jstring :=
  if Ascii.eqb c dquote then [ "\"%char; dquote ]
  else if Ascii.eqb c "\" then §"\\"
  else if (code c =? 8)%N then §"\b"
  else if (code c =? 9)%N then §"\t"
  else if (code c =? 10)%N then §"\n"
  else if (code c =? 12)%N then §"\f"
  else if (code c =? 13)%N then §"\r"
  else if (code c <? 32)%N then
    §"\u00" ++ [hex_digit (code c / 16); hex_digit (code c mod 16)]
  else [c].

Definition json_quote (s : jstring) : jstring :=
  [dquote] ++ concat (map json_escape s) ++ [dquote].

(** Number::toString for an integer. *)
Definition Z_to_jstring (n : Z) : jstring :=
  list_ascii_of_string (NilZero.string_of_int (Z.to_int n)).

(** [l.join(sep)] *)
Fixpoint join (sep : jstring) (l : list jstring) : jstring :=
  match l with
  | [] => []
  | [x] => x
  | x :: l' => x ++ sep ++ join sep l'
  end.

Fixpoint stringify (v : json) : jstring :=
  match v with
  | JNull => §"null"
  | JBool true => §"true"
  | JBool false => §"false"
  | JNum n => Z_to_jstring n
  | JStr s => json_quote s
  | JArr items => §"[" ++ join §"," (map stringify items) ++ §"]"
  | JObj fields =>
      §"{"
      ++ join §"," (map (λ kv, json_quote kv.1 ++ §":" ++ stringify kv.2) fields)
      ++ §"}"
  end.

(** ** The runtime's [new URL(str)]

    The part of the WHATWG URL parser, run without a base URL, that decides
    whether parsing fails and what the scheme is.  Hosts are ASCII domains
    or dotted addresses: numeric hosts are not range-checked, bracketed IPv6
    literals are taken as they are, percent-encoded and non-ASCII hosts are
    outside the model.  For a scheme other than [http] and [https] only the
    scheme matters to [isValidHostUrl]. *)

Record URL := { protocol : jstring; host : jstring; port : jstring }.

Definition is_c0_or_space (c : ascii) : bool := (code c <=? 32)%N.
Definition is_tab_or_newline (c : ascii) : bool :=
  (code c =? 9)%N || (code c =? 10)%N || (code c =? 13)%N.
Definition is_alpha (c : ascii) : bool :=
  ((65 <=? code c)%N && (code c <=? 90)%N) || ((97 <=? code c)%N && (code c <=? 122)%N).
Definition to_lower (c : ascii) : ascii :=
  if (65 <=? code c)%N && (code c <=? 90)%N then ascii_of_N (code c + 32) else c.
Definition is_scheme_char (c : ascii) : bool :=
  is_alpha c || is_digit c || is_char "+" c || is_char "-" c || is_char "." c.

(** Scheme start state and scheme state: the lower-cased scheme and what
    follows the colon. *)
Fixpoint scheme_state (buffer : jstring) (s : jstring) : option (jstring * jstring) :=
  match s with
  | [] => None
  | c :: s' =>
      if is_scheme_char c then scheme_state (buffer ++ [to_lower c]) s'
      else if is_char ":" c then Some (buffer, s')
      else None
  end.

Definition parse_scheme (s : jstring) : option (jstring * jstring) :=
  match s with
  | c :: s' => if is_alpha c then scheme_state [to_lower c] s' else None
  | [] => None
  end.

(** The special schemes that take an authority ([file] has a state of its
    own and is treated with the other schemes below). *)
Definition is_special_scheme (scheme : jstring) : bool :=
  bool_decide (scheme ∈ [§"http"; §"https"; §"ftp"; §"ws"; §"wss"]).

Definition is_slash (c : ascii) : bool := is_char "/" c || is_char "\" c.
Definition ends_authority (c : ascii) : bool :=
  is_slash c || is_char "?" c || is_char "#" c.

Fixpoint take_until (p : ascii → bool) (s : jstring) : jstring :=
  match s with
  | c :: s' => if p c then [] else c :: take_until p s'
  | [] => []
  end.

(** What follows the last occurrence of [c], if there is one. *)
Fixpoint after_last (c : ascii) (s : jstring) : option jstring :=
  match s with
  | [] => None
  | x :: s' =>
      match after_last c s' with
      | Some r => Some r
      | None => if Ascii.eqb x c then Some s' else None
      end
  end.

Definition before_last (c : ascii) (s : jstring) : jstring :=
  match after_last c s with
  | Some r => take (length s - length r - 1) s
  | None => s
  end.

(** Forbidden host code points. *)
Definition is_forbidden_host (c : ascii) : bool :=
  (code c <=? 32)%N || (code c =? 127)%N
  || bool_decide (c ∈ §"#/:<>?@[\]^|%").

Fixpoint decimal_value (acc : N) (s : jstring) : option N :=
  match s with
  | [] => Some acc
  | c :: s' => if is_digit c then decimal_value (10 * acc + (code c - 48)) s' else None
  end.

Definition valid_port (p : jstring) : bool :=
  match decimal_value 0 p with
  | Some n => (n <=? 65535)%N
  | None => false
  end.

Definition valid_host (h : jstring) : bool :=
  match h with
  | [] => false
  | c :: _ =>
      if is_char "[" c then bool_decide (last h = Some "]"%char)
      else forallb (λ x, negb (is_forbidden_host x)) h
  end.

Definition parse_authority (scheme rest : jstring) : result URL :=
  let authority := take_until ends_authority (drop_while is_slash rest) in
  let hostport := default authority (after_last "@" authority) in
  let '(h, p) :=
    match after_last ":" hostport with
    | Some p => if bool_decide (last hostport = Some "]"%char) then (hostport, [])
                else (before_last ":" hostport, p)
    | None => (hostport, [])
    end in
  if valid_host h && valid_port p
  then OK {| protocol := scheme ++ §":"; host := h; port := p |}
  else Throw TypeError.

Definition URL_new (str : jstring) : result URL :=
  let input :=
    filter (λ c, ¬ is_tab_or_newline c)
      (reverse (drop_while is_c0_or_space (reverse (drop_while is_c0_or_space str)))) in
  match parse_scheme input with
  | None => Throw TypeError
  | Some (scheme, rest) =>
      if is_special_scheme scheme then parse_authority scheme rest
      else OK {| protocol := scheme ++ §":"; host := []; port := [] |}
  end.

(** ** utils.js: isValidHostUrl *)

Definition isValidHostUrl (str : jstring) : bool :=
  match URL_new str with
  | OK u => bool_decide (protocol u = §"http:") || bool_decide (protocol u = §"https:")
  | Throw _ => false
  end.


(** ** background.js: normalizeCalendarData and normalizeTaskData *)

Abbreviation record := (gmap jstring json).

(** [data.key = v].  A property holding [undefined] reads like an absent
    one; the assignments below never store [undefined]. *)
Definition assign (key : jstring) (v : jsval) (data : record) : record :=
  match v with
  | Some j => <[key := j]> data
  | None => delete key data
  end.

(** [if (data.key) data.key = normalizeCalDate(data.key);] *)
Definition normalize_field (key : jstring) (data : record) : result record :=
  if truthy (data !! key) then
    v ← normalizeCalDate (data !! key);
    OK (assign key v data)
  else OK data.

Definition normalizeCalendarData (data : record) : result record :=
  data ← normalize_field §"startDate" data;
  data ← normalize_field §"endDate" data;
  OK (<[§"forceAllDay" := JBool (truthy (data !! §"forceAllDay"))]> data).

Definition normalizeTaskData (data : record) : result record :=
  data ← normalize_field §"dueDate" data;
  data ← normalize_field §"initialDate" data;
  if truthy (data !! §"InitialDate") then
    v ← normalizeCalDate (data !! §"InitialDate");
    OK (delete §"InitialDate" (assign §"initialDate" v data))
  else OK data.

(** ** background.js: callOllama *)

Record request := {
  req_url : jstring;
  req_method : jstring;
  req_content_type : jstring;
  req_body : jstring
}.

(** What one [fetch] can do within the 60 seconds of the abort timer. *)
Inductive fetch_outcome :=
| Aborted                                   (* rejected with an AbortError *)
| Rejected (e : error)                      (* rejected with anything else *)
| Responded (ok : bool) (status : Z)
    (text : jstring)          (* what [response.text()] gives *)
    (data : result json).     (* what [response.json()] gives *)

(** [data.key] on a parsed object; of two equal keys the later one counts. *)
Fixpoint get_field (key : jstring) (fields : list (jstring * json)) : jsval :=
  match fields with
  | [] => None
  | (k, v) :: fields' =>
      match get_field key fields' with
      | Some x => Some x
      | None => if bool_decide (k = key) then Some v else None
      end
  end.

(** [data.response]: a property of [null] cannot be read, a value that is
    no object has no such property. *)
Definition response_of (data : json) : result jsval :=
  match data with
  | JNull => Throw TypeError
  | JObj fields => OK (get_field §"response" fields)
  | _ => OK None
  end.

Definition re_trailing_slash : regex := RSeq (RChar (is_char "/")) (REol false).

Definition InvalidHost (host : jstring) : error :=
  JsError (§"Invalid Ollama host URL: " ++ [dquote] ++ host ++ [dquote]
           ++ §". Check the extension settings.").
Definition Timeout : error := JsError §"Ollama request timed out after 60 seconds.".
Definition UpstreamError (status : Z) (text : jstring) : error :=
  JsError (§"HTTP " ++ Z_to_jstring status ++ §": " ++ text).

(** [callOllama(host, model, prompt)] against a network that answers a
    request with [fetch]: the requests issued, in order, and the outcome. *)
Definition callOllama (fetch : request → fetch_outcome)
    (host model prompt : jstring) : list request * result jsval :=
  if negb (isValidHostUrl host) then ([], Throw (InvalidHost host))
  else
    let url := replace re_trailing_slash host ++ §"/api/generate" in
    let req := {|
      req_url := url;
      req_method := §"POST";
      req_content_type := §"application/json";
      req_body := stringify (JObj [(§"model", JStr model);
                                   (§"prompt", JStr prompt);
                                   (§"stream", JBool false)]) |} in
    ([req],
     match fetch req with
     | Aborted => Throw Timeout
     | Rejected e => Throw e
     | Responded ok status text data =>
         if negb ok then Throw (UpstreamError status text)
         else data ← data; response_of data
     end).

(** ** Compact timestamps [YYYYMMDDTHHMMSS] *)

Definition digit_char (n : Z) : ascii := ascii_of_N (48 + Z.to_N n).

(** [n] written with exactly [width] decimal digits. *)
Fixpoint pad_digits (width : nat) (n : Z) : jstring :=
  match width with
  | O => []
  | S w => pad_digits w (n / 10) ++ [digit_char (n mod 10)]
  end.

(** The number a string of decimal digits denotes. *)
Fixpoint digits_value (acc : Z) (s : jstring) : option Z :=
  match s with
  | [] => Some acc
  | c :: s' =>
      if is_digit c then digits_value (10 * acc + Z.of_N (code c - 48)) s' else None
  end.

Definition all_digits (s : jstring) : bool := forallb is_digit s.

(** The canonical format of §4.1: eight digits, [T], six digits. *)
Definition canonical (s : jstring) : bool :=
  (length s =? 15)%nat
  && all_digits (take 8 s)
  && bool_decide (s !! 8%nat = Some "T"%char)
  && all_digits (drop 9 s).

Record caltime := {
  year : Z; month : Z; day : Z;
  hour : Z; minute : Z; second : Z
}.

Definition parse_caltime (s : jstring) : option caltime :=
  if canonical s then
    y ← digits_value 0 (slice 0 4 s);
    mo ← digits_value 0 (slice 4 6 s);
    d ← digits_value 0 (slice 6 8 s);
    h ← digits_value 0 (slice 9 11 s);
    mi ← digits_value 0 (slice 11 13 s);
    se ← digits_value 0 (slice 13 15 s);
    Some {| year := y; month := mo; day := d; hour := h; minute := mi; second := se |}
  else None.

Definition format_caltime (t : caltime) : jstring :=
  pad_digits 4 (year t) ++ pad_digits 2 (month t) ++ pad_digits 2 (day t)
  ++ §"T" ++ pad_digits 2 (hour t) ++ pad_digits 2 (minute t) ++ pad_digits 2 (second t).

Definition is_leap (y : Z) : bool :=
  ((y mod 4 =? 0) && negb (y mod 100 =? 0)) || (y mod 400 =? 0).

Definition days_in_month (y m : Z) : Z :=
  if m =? 2 then (if is_leap y then 29 else 28)
  else if (m =? 4) || (m =? 6) || (m =? 9) || (m =? 11) then 30
  else 31.

Definition valid_caltime (t : caltime) : bool :=
  (0 <=? year t) && (year t <=? 9999)
  && (1 <=? month t) && (month t <=? 12)
  && (1 <=? day t) && (day t <=? days_in_month (year t) (month t))
  && (0 <=? hour t) && (hour t <? 24)
  && (0 <=? minute t) && (minute t <? 60)
  && (0 <=? second t) && (second t <? 60).

(** The position of a timestamp on the time line, in seconds, counted on the
    proleptic Gregorian calendar. *)
Definition days_before_year (y : Z) : Z :=
  365 * y + (y - 1) / 4 - (y - 1) / 100 + (y - 1) / 400.

Fixpoint days_before_month (y : Z) (m : nat) : Z :=
  match m with
  | O => 0
  | S m' => days_before_month y m' + days_in_month y (Z.of_nat m)
  end.

Definition day_number (t : caltime) : Z :=
  days_before_year (year t) + days_before_month (year t) (Z.to_nat (month t - 1))
  + (day t - 1).

Definition seconds_of (t : caltime) : Z :=
  day_number t * 86400 + hour t * 3600 + minute t * 60 + second t.

(** ** Year advancement *)

(** Modelled from the spec: [advancePastYear] is called by [handleCalendar]
    and imported by the integration tests from [utils.js], but the [utils.js]
    at hand does not define it.  §4.1: the year is advanced by integer years
    until the date is on or after the reference, the reference year being
    supplied by the caller; month, day and time are kept. *)
Fixpoint advance_year (steps : nat) (y referenceYear : Z) : Z :=
  match steps with
  | O => y
  | S n => if y <? referenceYear then advance_year n (y + 1) referenceYear else y
  end.

Definition advancePastYear (dateStr : jstring) (referenceYear : Z) : jstring :=
  match digits_value 0 (slice 0 4 dateStr) with
  | Some y =>
      if y <? referenceYear then
        pad_digits 4 (advance_year (Z.to_nat (referenceYear - y)) y referenceYear)
        ++ drop 4 dateStr
      else dateStr
  | None => dateStr
  end.

(** The year a timestamp shows. *)
Definition year_of (dateStr : jstring) : option Z := digits_value 0 (slice 0 4 dateStr).

(** ** The all-day adjustment of handleCalendar *)

Definition next_day (t : caltime) : caltime :=
  if day t <? days_in_month (year t) (month t) then
    {| year := year t; month := month t; day := day t + 1;
       hour := hour t; minute := minute t; second := second t |}
  else if month t <? 12 then
    {| year := year t; month := month t + 1; day := 1;
       hour := hour t; minute := minute t; second := second t |}
  else
    {| year := year t + 1; month := 1; day := 1;
       hour := hour t; minute := minute t; second := second t |}.

(** Modelled from the spec: [addHoursToCalDate] is called by
    [handleCalendar] and defined nowhere in the sources at hand.  §4.5 and
    §8: the end date is advanced by one full day, to exactly 24 hours later;
    the timestamp is floating, no zone is involved (§4.1).  What it does
    with a string that is no timestamp, or with a negative number of hours,
    is not specified: the string is returned as it is. *)
Definition addHoursToCalDate (calDate : jstring) (hours : Z) : jstring :=
  match parse_caltime calDate with
  | Some t =>
      if valid_caltime t && (0 <=? hours) then
        let total := hour t + hours in
        let t' := Nat.iter (Z.to_nat (total / 24)) next_day t in
        format_caltime
          {| year := year t'; month := month t'; day := day t';
             hour := total mod 24; minute := minute t'; second := second t' |}
      else calDate
  | None => calDate
  end.

(** [a !== b] on values that come out of one [JSON.parse]: strings, numbers,
    booleans, [null] and [undefined] compare by value, two arrays or objects
    are never the same object. *)
Definition strict_eq (a b : jsval) : bool :=
  match a, b with
  | None, None => true
  | Some JNull, Some JNull => true
  | Some (JBool x), Some (JBool y) => bool_decide (x = y)
  | Some (JNum x), Some (JNum y) => x =? y
  | Some (JStr x), Some (JStr y) => bool_decide (x = y)
  | _, _ => false
  end.

(** Lines 297-299 of [handleCalendar].  After [normalizeCalendarData] a
    truthy [endDate] is a string; for any other value the helper is not
    specified and the record is kept. *)
Definition adjustAllDayEnd (parsed : record) : record :=
  if truthy (parsed !! §"forceAllDay")
     && truthy (parsed !! §"endDate")
     && negb (strict_eq (parsed !! §"endDate") (parsed !! §"startDate"))
  then
    match parsed !! §"endDate" with
    | Some (JStr endDate) => <[§"endDate" := JStr (addHoursToCalDate endDate 24)]> parsed
    | _ => parsed
    end
  else parsed.


(** ** More string primitives *)

(** [s.startsWith(w)] *)
Fixpoint startsWith (w s : jstring) : bool :=
  match w, s with
  | [], _ => true
  | a :: w', b :: s' => Ascii.eqb a b && startsWith w' s'
  | _ :: _, [] => false
  end.

(** [s.includes(w)] *)
Fixpoint includes (w s : jstring) : bool :=
  startsWith w s ||
  match s with
  | [] => false
  | _ :: s' => includes w s'
  end.

(** [s.slice(-n)] *)
Definition slice_last (n : nat) (s : jstring) : jstring := drop (length s - n) s.

(** [s.padStart(n, c)] *)
Definition padStart (n : nat) (c : ascii) (s : jstring) : jstring :=
  replicate (n - length s) c ++ s.

Fixpoint take_digits (s : jstring) : jstring :=
  match s with
  | c :: s' => if is_digit c then c :: take_digits s' else []
  | [] => []
  end.

(** [parseInt(s, 10)]: leading white space is skipped, a sign is read, then
    the longest run of digits; [None] is [NaN]. *)
Definition parseInt (s : jstring) : option Z :=
  let s := drop_while is_space s in
  let '(sign, s) :=
    match s with
    | c :: s' =>
        if Ascii.eqb c "-" then (-1, s')
        else if Ascii.eqb c "+" then (1, s')
        else (1, s)
    | [] => (1, [])
    end in
  match take_digits s with
  | [] => None
  | ds => Z.mul sign <$> digits_value 0 ds
  end.

(** [s.replace(/r/g, w)] for a replacement [w] without [$]: every match is
    replaced, scanning left to right; [skip] counts the characters of the
    current match still to pass over.  After an empty match the scan moves on
    by one character. *)
Fixpoint replaceAllWith_from (r : regex) (w : jstring) (prev : option ascii)
    (s : jstring) (skip : nat) : jstring :=
  match skip with
  | S n =>
      match s with
      | [] => []
      | c :: s' => replaceAllWith_from r w (Some c) s' n
      end
  | O =>
      match match_here r prev s, s with
      | Some (S n), c :: s' => w ++ replaceAllWith_from r w (Some c) s' n
      | Some _, c :: s' => w ++ c :: replaceAllWith_from r w (Some c) s' O
      | None, c :: s' => c :: replaceAllWith_from r w (Some c) s' O
      | Some _, [] => w
      | None, [] => []
      end
  end.

Definition replaceAllWith (r : regex) (w : jstring) (s : jstring) : jstring :=
  replaceAllWith_from r w None s O.

(** [s.split(c)] for a separator of one character; [piece] is the piece
    being read. *)
Fixpoint split_from (c : ascii) (piece : jstring) (s : jstring) : list jstring :=
  match s with
  | [] => [piece]
  | x :: s' =>
      if Ascii.eqb x c then piece :: split_from c [] s'
      else split_from c (piece ++ [x]) s'
  end.

Definition split (c : ascii) (s : jstring) : list jstring := split_from c [] s.

(** ** utils.js: buildAttendeesHint, buildDescription, buildCategoryInstruction *)

(** A message header as the mail API gives it: the properties read by the
    code.  [None] is an absent property; [recipients] is an array of
    strings. *)
Record message := {
  author : option jstring;
  recipients : option (list jstring);
  subject : option jstring
}.

(** [v || w] where [v] is a string or absent. *)
Definition string_or (v : option jstring) (w : jstring) : jstring :=
  if truthy (JStr <$> v) then default [] v else w.

Definition buildAttendeesHint (message : message) (source staticEmail : jstring)
    : list jstring :=
  if bool_decide (source = §"from") then
    if truthy (JStr <$> author message) then [default [] (author message)] else []
  else if bool_decide (source = §"to") then
    default [] (recipients message)
  else if bool_decide (source = §"static") then
    if truthy (Some (JStr staticEmail)) then [staticEmail] else []
  else if bool_decide (source = §"none") then
    []
  else
    (if truthy (JStr <$> author message) then [default [] (author message)] else [])
    ++ default [] (recipients message).

(** [None] is the [null] of the format [none]. *)
Definition buildDescription (emailBody author subject format : jstring)
    : option jstring :=
  if bool_decide (format = §"body") then Some emailBody
  else if bool_decide (format = §"none") then None
  else Some (§"From: " ++ author ++ [LF] ++ §"Subject: " ++ subject
             ++ [LF; LF] ++ emailBody).

Record category_instruction := { instruction : jstring; jsonLine : jstring }.

(** The fixed text of the instruction after the list of categories.  The
    dash of the second line is outside the code units of the model and is
    written as the three bytes of its UTF-8 form; the function only
    concatenates. *)
Definition category_guidelines : jstring :=
  [LF] ++ §"- The subject line is the strongest signal — match it directly if a category fits"
  ++ [LF] ++ quoted "- Prefer the most specific matching category (e.g. prefer 'Family' over 'Personal' or 'Miscellaneous' for family events, 'Work' or 'Business' over 'Personal' for professional events)"
  ++ [LF] ++ quoted "- Only use a generic category like 'Miscellaneous' or 'Other' if no specific category clearly applies"
  ++ [LF] ++ §"- If truly none fit, use an empty string".

(** [categories] is [null] or an array of strings. *)
Definition buildCategoryInstruction (categories : option (list jstring))
    : category_instruction :=
  match categories with
  | None | Some [] => {| instruction := []; jsonLine := [] |}
  | Some names =>
      {| instruction :=
           quoted "Select the single most appropriate category for the 'category' field using these guidelines:"
           ++ [LF] ++ §"- Available categories: " ++ join §", " names
           ++ category_guidelines;
         jsonLine := §"," ++ [LF] ++ quoted "'category': 'CategoryName'" |}
  end.

(** ** background.js: settings and the remaining steps of the handlers *)

(** The settings as the options page stores them and [storage.sync.get]
    returns them: strings and booleans. *)
Record settings := {
  ollamaHost : jstring;
  ollamaModel : jstring;
  attendeesSource : jstring;
  attendeesStatic : jstring;
  defaultCalendar : jstring;
  descriptionFormat : jstring;
  taskDescriptionFormat : jstring;
  taskDefaultDue : jstring;
  calendarUseCategory : bool;
  taskUseCategory : bool;
  replyMode : jstring;
  contactAddressBook : jstring;
  debugPromptPreview : bool
}.

Definition DEFAULT_HOST : jstring := §"http://127.0.0.1:11434".

Definition DEFAULTS : settings := {|
  ollamaHost := DEFAULT_HOST;
  ollamaModel := §"mistral:7b";
  attendeesSource := §"from_to";
  attendeesStatic := [];
  defaultCalendar := [];
  descriptionFormat := §"body_from_subject";
  taskDescriptionFormat := §"body_from_subject";
  taskDefaultDue := §"none";
  calendarUseCategory := false;
  taskUseCategory := false;
  replyMode := §"replyToSender";
  contactAddressBook := [];
  debugPromptPreview := false
|}.

(** [extractJSON(rawResponse)] on what [callOllama] returned: only a string
    has a [replace] method. *)
Definition extractJSON_value (rawResponse : jsval) : result jstring :=
  match rawResponse with
  | Some (JStr text) => extractJSON text
  | _ => Throw TypeError
  end.

(** What [callOllamaWithNotification] does to the outside, in order. *)
Inductive effect :=
| PreviewShown (prompt : jstring)              (* previewPrompt(prompt) *)
| ThinkingShown (model actionLabel : jstring)  (* notifications.create(THINKING_ID, ..) *)
| Requested (req : request)                    (* fetch(url, ..) *)
| ThinkingCleared.                             (* notifications.clear(THINKING_ID) *)

(** [callOllamaWithNotification(host, model, prompt, actionLabel, settings)]:
    [preview] is the outcome of the preview window, [JSON_parse] the
    runtime's parser. *)
Definition callOllamaWithNotification (fetch : request → fetch_outcome)
    (preview : jstring → result unit) (JSON_parse : jstring → result json)
    (host model prompt actionLabel : jstring) (settings : option settings)
    : list effect * result json :=
  let previewed :=
    match settings with
    | Some s => debugPromptPreview s
    | None => false
    end in
  let shown := if previewed then [PreviewShown prompt] else [] in
  match (if previewed then preview prompt else OK ()) with
  | Throw e => (shown, Throw e)
  | OK _ =>
      let '(requests, rawResponse) := callOllama fetch host model prompt in
      (shown ++ [ThinkingShown model actionLabel]
         ++ map Requested requests ++ [ThinkingCleared],
       rawResponse ← rawResponse;
       jsonStr ← extractJSON_value rawResponse;
       JSON_parse jsonStr)
  end.

(** Line 271 of [handleCalendar]: [parseInt(currentDt.slice(-4), 10)]. *)
Definition refYear (currentDt : jstring) : option Z := parseInt (slice_last 4 currentDt).

(** Lines 279-284 of [handleCalendar] and 341-346 of [handleTask]. *)
Definition apply_description (format emailBody author subject : jstring)
    (parsed : record) : record :=
  if bool_decide (format = §"ai_summary") then
    if negb (truthy (parsed !! §"description"))
    then <[§"description" := JStr subject]> parsed
    else parsed
  else
    let description := buildDescription emailBody author subject format in
    if truthy (JStr <$> description)
    then assign §"description" (JStr <$> description) parsed
    else parsed.

(** Lines 286-292 of [handleCalendar]. *)
Definition apply_calendar_settings (defaultCalendar attendeesSource
    attendeesStatic : jstring) (parsed : record) : record :=
  let parsed :=
    if truthy (Some (JStr defaultCalendar))
    then <[§"calendar_name" := JStr defaultCalendar]> parsed
    else parsed in
  if bool_decide (attendeesSource = §"static") then
    <[§"attendees" :=
        JArr (if truthy (Some (JStr attendeesStatic)) then [JStr attendeesStatic] else [])]>
      parsed
  else if bool_decide (attendeesSource = §"none") then
    <[§"attendees" := JArr []]> parsed
  else parsed.

(** Lines 279-299 of [handleCalendar]: what happens to the record between
    [applyCalendarDefaults] and the dialog. *)
Definition handleCalendar_finish (settings : settings) (message : message)
    (emailBody : jstring) (parsed : record) : record :=
  let attendeesSource := string_or (Some (attendeesSource settings)) §"from_to" in
  let attendeesStatic := string_or (Some (attendeesStatic settings)) [] in
  let defaultCalendar := string_or (Some (defaultCalendar settings)) [] in
  let descriptionFormat :=
    string_or (Some (descriptionFormat settings)) §"body_from_subject" in
  let author := string_or (author message) [] in
  let subject := string_or (subject message) [] in
  adjustAllDayEnd
    (apply_calendar_settings defaultCalendar attendeesSource attendeesStatic
       (apply_description descriptionFormat emailBody author subject parsed)).

(** A local calendar date as [Date] shows it. *)
Definition prev_day (t : caltime) : caltime :=
  if 1 <? day t then
    {| year := year t; month := month t; day := day t - 1;
       hour := hour t; minute := minute t; second := second t |}
  else if 1 <? month t then
    {| year := year t; month := month t - 1;
       day := days_in_month (year t) (month t - 1);
       hour := hour t; minute := minute t; second := second t |}
  else
    {| year := year t - 1; month := 12; day := 31;
       hour := hour t; minute := minute t; second := second t |}.

(** [future.setDate(future.getDate() + n)] *)
Definition add_days (t : caltime) (n : Z) : caltime :=
  if 0 <=? n then Nat.iter (Z.to_nat n) next_day t
  else Nat.iter (Z.to_nat (- n)) prev_day t.

(** Lines 332-339 of [handleTask]; [now] is the local date and time of
    [new Date()].  With a setting that is no number the date is invalid and
    every field of it prints as [NaN]. *)
Definition default_due_date (now : caltime) (taskDefaultDue : jstring) : jstring :=
  match parseInt taskDefaultDue with
  | Some n =>
      let future := add_days now n in
      Z_to_jstring (year future)
      ++ padStart 2 "0" (Z_to_jstring (month future))
      ++ padStart 2 "0" (Z_to_jstring (day future))
      ++ §"T120000"
  | None => §"NaNNaNNaNT120000"
  end.

(** Lines 330-346 of [handleTask]: what happens to the record between the
    answer of the model and the dialog. *)
Definition handleTask_record (settings : settings) (message : message)
    (emailBody : jstring) (now : caltime) (parsed : record) : result record :=
  let taskDescriptionFormat :=
    string_or (Some (taskDescriptionFormat settings)) §"body_from_subject" in
  let taskDefaultDue := string_or (Some (taskDefaultDue settings)) §"none" in
  let author := string_or (author message) [] in
  let subject := string_or (subject message) [] in
  parsed ← normalizeTaskData parsed;
  let parsed :=
    if negb (truthy (parsed !! §"dueDate")) && negb (bool_decide (taskDefaultDue = §"none"))
    then <[§"dueDate" := JStr (default_due_date now taskDefaultDue)]> parsed
    else parsed in
  OK (apply_description taskDescriptionFormat emailBody author subject parsed).

(** ** background.js: the HTML of a drafted reply and of a summary *)

(** Lines 374-378 and 404-408. *)
Definition escape_html (s : jstring) : jstring :=
  replaceAllWith (RChar (is_char LF)) §"<br>"
    (replaceAllWith (RChar (is_char ">")) §"&gt;"
      (replaceAllWith (RChar (is_char "<")) §"&lt;"
        (replaceAllWith (RChar (is_char "&")) §"&amp;" s))).

(** [(v || "").trim()]: a truthy value that is no string has no [trim]. *)
Definition trimmed_text (v : jsval) : result jstring :=
  if truthy v then
    match v with
    | Some (JStr s) => OK (trim s)
    | _ => Throw TypeError
    end
  else OK (trim []).

(** What [handleDraftReply] does with the answer of the model: [None] when
    it stops at "Empty reply" before a compose window is opened, else the
    body it sets, [details_body] being the body the compose window had. *)
Definition handleDraftReply_body (parsed : record) (details_body : option jstring)
    : result (option jstring) :=
  replyBody ← trimmed_text (parsed !! §"body");
  if negb (truthy (Some (JStr replyBody))) then OK None
  else OK (Some (§"<p>" ++ escape_html replyBody ++ §"</p><br>"
                 ++ string_or details_body [])).

(** The same for [handleSummarizeForward]. *)
Definition handleSummarizeForward_body (parsed : record)
    (details_body : option jstring) : result (option jstring) :=
  summary ← trimmed_text (parsed !! §"summary");
  if negb (truthy (Some (JStr summary))) then OK None
  else OK (Some (§"<p><strong>Summary:</strong><br>" ++ escape_html summary
                 ++ §"</p><hr>" ++ string_or details_body [])).

(** ** background.js: how the menu handler reports a failure *)

(** Lines 480-486: the title and the message of the notification, from the
    [message] of what was thrown. *)
Definition report_failure (message : option jstring) : jstring * option jstring :=
  if match message with
     | Some m =>
         includes §"invalid JSON" m || includes §"No JSON object" m
         || includes §"Unclosed JSON" m
     | None => false
     end
  then (§"Parse error",
        Some §"Model returned invalid JSON. Check the browser console for details.")
  else (§"Error", message).

(** ** api/CalendarTools/implementation.js *)

(** The order of [Array.prototype.sort] without a comparator, on strings:
    by code units, a proper prefix first. *)
Fixpoint string_lt (a b : jstring) : bool :=
  match a, b with
  | _, [] => false
  | [], _ :: _ => true
  | x :: a', y :: b' =>
      (code x <? code y)%N || ((code x =? code y)%N && string_lt a' b')
  end.

Fixpoint insert_sorted (x : jstring) (l : list jstring) : list jstring :=
  match l with
  | [] => [x]
  | y :: l' => if string_lt y x then y :: insert_sorted x l' else x :: y :: l'
  end.

(** [l.sort()]: the elements in ascending order.  The order is total and two
    strings that compare equal are the same string, so the result does not
    depend on the sorting algorithm of the runtime. *)
Definition sort (l : list jstring) : list jstring := foldr insert_sorted [] l.

(** [filter(Boolean)] on strings *)
Definition nonempty (s : jstring) : bool := truthy (Some (JStr s)).

(** [getCategories()]; [pref] is what reading the preference
    [calendar.categories.names] gives. *)
Definition getCategories (pref : result jstring) : list jstring :=
  match pref with
  | OK pref =>
      if negb (truthy (Some (JStr pref))) then []
      else sort (List.filter nonempty (map trim (split "," pref)))
  | Throw _ => []
  end.

(** The address of an attendee in [openCalendarDialog]. *)
Definition attendee_address (attendee : jstring) : jstring :=
  if startsWith §"mailto:" attendee then attendee else §"mailto:" ++ attendee.

(** A calendar of the calendar manager: the properties read by the code. *)
Record calendar := {
  cal_name : jstring;
  cal_id : jstring;
  cal_disabled : bool      (* [getProperty("disabled")], as a condition *)
}.

(** [findCalendarByName(name)]; [calendars] is what [getCalendars()] of the
    calendar manager gives. *)
Definition findCalendarByName (calendars : result (list calendar)) (name : jstring)
    : option calendar :=
  if negb (truthy (Some (JStr name))) then None
  else
    match calendars with
    | OK calendars =>
        List.find (λ c, bool_decide (cal_name c = name) && negb (cal_disabled c)) calendars
    | Throw _ => None
    end.

(** [getCalendars()] of the API: names and ids of the enabled calendars. *)
Definition getCalendars (calendars : result (list calendar)) : list (jstring * jstring) :=
  match calendars with
  | OK calendars =>
      map (λ c, (cal_name c, cal_id c)) (List.filter (λ c, negb (cal_disabled c)) calendars)
  | Throw _ => []
  end.

(** ** contact/review.js *)

(** The fields of the review form, as the user left them. *)
Record contact_form := {
  form_firstName : jstring;
  form_lastName : jstring;
  form_email : jstring;
  form_phone : jstring;
  form_company : jstring;
  form_jobTitle : jstring;
  form_website : jstring;
  form_addressBook : jstring       (* the value of the selected option *)
}.

(** [if (value) properties.key = value;] *)
Definition set_if_truthy (key value : jstring) (properties : gmap jstring jstring)
    : gmap jstring jstring :=
  if truthy (Some (JStr value)) then <[key := value]> properties else properties.

(** The call [saveContact] makes: the address book and the properties passed
    to [contacts.create], or [None] when it stops at "Please select an
    address book." *)
Definition saveContact (form : contact_form) : option (jstring * gmap jstring jstring) :=
  let addressBookId := form_addressBook form in
  if negb (truthy (Some (JStr addressBookId))) then None
  else
    let firstName := trim (form_firstName form) in
    let lastName := trim (form_lastName form) in
    let email := trim (form_email form) in
    let phone := trim (form_phone form) in
    let company := trim (form_company form) in
    let jobTitle := trim (form_jobTitle form) in
    let website := trim (form_website form) in
    let properties :=
      set_if_truthy §"WebPage1" website
        (set_if_truthy §"JobTitle" jobTitle
          (set_if_truthy §"Company" company
            (set_if_truthy §"CellularNumber" phone
              (set_if_truthy §"PrimaryEmail" email
                (set_if_truthy §"LastName" lastName
                  (set_if_truthy §"FirstName" firstName ∅)))))) in
    let properties :=
      if truthy (Some (JStr firstName)) || truthy (Some (JStr lastName))
      then <[§"DisplayName" := join §" " (List.filter nonempty [firstName; lastName])]>
             properties
      else properties in
    Some (addressBookId, properties).

(** An address book of the mail API: the properties read by the code. *)
Record address_book := {
  book_id : jstring;
  book_name : jstring;
  book_readOnly : bool
}.

(** An [option] element of the address-book list. *)
Record option_element := {
  opt_value : jstring;
  opt_text : jstring;
  opt_disabled : bool
}.

Definition placeholder_option (text : jstring) : option_element :=
  {| opt_value := []; opt_text := text; opt_disabled := true |}.

(** The index of the first option with the given value. *)
Fixpoint option_index (value : jstring) (options : list option_element) : option nat :=
  match options with
  | [] => None
  | o :: options' =>
      if bool_decide (opt_value o = value) then Some O
      else S <$> option_index value options'
  end.

(** [populateAddressBooks(selectEl, savedId)]: the options of the list
    afterwards and the index the code selects, [None] where it selects
    nothing itself; [books] is what [addressBooks.list()] gives.  Setting
    [selectEl.value] selects the first option with that value and leaves
    nothing selected, with an empty [value], when there is none. *)
Definition populateAddressBooks (books : result (list address_book)) (savedId : jstring)
    : list option_element * option nat :=
  match books with
  | Throw _ => ([placeholder_option §"(could not read address books)"], None)
  | OK books =>
      let writable := List.filter (λ b, negb (book_readOnly b)) books in
      match writable with
      | [] => ([placeholder_option §"(no writable address books found)"], None)
      | _ =>
          let options :=
            map (λ b, {| opt_value := book_id b; opt_text := book_name b;
                         opt_disabled := false |}) writable in
          (options,
           if truthy (Some (JStr savedId)) then
             match option_index savedId options with
             | Some i => Some i     (* [selectEl.value] is [savedId], truthy *)
             | None => Some O       (* [selectEl.value] is empty *)
             end
           else Some O)
      end
  end.

(** ** analyze/analyze.js *)

(** The three groups of detected items. *)
Inductive group := Events | Tasks | Contacts.

Definition group_key (g : group) : jstring :=
  match g with Events => §"events" | Tasks => §"tasks" | Contacts => §"contacts" end.
Definition group_label (g : group) : jstring :=
  match g with Events => §"Calendar Events" | Tasks => §"Tasks" | Contacts => §"Contacts" end.
Definition group_prefix (g : group) : jstring :=
  match g with Events => §"event" | Tasks => §"task" | Contacts => §"contact" end.

Definition groups : list group := [Events; Tasks; Contacts].

(** A checkbox of the detected items with its label: [cb_group] and
    [cb_index] are its [dataset], [cb_label] is the value assigned to the
    text of the label. *)
Record checkbox := {
  cb_id : jstring;
  cb_checked : bool;
  cb_group : group;
  cb_index : jstring;
  cb_label : json
}.

(** [a || b] *)
Definition or_else (a b : jsval) : jsval := if truthy a then a else b.

(** [previewText]: an item that is a string itself, else the first truthy
    one of six properties of the item, else [null].  [null] has no
    properties to read; a number, a boolean or an array has none of these
    names. *)
Definition previewText (item : json) : result jsval :=
  match item with
  | JStr _ => OK (Some item)
  | JNull => Throw TypeError
  | _ =>
      let property key :=
        match item with
        | JObj fields => get_field key fields
        | _ => None
        end in
      OK (foldr (λ key rest, or_else (property key) rest) (Some JNull)
            [§"preview"; §"title"; §"name"; §"description"; §"summary"; §"label"])
  end.

(** The rows of one group, from index [idx] on. *)
Fixpoint render_rows (g : group) (idx : Z) (items : list json) : result (list checkbox) :=
  match items with
  | [] => OK []
  | item :: items' =>
      text ← previewText item;
      rows ← render_rows g (idx + 1) items';
      OK ({| cb_id := group_prefix g ++ §"-" ++ Z_to_jstring idx;
             cb_checked := true;
             cb_group := g;
             cb_index := Z_to_jstring idx;
             cb_label :=
               default JNull
                 (or_else text
                    (Some (JStr (group_label g ++ §" item " ++ Z_to_jstring (idx + 1)))))
          |} :: rows)
  end.

(** The items of a group when there are some to show. *)
Definition detected (analysis : record) (g : group) : list json :=
  match analysis !! group_key g with
  | Some (JArr items) => items
  | _ => []
  end.

(** The checkboxes the page shows for an analysis, in document order. *)
Fixpoint render_groups (analysis : record) (gs : list group) : result (list checkbox) :=
  match gs with
  | [] => OK []
  | g :: gs' =>
      rows ← render_rows g 0 (detected analysis g);
      rest ← render_groups analysis gs';
      OK (rows ++ rest)
  end.

Definition render_detected (analysis : record) : result (list checkbox) :=
  render_groups analysis groups.

(** The checkboxes of the Actions section. *)
Record actions := {
  act_forceCalendar : bool;
  act_forceTask : bool;
  act_forceContact : bool;
  act_reply : bool;
  act_forward : bool;
  act_catalog : bool;
  act_archive : bool;
  act_delete : bool
}.

(** What [buildSelections] returns; an index that does not read as a number
    is [None]. *)
Record selections := {
  sel_events : list (option Z);
  sel_tasks : list (option Z);
  sel_contacts : list (option Z);
  sel_actions : actions
}.

Definition same_group (a b : group) : bool :=
  match a, b with
  | Events, Events | Tasks, Tasks | Contacts, Contacts => true
  | _, _ => false
  end.

(** The indices pushed for one group: those of its checked boxes, in
    document order. *)
Definition selected (g : group) (boxes : list checkbox) : list (option Z) :=
  map (λ cb, parseInt (cb_index cb))
    (List.filter (λ cb, cb_checked cb && same_group g (cb_group cb)) boxes).

Definition buildSelections (boxes : list checkbox) (a : actions) : selections :=
  {| sel_events := selected Events boxes;
     sel_tasks := selected Tasks boxes;
     sel_contacts := selected Contacts boxes;
     sel_actions := a |}.

(** A click of the user on one of the two checkboxes: the box changes and
    its [change] listener runs. *)
Inductive click := ClickArchive | ClickDelete.

Definition on_click (c : click) (a : actions) : actions :=
  match c with
  | ClickArchive =>
      let archive := negb (act_archive a) in
      {| act_forceCalendar := act_forceCalendar a; act_forceTask := act_forceTask a;
         act_forceContact := act_forceContact a; act_reply := act_reply a;
         act_forward := act_forward a; act_catalog := act_catalog a;
         act_archive := archive;
         act_delete := if archive then false else act_delete a |}
  | ClickDelete =>
      let delete := negb (act_delete a) in
      {| act_forceCalendar := act_forceCalendar a; act_forceTask := act_forceTask a;
         act_forceContact := act_forceContact a; act_reply := act_reply a;
         act_forward := act_forward a; act_catalog := act_catalog a;
         act_archive := if delete then false else act_archive a;
         act_delete := delete |}
  end.

(** ** The reference definition of normalizeCalDate

    §4.1 in executable form, written with suffixes and prefixes instead of
    regular expressions. *)

(** Neither a dash nor a colon. *)
Abbreviation no_separator := (λ c : ascii, c ≠ "-"%char ∧ c ≠ ":"%char).

(** The length of the longest suffix of [s] made of characters of [p]. *)
Fixpoint trailing_run (p : ascii → bool) (s : jstring) : nat :=
  match s with
  | [] => O
  | c :: s' =>
      let k := trailing_run p s' in
      if (k =? length s')%nat && p c then S k else k
  end.

(** Remove the last [n] characters when they have the given shape. *)
Definition strip_last (n : nat) (shape : jstring → bool) (s : jstring) : jstring :=
  let k := (length s - n)%nat in
  if (n <=? length s)%nat && shape (drop k s) then take k s else s.

Definition zulu_shape (zulu : ascii → bool) (x : jstring) : bool :=
  match x with
  | [c] => zulu c
  | _ => false
  end.

Definition offset_shape (x : jstring) : bool :=
  match x with
  | sg :: ds => re_sign sg && (length ds =? 4)%nat && all_digits ds
  | [] => false
  end.

(** "a trailing Z", [zulu] saying which characters count as one *)
Definition strip_trailing_zulu (zulu : ascii → bool) : jstring → jstring :=
  strip_last 1 (zulu_shape zulu).

(** "a trailing signed 4-digit timezone offset" *)
Definition strip_trailing_offset : jstring → jstring := strip_last 5 offset_shape.

(** "a trailing fractional-second suffix": a dot and the digits after it,
    at least one, up to the end. *)
Definition strip_trailing_fraction (s : jstring) : jstring :=
  let k := trailing_run is_digit s in
  let n := length s in
  if (1 <=? k)%nat && (k <? n)%nat && bool_decide (s !! (n - k - 1)%nat = Some "."%char)
  then take (n - k - 1) s
  else s.

Definition strip_zone_and_fraction (zulu : ascii → bool) (dateStr : jstring) : jstring :=
  strip_trailing_fraction
    (strip_trailing_offset
      (strip_trailing_zulu zulu
        (filter no_separator dateStr))).

(** What precedes and what follows the first [T]. *)
Definition before_T (s : jstring) : jstring := take_until (is_char "T") s.
Definition after_T (s : jstring) : jstring := drop (S (length (before_T s))) s.

Definition pad_time (time : jstring) : jstring :=
  time ++ replicate (6 - length time) "0"%char.

(** The sentence of §4.1 word for word: a trailing upper-case [Z]; when a
    [T] remains, the first 8 characters as the date and up to 6 characters of
    what follows the [T] as the time. *)
Definition normalizeCalDate_words (dateStr : jstring) : jstring :=
  let s := strip_zone_and_fraction (is_char "Z") dateStr in
  if bool_decide ("T"%char ∈ s)
  then take 8 s ++ §"T" ++ pad_time (take 6 (after_T s))
  else take 8 s ++ §"T000000".

(** The same with the two points on which the code differs: the trailing
    [Z] may be in either case, and the date is cut out of what precedes the
    first [T]. *)
Definition normalizeCalDate_reference (dateStr : jstring) : jstring :=
  let s := strip_zone_and_fraction (is_char_ci "Z") dateStr in
  if bool_decide ("T"%char ∈ s)
  then take 8 (before_T s) ++ §"T" ++ pad_time (take 6 (after_T s))
  else take 8 s ++ §"T000000".

(** A pattern anchored at the end of the input: it matches at the front of
    [x] exactly when the whole of [x] has a given shape. *)
Definition end_anchored (r : regex) (shape : jstring → bool) : Prop :=
  ∀ prev x, match_here r prev x = if shape x then Some (length x) else None.

(** The shape of what [re_fraction] matches. *)
Definition fraction_shape (x : jstring) : bool :=
  match x with
  | c :: ds => is_char "." c && negb (bool_decide (ds = [])) && all_digits ds
  | [] => false
  end.

(** ** The supported date-string shapes of §4.1

    Dashes and colons aside, a supported string reads: eight digits; then,
    optionally, [T], the digits of the time, an optional fraction (a dot and
    digits) and an optional zone ([Z] or [+HHMM]).  This covers the compact
    form, ISO 8601 with dashes and colons, a trailing [Z], an offset (the
    sign of a negative offset is a dash and goes with the dashes, which
    leaves its digits behind the time), fractional seconds, a time cut to
    hours or to hours and minutes, and a date alone. *)

Fixpoint take_while (p : ascii → bool) (s : jstring) : jstring :=
  match s with
  | c :: s' => if p c then c :: take_while p s' else []
  | [] => []
  end.

Definition zone_shape (z : jstring) : bool :=
  match z with
  | [] => true
  | [c] => is_char_ci "Z" c
  | c :: ds => is_char "+" c && (length ds =? 4)%nat && all_digits ds
  end.

Definition fraction_zone_shape (r : jstring) : bool :=
  match r with
  | c :: r' =>
      if is_char "." c
      then negb (bool_decide (take_while is_digit r' = []))
           && zone_shape (drop_while is_digit r')
      else zone_shape r
  | [] => true
  end.

Definition supported (s : jstring) : bool :=
  let x := filter no_separator s in
  (8 <=? length x)%nat && all_digits (take 8 x)
  && match drop 8 x with
     | [] => true
     | c :: r => is_char "T" c && fraction_zone_shape (drop_while is_digit r)
     end.

(** Characters of a time or date with its fraction, before the zone. *)
Definition plain (c : ascii) : bool := is_digit c || is_char "T" c || is_char "." c.

(** The shapes §4.1 lists, built from their digits: a date with or without
    dashes; optionally [T] and a time of one to three fields with or without
    colons, a fraction, and a zone. *)
Inductive zone_text :=
| NoZone
| Zulu                                          (* Z *)
| Offset (negative colon : bool) (hh mm : jstring).  (* +HHMM, -HHMM, +HH:MM, -HH:MM *)

Record time_text := {
  time_fields : list jstring;     (* hours; hours, minutes; hours, minutes, seconds *)
  time_colons : bool;
  time_fraction : option jstring;
  time_zone : zone_text
}.

Definition render_zone (z : zone_text) : jstring :=
  match z with
  | NoZone => []
  | Zulu => §"Z"
  | Offset negative colon hh mm =>
      (if negative then §"-" else §"+") ++ hh ++ (if colon then §":" else []) ++ mm
  end.

Definition render_time (t : time_text) : jstring :=
  join (if time_colons t then §":" else []) (time_fields t)
  ++ match time_fraction t with
     | Some F => §"." ++ F
     | None => []
     end
  ++ render_zone (time_zone t).

Definition render_date (dashed : bool) (Y M D : jstring) : jstring :=
  if dashed then Y ++ §"-" ++ M ++ §"-" ++ D else Y ++ M ++ D.

Definition render_shape (dashed : bool) (Y M D : jstring) (t : option time_text) : jstring :=
  render_date dashed Y M D
  ++ match t with
     | Some t => §"T" ++ render_time t
     | None => []
     end.

Definition digits_of_length (n : nat) (s : jstring) : bool :=
  (length s =? n)%nat && all_digits s.

Definition well_formed_zone (z : zone_text) : bool :=
  match z with
  | Offset _ _ hh mm => digits_of_length 2 hh && digits_of_length 2 mm
  | _ => true
  end.

Definition well_formed_time (t : time_text) : bool :=
  forallb all_digits (time_fields t)
  && match time_fraction t with
     | Some F => negb (bool_decide (F = [])) && all_digits F
     | None => true
     end
  && well_formed_zone (time_zone t).

Definition well_formed_shape (Y M D : jstring) (t : option time_text) : bool :=
  digits_of_length 4 Y && digits_of_length 2 M && digits_of_length 2 D
  && match t with
     | Some t => well_formed_time t
     | None => true
     end.

(** ** The record invariant of §3 *)

(** What the model returns for a date: nothing, [null] or a string. *)
Definition date_value (v : jsval) : bool :=
  match v with
  | None | Some JNull | Some (JStr _) => true
  | _ => false
  end.

(** "either absent or matches the canonical timestamp format" *)
Definition absent_or_canonical (v : jsval) : Prop :=
  v = None ∨ ∃ c, v = Some (JStr c) ∧ canonical c = true.

(** "[forceAllDay] is always boolean, never absent" *)
Definition has_boolean (key : jstring) (data : record) : Prop :=
  ∃ b, data !! key = Some (JBool b).

Definition event_invariant (data : record) : Prop :=
  absent_or_canonical (data !! §"startDate")
  ∧ absent_or_canonical (data !! §"endDate")
  ∧ has_boolean §"forceAllDay" data.

Definition task_invariant (data : record) : Prop :=
  absent_or_canonical (data !! §"dueDate")
  ∧ absent_or_canonical (data !! §"initialDate")
  ∧ has_boolean §"forceAllDay" data.

(** What a date field holds after normalization when it held [v] before:
    absent stays absent, a supported shape becomes canonical, [null] and the
    empty string are kept. *)
Definition normalized_from (v v' : jsval) : Prop :=
  normalizeCalDate v = OK v'
  ∧ (v = None → v' = None)
  ∧ (∀ s, v = Some (JStr s) → supported s = true →
       ∃ c, v' = Some (JStr c) ∧ canonical c = true)
  ∧ (truthy v = false → v' = v).

(** ** The braces of a text *)

Definition is_brace (c : ascii) : bool := is_char "{" c || is_char "}" c.

(** The braces of a text, in order. *)
Definition braces (s : jstring) : jstring := List.filter is_brace s.

(** The first [{] of the text is never matched by a [}] that brings the
    nesting depth back to zero. *)
Definition unclosed (text : jstring) : Prop :=
  ∃ start, indexOf "{" text = Some start
           ∧ scan_braces (drop start text) start 0 = None.

(** ** Texts that [extractJSON] recovers *)

(** A text whose braces are matched. *)
Inductive balanced : jstring → Prop :=
| balanced_nil : balanced []
| balanced_char c s : is_brace c = false → balanced s → balanced (c :: s)
| balanced_nest a b :
    balanced a → balanced b → balanced ("{"%char :: a ++ "}"%char :: b).

Definition no_line_terminator (s : jstring) : bool :=
  forallb (λ c, negb (is_line_terminator c)) s.

(** The text of one object on one line: an opening brace, a balanced body,
    the closing brace. *)
Definition object_text (J : jstring) : Prop :=
  ∃ body, J = "{"%char :: body ++ ["}"%char]
          ∧ balanced body ∧ no_line_terminator body = true.

(** No string of the value, key or not, contains a brace. *)
Fixpoint brace_free (v : json) : bool :=
  match v with
  | JNull | JBool _ | JNum _ => true
  | JStr s => forallb (λ c, negb (is_brace c)) s
  | JArr items => forallb brace_free items
  | JObj fields =>
      forallb (λ kv, forallb (λ c, negb (is_brace c)) kv.1 && brace_free kv.2) fields
  end.

(** The raw texts of C1: the stringified object, possibly inside a Markdown
    fence with or without the [json] tag, possibly after some prose. *)
Inductive fence := NoFence | PlainFence | JsonFence.

Definition wrap (prose : jstring) (f : fence) (J : jstring) : jstring :=
  prose ++
  match f with
  | NoFence => J
  | PlainFence => §"```" ++ [LF] ++ J ++ [LF] ++ §"```"
  | JsonFence => §"```json" ++ [LF] ++ J ++ [LF] ++ §"```"
  end.

(** A text with matched braces and no line terminator. *)
Definition tame (s : jstring) : Prop := balanced s ∧ no_line_terminator s = true.

(** ** Shapes and readings used to state the properties of the rest of the code *)

(** A value [normalizeCalDate] accepts: a falsy one or a string. *)
Definition normalizable (v : jsval) : bool :=
  negb (truthy v) || match v with Some (JStr _) => true | _ => false end.

(** The shape of what [re_trailing_slash] matches. *)
Definition slash_shape (x : jstring) : bool := bool_decide (x = §"/").

(** One character of a text, as [escape_html] leaves it. *)
Definition escape_char (c : ascii) : jstring :=
  if Ascii.eqb c "&" then §"&amp;"
  else if Ascii.eqb c "<" then §"&lt;"
  else if Ascii.eqb c ">" then §"&gt;"
  else if Ascii.eqb c LF then §"<br>"
  else [c].

Definition string_le (a b : jstring) : bool := negb (string_lt b a).

(** Neither the first nor the last character is white space. *)
Definition trimmed (s : jstring) : Prop :=
  (∀ c, head s = Some c → is_space c = false)
  ∧ (∀ c, last s = Some c → is_space c = false).

(** The checkboxes with each one checked or not as the user left it. *)
Definition leave (state : jstring → bool) (boxes : list checkbox) : list checkbox :=
  map (λ cb, {| cb_id := cb_id cb; cb_checked := state (cb_id cb);
                cb_group := cb_group cb; cb_index := cb_index cb;
                cb_label := cb_label cb |}) boxes.

(** The indices of the items of a group whose boxes are checked. *)
Definition checked_indices (state : jstring → bool) (analysis : record) (g : group)
    : list (option Z) :=
  map Some
    (List.filter (λ i, state (group_prefix g ++ §"-" ++ Z_to_jstring i))
       (seqZ 0 (Z.of_nat (length (detected analysis g))))).

Definition holds_null (analysis : record) : Prop :=
  ∃ g, JNull ∈ detected analysis g.

(** The number a decimal numeral denotes, read from the left. *)
Fixpoint uint_value (acc : Z) (d : Decimal.uint) : Z :=
  match d with
  | Decimal.Nil => acc
  | Decimal.D0 d => uint_value (10 * acc) d
  | Decimal.D1 d => uint_value (10 * acc + 1) d
  | Decimal.D2 d => uint_value (10 * acc + 2) d
  | Decimal.D3 d => uint_value (10 * acc + 3) d
  | Decimal.D4 d => uint_value (10 * acc + 4) d
  | Decimal.D5 d => uint_value (10 * acc + 5) d
  | Decimal.D6 d => uint_value (10 * acc + 6) d
  | Decimal.D7 d => uint_value (10 * acc + 7) d
  | Decimal.D8 d => uint_value (10 * acc + 8) d
  | Decimal.D9 d => uint_value (10 * acc + 9) d
  end.

(** ** Sample records *)

(** A task record as the model may return it. *)
Definition sample_task : record :=
  <[§"InitialDate" := JStr §"2026-03-01"]>
    (<[§"dueDate" := JStr §"2026-03-05T10:00:00"]>
      {[ §"summary" := JStr §"Pay rent" ]}).

(** An all-day event over several days, as [handleCalendar] holds it before
    the adjustment. *)
Definition sample_event : record :=
  <[§"forceAllDay" := JBool true]>
    (<[§"endDate" := JStr §"20260306T000000"]>
      {[ §"startDate" := JStr §"20260302T000000" ]}).

(** A record with a number where a date is expected. *)
Definition sample_bad_event : record :=
  <[§"startDate" := JNum 20260302]> {[ §"summary" := JStr §"Lunch" ]}.

(** A message, settings with a fallback due date and a static attendee, and
    the time of a request. *)
Definition sample_message : message :=
  {| author := Some §"alice@example.com";
     recipients := Some [§"bob@example.com"; §"carol@example.com"];
     subject := Some §"Lunch" |}.

Definition sample_settings : settings :=
  {| ollamaHost := DEFAULT_HOST; ollamaModel := §"mistral:7b";
     attendeesSource := §"static"; attendeesStatic := §"team@example.com";
     defaultCalendar := §"Work"; descriptionFormat := §"body";
     taskDescriptionFormat := §"body"; taskDefaultDue := §"7";
     calendarUseCategory := false; taskUseCategory := false;
     replyMode := §"replyToSender"; contactAddressBook := [];
     debugPromptPreview := true |}.

Definition sample_now : caltime :=
  {| year := 2026; month := 2; day := 25; hour := 9; minute := 30; second := 0 |}.

(** The form of the contact review with spaces left around a name. *)
Definition sample_form : contact_form :=
  {| form_firstName := §" Ada "; form_lastName := §"Lovelace"; form_email := [];
     form_phone := §"  "; form_company := []; form_jobTitle := [];
     form_website := []; form_addressBook := §"book-2" |}.

Definition sample_books : list address_book :=
  [ {| book_id := §"book-1"; book_name := §"Directory"; book_readOnly := true |};
    {| book_id := §"book-2"; book_name := §"Personal"; book_readOnly := false |};
    {| book_id := §"book-3"; book_name := §"Collected"; book_readOnly := false |} ].

Definition sample_calendars : list calendar :=
  [ {| cal_name := §"Work"; cal_id := §"c1"; cal_disabled := true |};
    {| cal_name := §"Work"; cal_id := §"c2"; cal_disabled := false |} ].

(** An analysis with two events, and one with a [null] among the tasks. *)
Definition sample_analysis : record :=
  {[ §"events" := JArr [JStr §"Lunch on Friday";
                         JObj [(§"title", JStr §"Dinner")]] ]}.

Definition sample_null_analysis : record :=
  {[ §"tasks" := JArr [JStr §"Pay rent"; JNull] ]}.

(** ** Induction principles for the nested data types *)

Section PartInduction.
Variable P : part → Prop.

Definition children_satisfy (ps : option (list (option part))) : Prop :=
  match ps with
  | Some children => Forall (λ c, ∀ q, c = Some q → P q) children
  | None => True
  end.

Hypothesis step : ∀ ct b ps, children_satisfy ps → P (Part ct b ps).

Fixpoint part_rect' (p : part) : P p :=
  match p with
  | Part ct b ps =>
      step ct b ps
        match ps return children_satisfy ps with
        | Some children =>
           (fix all (l : list (option part)) : Forall (λ c, ∀ q, c = Some q → P q) l :=
              match l with
              | [] => List.Forall_nil _
              | c :: l' =>
                  List.Forall_cons _ c l'
                    (match c return ∀ q, c = Some q → P q with
                     | Some c' => λ q E, eq_rect c' P (part_rect' c') q (Some_inj _ _ E)
                     | None => λ q E, match Some_ne_None _ (eq_sym E) with end
                     end)
                    (all l')
              end) children
        | None => I
        end
  end.
End PartInduction.

Section JsonInduction.
Variable P : json → Prop.
Hypothesis Pnull : P JNull.
Hypothesis Pbool : ∀ b, P (JBool b).
Hypothesis Pnum : ∀ n, P (JNum n).
Hypothesis Pstr : ∀ s, P (JStr s).
Hypothesis Parr : ∀ items, Forall P items → P (JArr items).
Hypothesis Pobj : ∀ fields, Forall (λ kv, P kv.2) fields → P (JObj fields).

Fixpoint json_rect' (v : json) : P v :=
  match v with
  | JNull => Pnull
  | JBool b => Pbool b
  | JNum n => Pnum n
  | JStr s => Pstr s
  | JArr items =>
      Parr items
        ((fix all (l : list json) : Forall P l :=
            match l with
            | [] => List.Forall_nil _
            | x :: l' => List.Forall_cons _ x l' (json_rect' x) (all l')
            end) items)
  | JObj fields =>
      Pobj fields
        ((fix all (l : list (jstring * json)) : Forall (λ kv, P kv.2) l :=
            match l with
            | [] => List.Forall_nil _
            | kv :: l' =>
                List.Forall_cons (λ kv, P kv.2) kv l' (json_rect' kv.2) (all l')
            end) fields)
  end.
End JsonInduction.

(** * Theorems *)

Lemma is_char_spec c x : is_char c x = true ↔ x = c.
Proof. unfold is_char. rewrite Ascii.eqb_eq. naive_solver. Qed.

(** ** extractTextBody *)

Lemma find_app {A} (f : A → bool) (l1 l2 : list A) :
  List.find f (l1 ++ l2) =
  match List.find f l1 with Some x => Some x | None => List.find f l2 end.
Proof. induction l1 as [|a l1 IH]; simpl; [done|]. destruct (f a); done. Qed.

Lemma is_plain_text_body p :
  is_plain_text p = true → truthy (Some (JStr (default [] (body p)))) = true.
Proof.
  unfold is_plain_text. intros [_ H]%andb_true_iff.
  destruct (body p); simpl in *; done.
Qed.

Lemma extractTextBody_part_preorder p :
  extractTextBody_part p =
  match List.find is_plain_text (preorder p) with
  | Some q => default [] (body q)
  | None => []
  end.
Proof.
  induction p as [ct b ps IH] using part_rect'.
  simpl. destruct (is_plain_text (Part ct b ps)) eqn:E; [done|].
  destruct ps as [children|]; simpl in *; [|done].
  induction children as [|c l IHl]; [done|].
  apply Forall_cons in IH as [Hc Hl].
  rewrite find_app. destruct c as [c|]; simpl.
  - rewrite (Hc c eq_refl).
    destruct (List.find is_plain_text (preorder c)) as [q|] eqn:F.
    + apply List.find_some in F as [_ F].
      pose proof (is_plain_text_body q F) as T. simpl in T. by rewrite T.
    + simpl. by apply IHl.
  - by apply IHl.
Qed.



(** ** normalizeCalDate against its reference definition *)

Lemma replaceAll_from_class p prev s :
  replaceAll_from (RChar p) prev s O = filter (λ c, ¬ p c) s.
Proof.
  revert prev. induction s as [|c s IH]; intros prev; [done|].
  cbn [replaceAll_from]. unfold match_here. cbn [rmatch].
  rewrite filter_cons. destruct (p c) eqn:E.
  - replace (length (c :: s) - length s)%nat with 1%nat by (simpl; lia).
    cbn [replaceAll_from]. rewrite IH. case_decide; naive_solver.
  - rewrite IH. case_decide; naive_solver.
Qed.

Lemma replaceAll_class p s : replaceAll (RChar p) s = filter (λ c, ¬ p c) s.
Proof. apply replaceAll_from_class. Qed.

Lemma replace_from_strip_last r shape n prev s :
  end_anchored r shape →
  (∀ x, shape x = true → length x = n) →
  replace_from r prev s = strip_last n shape s.
Proof.
  intros Hr Hn. revert prev. induction s as [|c s IH]; intros prev.
  - cbn [replace_from]. rewrite Hr. unfold strip_last.
    destruct (shape []) eqn:E; simpl; [by destruct (_ && _)|].
    rewrite E. by rewrite andb_false_r.
  - cbn [replace_from]. rewrite Hr. unfold strip_last.
    destruct (shape (c :: s)) eqn:E.
    + rewrite drop_all. pose proof (Hn _ E) as L. rewrite <- L.
      rewrite Nat.sub_diag, Nat.leb_refl. cbn [drop]. by rewrite E.
    + rewrite IH. unfold strip_last. cbn [length].
      destruct (decide (n ≤ length s)%nat) as [Hle|Hgt].
      * replace (S (length s) - n)%nat with (S (length s - n)) by lia.
        cbn [drop take].
        rewrite (proj2 (Nat.leb_le n (length s)) Hle).
        rewrite (proj2 (Nat.leb_le n (S (length s)))) by lia.
        simpl. by destruct (shape (drop _ s)).
      * rewrite (proj2 (Nat.leb_gt n (length s))) by lia. simpl.
        destruct (decide (n = S (length s))) as [->|Hne].
        -- rewrite Nat.sub_diag. cbn [drop]. rewrite E. by rewrite andb_false_r.
        -- by rewrite (proj2 (Nat.leb_gt n (S (length s)))) by lia.
Qed.

Lemma end_anchored_zulu : end_anchored re_zulu (zulu_shape (is_char_ci "Z")).
Proof.
  intros prev x. unfold match_here, re_zulu. cbn [rmatch].
  destruct x as [|c [|c' x]]; cbn [zulu_shape]; [done| |].
  - destruct (is_char_ci "Z" c); [|done]. by rewrite Nat.sub_0_r.
  - by destruct (is_char_ci "Z" c).
Qed.

Lemma zulu_shape_length zulu x : zulu_shape zulu x = true → length x = 1%nat.
Proof. by destruct x as [|c [|c' x]]. Qed.

Lemma end_anchored_tz_offset : end_anchored re_tz_offset offset_shape.
Proof.
  intros prev x. unfold match_here, re_tz_offset, offset_shape, all_digits.
  cbn [rmatch].
  destruct x as [|sg x]; [done|]. destruct (re_sign sg); [|done].
  destruct x as [|d1 x]; [done|]. cbn [forallb length].
  destruct (is_digit d1); [|by rewrite andb_false_r].
  destruct x as [|d2 x]; [done|]. cbn [forallb length].
  destruct (is_digit d2); [|by rewrite andb_false_r].
  destruct x as [|d3 x]; [done|]. cbn [forallb length].
  destruct (is_digit d3); [|by rewrite andb_false_r].
  destruct x as [|d4 x]; [done|]. cbn [forallb length].
  destruct (is_digit d4); [|by rewrite andb_false_r].
  destruct x as [|d5 x]; [by rewrite Nat.sub_0_r|done].
Qed.

Lemma offset_shape_length x : offset_shape x = true → length x = 5%nat.
Proof.
  unfold offset_shape. destruct x as [|sg ds]; [done|].
  intros [[_ H]%andb_true_iff _]%andb_true_iff.
  apply Nat.eqb_eq in H. simpl. lia.
Qed.

Lemma star_match_to_end p k N :
  (∀ prev, k prev [] = Some N) →
  (∀ prev c rest, k prev (c :: rest) = None) →
  ∀ s prev, star_match p prev s k = if forallb p s then Some N else None.
Proof.
  intros Hnil Hcons. induction s as [|c s IH]; intros prev; cbn [star_match forallb].
  - apply Hnil.
  - destruct (p c); cbn [andb]; [|apply Hcons].
    rewrite IH. destruct (forallb p s); [done|apply Hcons].
Qed.

Lemma end_anchored_fraction : end_anchored re_fraction fraction_shape.
Proof.
  intros prev x. unfold match_here, re_fraction, fraction_shape, all_digits.
  cbn [rmatch].
  destruct x as [|c x]; [done|]. destruct (is_char "." c); [|done].
  destruct x as [|d x]; [done|]. cbn [forallb andb negb].
  rewrite bool_decide_eq_false_2 by done. cbn [negb andb].
  destruct (is_digit d); [|done]. cbn [andb].
  apply star_match_to_end.
  - intros. cbn [rmatch]. by f_equal.
  - done.
Qed.

Lemma trailing_run_le p s : (trailing_run p s ≤ length s)%nat.
Proof.
  induction s as [|c s IH]; simpl; [lia|].
  destruct (_ && _); lia.
Qed.

Lemma trailing_run_all p s :
  trailing_run p s = length s ↔ forallb p s = true.
Proof.
  induction s as [|c s IH]; simpl; [done|].
  pose proof (trailing_run_le p s).
  destruct (Nat.eqb_spec (trailing_run p s) (length s)) as [E|E]; simpl.
  - destruct (p c); simpl.
    + rewrite <- IH. split; [done|lia].
    + split; [lia|done].
  - rewrite andb_true_iff, <- IH. split; [lia|tauto].
Qed.

Lemma replace_from_fraction prev s :
  replace_from re_fraction prev s = strip_trailing_fraction s.
Proof.
  revert prev. induction s as [|c s IH]; intros prev.
  - done.
  - cbn [replace_from]. rewrite end_anchored_fraction.
    unfold strip_trailing_fraction. cbn [trailing_run length].
    pose proof (trailing_run_le is_digit s) as Hle.
    pose proof (trailing_run_all is_digit s) as Hall.
    destruct (fraction_shape (c :: s)) eqn:E.
    + cbn [drop]. rewrite drop_all. cbn [fraction_shape] in E.
      apply andb_true_iff in E as [[Ec Es]%andb_true_iff Ed].
      apply is_char_spec in Ec as ->. apply Hall in Ed. rewrite Ed, Nat.eqb_refl.
      change (is_digit ".") with false. cbn [andb].
      destruct s as [|d s]; [done|]. cbn [length] in *.
      replace (S (S (length s)) - S (length s) - 1)%nat with 0%nat by lia.
      rewrite bool_decide_eq_true_2 by done.
      rewrite (proj2 (Nat.ltb_lt _ _)) by lia. done.
    + rewrite IH. unfold strip_trailing_fraction.
      destruct (Nat.eqb_spec (trailing_run is_digit s) (length s)) as [Ek|Ek].
      * cbn [andb]. rewrite Ek. rewrite (Nat.ltb_irrefl (length s)), andb_false_r.
        cbn [andb]. destruct (is_digit c) eqn:Dc.
        -- by rewrite Nat.ltb_irrefl, andb_false_r.
        -- replace (S (length s) - length s - 1)%nat with 0%nat by lia.
           cbn [lookup list_lookup].
           cbn [fraction_shape] in E. unfold all_digits in E.
           rewrite (proj1 Hall Ek), andb_true_r in E.
           destruct (1 <=? length s)%nat eqn:L1; [|done].
           apply Nat.leb_le in L1.
           rewrite (proj2 (Nat.ltb_lt _ _)) by lia. cbn [andb].
           destruct (decide (c = "."%char)) as [->|Hne].
           ++ exfalso. destruct s; [simpl in L1; lia|].
              by rewrite bool_decide_eq_false_2 in E.
           ++ rewrite bool_decide_eq_false_2; [done|congruence].
      * cbn [andb].
        assert (trailing_run is_digit s < length s)%nat as Hlt by lia.
        replace (S (length s) - trailing_run is_digit s - 1)%nat
          with (S (length s - trailing_run is_digit s - 1)) by lia.
        cbn [lookup list_lookup take].
        rewrite (proj2 (Nat.ltb_lt _ (length s))) by lia.
        rewrite (proj2 (Nat.ltb_lt _ (S (length s)))) by lia.
        by destruct (_ && _ && _).
Qed.

Lemma is_char_iff c x : is_char c x ↔ x = c.
Proof. rewrite Is_true_true. apply is_char_spec. Qed.

Lemma remove_dashes_colons s :
  replaceAll re_colon (replaceAll re_dash s)
  = filter no_separator s.
Proof.
  unfold re_colon, re_dash. rewrite !replaceAll_class.
  induction s as [|c s IH]; [done|].
  rewrite !filter_cons.
  destruct (decide (c = "-"%char)) as [->|Hd].
  - rewrite decide_False by (rewrite is_char_iff; tauto).
    rewrite decide_False by tauto. done.
  - rewrite decide_True by (rewrite is_char_iff; tauto).
    rewrite filter_cons.
    destruct (decide (c = ":"%char)) as [->|Hc].
    + rewrite decide_False by (rewrite is_char_iff; tauto).
      rewrite decide_False by tauto. done.
    + rewrite decide_True by (rewrite is_char_iff; tauto).
      rewrite decide_True by tauto. by rewrite IH.
Qed.

Lemma indexOf_None c s : indexOf c s = None ↔ c ∉ s.
Proof.
  induction s as [|x s IH]; simpl.
  - split; [intros _; apply not_elem_of_nil | done].
  - rewrite not_elem_of_cons. destruct (Ascii.eqb_spec x c) as [->|Hne].
    + split; [done | tauto].
    + destruct (indexOf c s); simpl in *; split; try done.
      * intros [_ H]. by apply IH in H.
      * intros _. split; [congruence | by apply IH].
Qed.

Lemma indexOf_Some c s i :
  indexOf c s = Some i →
  take i s = take_until (is_char c) s ∧ s !! i = Some c ∧ c ∉ take i s.
Proof.
  revert i. induction s as [|x s IH]; intros i; simpl; [done|].
  unfold is_char at 1. rewrite (Ascii.eqb_sym c x).
  destruct (Ascii.eqb_spec x c) as [->|Hne].
  - intros [= <-]. split_and!; [reflexivity..|]. cbn [take]. apply not_elem_of_nil.
  - destruct (indexOf c s) as [j|]; simpl; [|done].
    intros [= <-]. destruct (IH j eq_refl) as (H1 & H2 & H3).
    cbn [take]. rewrite H1. split_and!; [reflexivity|exact H2|].
    rewrite <- H1. rewrite not_elem_of_cons. split; [congruence|done].
Qed.

Lemma length_take_until_indexOf c s i :
  indexOf c s = Some i → length (take_until (is_char c) s) = i.
Proof.
  intros H. pose proof (indexOf_Some _ _ _ H) as (H1 & H2 & _).
  rewrite <- H1. rewrite length_take. apply lookup_lt_Some in H2. lia.
Qed.

Lemma normalizeCalDate_string_reference s :
  normalizeCalDate_string s = normalizeCalDate_reference s.
Proof.
  unfold normalizeCalDate_string, normalizeCalDate_reference, strip_zone_and_fraction.
  rewrite remove_dashes_colons.
  unfold replace.
  rewrite (replace_from_strip_last re_zulu (zulu_shape (is_char_ci "Z")) 1)
    by (apply end_anchored_zulu || apply zulu_shape_length).
  rewrite (replace_from_strip_last re_tz_offset offset_shape 5)
    by (apply end_anchored_tz_offset || apply offset_shape_length).
  rewrite replace_from_fraction.
  fold (strip_trailing_zulu (is_char_ci "Z")). fold strip_trailing_offset.
  set (s' := strip_trailing_fraction _).
  destruct (indexOf "T" s') as [tIdx|] eqn:E.
  - pose proof (indexOf_Some _ _ _ E) as (H1 & H2 & _).
    rewrite bool_decide_eq_true_2 by (eapply list_elem_of_lookup_2; eauto).
    unfold slice, after_T, padEnd, pad_time.
    unfold before_T. rewrite (length_take_until_indexOf _ _ _ E), <- H1.
    rewrite !Nat.sub_0_r. cbn [drop].
    by replace (tIdx + 1)%nat with (S tIdx) by lia.
  - rewrite bool_decide_eq_false_2 by (by apply indexOf_None).
    done.
Qed.

(** C2 (as amended). [normalizeCalDate] returns [undefined], [null] and the
    empty string as they are, and on every other string it equals the
    reference definition: all dashes and colons removed, then a trailing [Z]
    or [z], then a trailing signed 4-digit offset, then a trailing fraction;
    with no [T] left, the first 8 characters and [T000000]; otherwise at most
    8 characters of what precedes the first [T], then [T], then at most 6
    characters of what follows it, padded with zeros to 6 (so [13] becomes
    [130000] and [1330] becomes [133000]). *)
Theorem normalizeCalDate_equals_reference :
  normalizeCalDate None = OK None
  ∧ normalizeCalDate (Some JNull) = OK (Some JNull)
  ∧ normalizeCalDate (Some (JStr [])) = OK (Some (JStr []))
  ∧ (∀ c s, normalizeCalDate (Some (JStr (c :: s)))
            = OK (Some (JStr (normalizeCalDate_reference (c :: s)))))
  ∧ pad_time §"13" = §"130000"
  ∧ pad_time §"1330" = §"133000".
Proof.
  split_and!; try reflexivity.
  intros c s. unfold normalizeCalDate. cbn [truthy negb].
  rewrite bool_decide_eq_false_2 by done. cbn [negb].
  by rewrite normalizeCalDate_string_reference.
Qed.

(** C2 as stated fails: the code also removes a trailing lower-case [z], and
    it takes the date out of what precedes the [T], which can be shorter than
    8 characters. *)
Lemma normalizeCalDate_words_counterexample :
  normalizeCalDate (Some (JStr §"2026-02-25T14z"))
    ≠ OK (Some (JStr (normalizeCalDate_words §"2026-02-25T14z")))
  ∧ normalizeCalDate (Some (JStr §"2026T13"))
    ≠ OK (Some (JStr (normalizeCalDate_words §"2026T13"))).
Proof. split; vm_compute; discriminate. Qed.

Example normalizeCalDate_lower_z :
  normalizeCalDate (Some (JStr §"2026-02-25T14z")) = OK (Some (JStr §"20260225T140000"))
  ∧ normalizeCalDate_words §"2026-02-25T14z" = §"20260225T14z000".
Proof. split; reflexivity. Qed.

Example normalizeCalDate_short_date :
  normalizeCalDate (Some (JStr §"2026T13")) = OK (Some (JStr §"2026T130000"))
  ∧ normalizeCalDate_words §"2026T13" = §"2026T13T130000".
Proof. split; reflexivity. Qed.

(** ** Supported shapes become canonical *)

Ltac ascii_cases c :=
  destruct c as [[] [] [] [] [] [] [] []]; try done; try (vm_compute; congruence).

Lemma digit_not_zulu c : is_digit c = true → is_char_ci "Z" c = false.
Proof. ascii_cases c. Qed.
Lemma digit_not_sign c : is_digit c = true → re_sign c = false.
Proof. ascii_cases c. Qed.
Lemma digit_not_T c : is_digit c = true → is_char "T" c = false.
Proof. ascii_cases c. Qed.
Lemma digit_not_dot c : is_digit c = true → c ≠ "."%char.
Proof. ascii_cases c. Qed.
Lemma digit_not_dash_colon c : is_digit c = true → c ≠ "-"%char ∧ c ≠ ":"%char.
Proof. ascii_cases c. Qed.

Lemma take_while_drop_while p s : take_while p s ++ drop_while p s = s.
Proof. induction s as [|c s IH]; simpl; [done|]. destruct (p c); simpl; congruence. Qed.

Lemma forallb_take_while p s : forallb p (take_while p s) = true.
Proof. induction s as [|c s IH]; simpl; [done|]. destruct (p c) eqn:E; simpl; [by rewrite E|done]. Qed.

Lemma strip_last_hit n shape a x :
  length x = n → shape x = true → strip_last n shape (a ++ x) = a.
Proof.
  intros L S. unfold strip_last. rewrite length_app, L.
  replace (length a + n - n)%nat with (length a) by lia.
  rewrite drop_app_length, take_app_length, S.
  by rewrite (proj2 (Nat.leb_le _ _)) by lia.
Qed.

Lemma strip_last_miss n shape s :
  shape (drop (length s - n) s) = false → strip_last n shape s = s.
Proof. intros H. unfold strip_last. by rewrite H, andb_false_r. Qed.

Lemma plain_not_zulu c : plain c = true → is_char_ci "Z" c = false.
Proof. ascii_cases c. Qed.
Lemma plain_not_sign c : plain c = true → re_sign c = false.
Proof. ascii_cases c. Qed.

Lemma drop_last_char (s : jstring) c :
  last s = Some c → drop (length s - 1) s = [c].
Proof.
  intros H. apply last_Some in H as [s' ->].
  rewrite length_app. simpl. replace (length s' + 1 - 1)%nat with (length s') by lia.
  by rewrite drop_app_length.
Qed.

Lemma strip_trailing_zulu_miss zulu s :
  (∀ c, last s = Some c → zulu c = false) → strip_trailing_zulu zulu s = s.
Proof.
  intros H. apply strip_last_miss.
  destruct (last s) as [c|] eqn:E.
  - rewrite (drop_last_char _ _ E). simpl. by apply H.
  - apply last_None in E as ->. done.
Qed.

Lemma strip_trailing_offset_miss s :
  forallb (λ c, negb (re_sign c)) s = true → strip_trailing_offset s = s.
Proof.
  intros H. apply strip_last_miss.
  destruct (drop (length s - 5) s) as [|sg ds] eqn:E; [done|].
  assert (sg ∈ s) as Hin.
  { eapply (subseteq_drop (length s - 5)). rewrite E. left. }
  rewrite forallb_forall in H. apply list_elem_of_In, H in Hin.
  unfold offset_shape. by destruct (re_sign sg).
Qed.

Lemma trailing_run_stop p a c b :
  p c = false → forallb p b = true →
  trailing_run p (a ++ c :: b) = length b.
Proof.
  intros Hc Hb. apply trailing_run_all in Hb.
  induction a as [|x a IH]; cbn [app trailing_run].
  - by rewrite Hb, Nat.eqb_refl, Hc.
  - rewrite IH. rewrite length_app. cbn [length].
    by rewrite (proj2 (Nat.eqb_neq _ _)) by lia.
Qed.

Lemma strip_trailing_fraction_hit a F :
  F ≠ [] → all_digits F = true →
  strip_trailing_fraction (a ++ "."%char :: F) = a.
Proof.
  intros Hne HF. unfold strip_trailing_fraction.
  rewrite trailing_run_stop by done.
  rewrite length_app. cbn [length].
  replace (length a + S (length F) - length F - 1)%nat with (length a) by lia.
  rewrite list_lookup_middle by done.
  rewrite bool_decide_eq_true_2 by done.
  destruct F; [done|]. cbn [length].
  rewrite (proj2 (Nat.ltb_lt _ _)) by lia. simpl.
  by rewrite take_app_length.
Qed.

Lemma strip_trailing_fraction_miss s :
  "."%char ∉ s → strip_trailing_fraction s = s.
Proof.
  intros H. unfold strip_trailing_fraction.
  case_bool_decide as E; [|by rewrite andb_false_r].
  exfalso. apply H. eapply list_elem_of_lookup_2, E.
Qed.

Lemma strip_zone y z :
  forallb plain y = true → zone_shape z = true →
  strip_trailing_offset (strip_trailing_zulu (is_char_ci "Z") (y ++ z)) = y.
Proof.
  intros Hy Hz.
  assert (Hsign : forallb (λ c, negb (re_sign c)) y = true).
  { rewrite forallb_forall in *. intros c Hc. by rewrite plain_not_sign by auto. }
  assert (Hlast : ∀ c, last y = Some c → is_char_ci "Z" c = false).
  { intros c Hc. apply plain_not_zulu. rewrite forallb_forall in Hy.
    apply Hy, list_elem_of_In. apply last_Some in Hc as [y' ->].
    apply elem_of_app. right. left. }
  destruct z as [|c [|d1 ds]].
  - rewrite app_nil_r, strip_trailing_zulu_miss by done.
    by apply strip_trailing_offset_miss.
  - cbn [zone_shape] in Hz. unfold strip_trailing_zulu.
    rewrite strip_last_hit by done. by apply strip_trailing_offset_miss.
  - cbn [zone_shape] in Hz.
    apply andb_true_iff in Hz as [[Hc Hl]%andb_true_iff Hd].
    rewrite strip_trailing_zulu_miss.
    + unfold strip_trailing_offset. apply strip_last_hit.
      * apply Nat.eqb_eq in Hl. simpl in *. lia.
      * unfold offset_shape. rewrite Hl, Hd. unfold re_sign. by rewrite Hc.
    + intros c' Hc'. apply digit_not_zulu.
      unfold all_digits in Hd. rewrite forallb_forall in Hd.
      apply Hd, list_elem_of_In.
      rewrite last_app_cons in Hc'.
      change (c :: d1 :: ds) with ([c] ++ d1 :: ds) in Hc'.
      rewrite last_app_cons in Hc'.
      apply last_Some in Hc' as [l' ->].
      apply elem_of_app. right. left.
Qed.

Lemma take_until_app p d c t :
  forallb (λ x, negb (p x)) d = true → p c = true →
  take_until p (d ++ c :: t) = d.
Proof.
  intros Hd Hc. induction d as [|x d IH]; simpl in *.
  - by rewrite Hc.
  - apply andb_true_iff in Hd as [Hx Hd]. destruct (p x); [done|].
    by rewrite IH.
Qed.

Lemma all_digits_no_T d : all_digits d = true → forallb (λ x, negb (is_char "T" x)) d = true.
Proof.
  unfold all_digits. rewrite !forallb_forall. intros H c Hc.
  by rewrite digit_not_T by auto.
Qed.

Lemma all_digits_plain d : all_digits d = true → forallb plain d = true.
Proof.
  unfold all_digits. rewrite !forallb_forall. intros H c Hc.
  unfold plain. by rewrite H by auto.
Qed.

Lemma all_digits_no_dot d : all_digits d = true → "."%char ∉ d.
Proof.
  unfold all_digits. rewrite forallb_forall. intros H Hin.
  apply list_elem_of_In, H in Hin. by apply digit_not_dot in Hin.
Qed.

Lemma all_digits_not_elem_T d : all_digits d = true → "T"%char ∉ d.
Proof.
  unfold all_digits. rewrite forallb_forall. intros H Hin.
  apply list_elem_of_In, H in Hin. by apply digit_not_T in Hin.
Qed.

(** The result on a string that, zone and fraction removed, reads: eight
    digits, [T], digits. *)
Lemma assemble_date_time d t :
  length d = 8%nat → all_digits d = true →
  (if bool_decide ("T"%char ∈ d ++ "T"%char :: t)
   then take 8 (before_T (d ++ "T"%char :: t)) ++ §"T"
        ++ pad_time (take 6 (after_T (d ++ "T"%char :: t)))
   else take 8 (d ++ "T"%char :: t) ++ §"T000000")
  = d ++ "T"%char :: pad_time (take 6 t).
Proof.
  intros L D.
  rewrite bool_decide_eq_true_2 by (apply elem_of_app; right; left).
  unfold after_T, before_T.
  rewrite !take_until_app by (by apply all_digits_no_T || done).
  rewrite <- L at 1. rewrite firstn_all.
  replace (S (length d)) with (length d + 1)%nat by lia.
  rewrite <- drop_drop, drop_app_length. done.
Qed.

Lemma all_digits_app a b : all_digits (a ++ b) = all_digits a && all_digits b.
Proof. apply forallb_app. Qed.

Lemma all_digits_take n s : all_digits s = true → all_digits (take n s) = true.
Proof.
  unfold all_digits. rewrite !forallb_forall. intros H c Hc.
  apply H. apply list_elem_of_In. apply list_elem_of_In in Hc.
  by eapply subseteq_take.
Qed.

Lemma all_digits_pad_time t : all_digits t = true → all_digits (pad_time t) = true.
Proof.
  intros H. unfold pad_time. rewrite all_digits_app, H. simpl.
  unfold all_digits. apply forallb_forall. intros c Hc.
  apply list_elem_of_In, elem_of_replicate in Hc as [-> _]. done.
Qed.

Lemma length_pad_time t : (length t ≤ 6)%nat → length (pad_time t) = 6%nat.
Proof. intros H. unfold pad_time. rewrite length_app, length_replicate. lia. Qed.

Lemma canonical_build d t :
  length d = 8%nat → all_digits d = true → all_digits t = true →
  canonical (d ++ "T"%char :: pad_time (take 6 t)) = true.
Proof.
  intros L D T.
  assert (length (pad_time (take 6 t)) = 6%nat) as Lp
    by (apply length_pad_time; rewrite length_take; lia).
  pose proof (all_digits_pad_time _ (all_digits_take 6 _ T)) as Dp.
  unfold canonical. rewrite length_app. cbn [length]. rewrite L, Lp.
  rewrite take_app_length' by done. rewrite D.
  rewrite list_lookup_middle by done. rewrite bool_decide_eq_true_2 by done.
  replace (drop 9 (d ++ "T"%char :: pad_time (take 6 t))) with (pad_time (take 6 t)).
  - by rewrite Dp.
  - rewrite (cons_middle _ d), app_assoc.
    by rewrite drop_app_length' by (rewrite length_app, L; done).
Qed.

Lemma normalizeCalDate_reference_supported s :
  supported s = true →
  ∃ d t, length d = 8%nat ∧ all_digits d = true ∧ all_digits t = true
         ∧ normalizeCalDate_reference s = d ++ "T"%char :: pad_time (take 6 t).
Proof.
  unfold supported, normalizeCalDate_reference, strip_zone_and_fraction.
  remember (filter _ s) as x eqn:Ex. clear Ex s.
  intros [[L D]%andb_true_iff R]%andb_true_iff.
  apply Nat.leb_le in L.
  pose proof (take_drop 8 x) as Hx.
  assert (length (take 8 x) = 8%nat) as Ld by (rewrite length_take; lia).
  remember (take 8 x) as d eqn:Ed. clear Ed L.
  destruct (drop 8 x) as [|c r] eqn:Er; clear Er; subst x.
  - exists d, []. split_and!; [done..|].
    rewrite strip_zone by (by apply all_digits_plain || done).
    rewrite strip_trailing_fraction_miss by (by apply all_digits_no_dot).
    rewrite bool_decide_eq_false_2 by (by apply all_digits_not_elem_T).
    rewrite <- Ld at 1. by rewrite firstn_all.
  - apply andb_true_iff in R as [Hc R]. apply is_char_spec in Hc as ->.
    pose proof (take_while_drop_while is_digit r) as Hr.
    pose proof (forallb_take_while is_digit r) as Ht.
    remember (take_while is_digit r) as t eqn:Et. clear Et.
    exists d, t. split_and!; [done..|].
    rewrite <- assemble_date_time by done.
    assert (forallb plain (d ++ "T"%char :: t) = true) as Hp.
    { rewrite forallb_app. rewrite all_digits_plain by done. simpl.
      by apply all_digits_plain. }
    assert ("."%char ∉ d ++ "T"%char :: t) as Hdot.
    { rewrite not_elem_of_app, not_elem_of_cons.
      split_and!; [by apply all_digits_no_dot|done|by apply all_digits_no_dot]. }
    destruct (drop_while is_digit r) as [|c2 r'] eqn:E2; clear E2; subst r.
    + rewrite app_nil_r.
      pose proof (strip_zone (d ++ "T"%char :: t) [] Hp eq_refl) as E.
      rewrite app_nil_r in E. rewrite E.
      by rewrite strip_trailing_fraction_miss by done.
    + cbn [fraction_zone_shape] in R.
      destruct (is_char "." c2) eqn:Ec.
      * apply is_char_spec in Ec as ->.
        apply andb_true_iff in R as [HF Hz].
        apply negb_true_iff, bool_decide_eq_false in HF.
        pose proof (take_while_drop_while is_digit r') as Hr'.
        pose proof (forallb_take_while is_digit r') as HFd.
        remember (take_while is_digit r') as F eqn:EF. clear EF.
        remember (drop_while is_digit r') as z eqn:Ez. clear Ez. subst r'.
        replace (d ++ "T"%char :: t ++ "."%char :: F ++ z)
          with (((d ++ "T"%char :: t) ++ "."%char :: F) ++ z)
          by (by rewrite <- !app_assoc).
        rewrite strip_zone; [|rewrite forallb_app, Hp; simpl; by apply all_digits_plain|done].
        by rewrite strip_trailing_fraction_hit by done.
      * replace (d ++ "T"%char :: t ++ c2 :: r')
          with ((d ++ "T"%char :: t) ++ c2 :: r')
          by (by rewrite <- !app_assoc).
        rewrite strip_zone by done.
        by rewrite strip_trailing_fraction_miss by done.
Qed.

Lemma canonical_decompose c :
  canonical c = true →
  ∃ d t, c = d ++ "T"%char :: t ∧ length d = 8%nat ∧ all_digits d = true
         ∧ length t = 6%nat ∧ all_digits t = true.
Proof.
  unfold canonical.
  intros [[[L D]%andb_true_iff T]%andb_true_iff R]%andb_true_iff.
  apply Nat.eqb_eq in L. apply bool_decide_eq_true in T.
  exists (take 8 c), (drop 9 c). split_and!; [|rewrite length_take; lia|done|rewrite length_drop; lia|done].
  rewrite <- (drop_S _ _ _ T). by rewrite take_drop.
Qed.

Lemma filter_all_digits d :
  all_digits d = true → filter no_separator d = d.
Proof.
  unfold all_digits. induction d as [|c d IH]; [done|]. simpl.
  intros [Hc Hd]%andb_true_iff. rewrite filter_cons.
  rewrite decide_True by (by apply digit_not_dash_colon). by rewrite IH.
Qed.

Lemma canonical_supported c : canonical c = true → supported c = true.
Proof.
  intros (d & t & -> & Ld & Dd & Lt & Dt)%canonical_decompose.
  unfold supported. rewrite filter_app, filter_cons, decide_True by done.
  rewrite !filter_all_digits by done.
  rewrite length_app. cbn [length]. rewrite Ld, Lt. simpl (8 <=? _)%nat.
  rewrite take_app_length' by done. rewrite Dd.
  rewrite drop_app_length' by done. cbn [andb is_char].
  replace (drop_while is_digit t) with (@nil ascii); [done|].
  clear -Dt. unfold all_digits in Dt. induction t as [|c t IH]; [done|].
  simpl in *. apply andb_true_iff in Dt as [-> Dt]. auto.
Qed.

Lemma canonical_fixed c :
  canonical c = true → normalizeCalDate_string c = c.
Proof.
  intros Hc. pose proof (canonical_decompose _ Hc) as (d & t & -> & Ld & Dd & Lt & Dt).
  rewrite normalizeCalDate_string_reference.
  unfold normalizeCalDate_reference, strip_zone_and_fraction.
  rewrite filter_app, filter_cons, decide_True by done.
  rewrite !filter_all_digits by done.
  assert (forallb plain (d ++ "T"%char :: t) = true) as Hp.
  { rewrite forallb_app. rewrite all_digits_plain by done. simpl.
    by apply all_digits_plain. }
  pose proof (strip_zone (d ++ "T"%char :: t) [] Hp eq_refl) as E.
  rewrite app_nil_r in E. rewrite E.
  rewrite strip_trailing_fraction_miss.
  - rewrite assemble_date_time by done. f_equal. f_equal.
    rewrite <- Lt at 1. rewrite firstn_all. unfold pad_time.
    rewrite Lt. simpl. by rewrite app_nil_r.
  - rewrite not_elem_of_app, not_elem_of_cons.
    split_and!; [by apply all_digits_no_dot|done|by apply all_digits_no_dot].
Qed.

Lemma supported_canonical s :
  supported s = true → canonical (normalizeCalDate_string s) = true.
Proof.
  intros (d & t & L & D & T & E)%normalizeCalDate_reference_supported.
  rewrite normalizeCalDate_string_reference, E. by apply canonical_build.
Qed.

Lemma supported_nonempty s : supported s = true → s ≠ [].
Proof. by intros H ->. Qed.

Lemma canonical_nonempty s : canonical s = true → s ≠ [].
Proof. by intros H ->. Qed.

Lemma normalizeCalDate_nonempty s :
  s ≠ [] → normalizeCalDate (Some (JStr s)) = OK (Some (JStr (normalizeCalDate_string s))).
Proof.
  intros H. unfold normalizeCalDate. cbn [truthy].
  by rewrite bool_decide_eq_false_2 by done.
Qed.

Lemma drop_while_app_all p (a b : jstring) :
  forallb p a = true → drop_while p (a ++ b) = drop_while p b.
Proof.
  induction a as [|c a IH]; [done|]. cbn [forallb app drop_while].
  intros [-> H]%andb_true_iff. auto.
Qed.

Lemma take_while_app_all p (a b : jstring) :
  forallb p a = true → take_while p (a ++ b) = a ++ take_while p b.
Proof.
  induction a as [|c a IH]; [done|]. cbn [forallb app take_while].
  intros [-> H]%andb_true_iff. by rewrite IH.
Qed.

Lemma filter_join_digits (colons : bool) fields :
  forallb all_digits fields = true →
  filter no_separator (join (if colons then §":" else []) fields) = concat fields
  ∧ all_digits (concat fields) = true.
Proof.
  induction fields as [|x l IH]; [done|]. cbn [forallb].
  intros [Hx Hl]%andb_true_iff. destruct (IH Hl) as [E D].
  cbn [concat]. rewrite all_digits_app, Hx, D. split; [|done].
  cbn [join]. destruct l as [|y l].
  - rewrite app_nil_r. by apply filter_all_digits.
  - rewrite !filter_app, E, filter_all_digits by done.
    by destruct colons.
Qed.

Lemma filter_render_zone z :
  well_formed_zone z = true →
  ∃ z', filter no_separator (render_zone z) = z'
        ∧ (zone_shape z' = true ∧ (∀ c r, z' = c :: r → is_digit c = false)
           ∨ all_digits z' = true).
Proof.
  destruct z as [| |negative colon hh mm]; cbn [well_formed_zone render_zone].
  - intros _. exists []. split; [done|]. by left.
  - intros _. exists §"Z". split; [reflexivity|]. left. split; [reflexivity|].
    by intros c r [= <- <-].
  - unfold digits_of_length.
    intros [[Lh Dh]%andb_true_iff [Lm Dm]%andb_true_iff]%andb_true_iff.
    apply Nat.eqb_eq in Lh, Lm.
    assert (filter no_separator (hh ++ (if colon then §":" else []) ++ mm) = hh ++ mm) as E.
    { rewrite !filter_app, (filter_all_digits hh), (filter_all_digits mm) by done.
      by destruct colon. }
    destruct negative.
    + exists (hh ++ mm). rewrite filter_app, E. split; [done|]. right.
      by rewrite all_digits_app, Dh, Dm.
    + exists ("+"%char :: hh ++ mm). rewrite filter_app, E. split; [done|]. left.
      split; [|by intros c r [= <- <-]].
      cbn [zone_shape]. destruct (hh ++ mm) as [|d ds] eqn:Eh.
      * apply (f_equal length) in Eh. rewrite length_app in Eh. simpl in Eh. lia.
      * rewrite <- Eh. rewrite all_digits_app, Dh, Dm, length_app, Lh, Lm. done.
Qed.

Lemma fraction_zone_shape_zone z :
  zone_shape z = true → (∀ c r, z = c :: r → is_digit c = false) →
  drop_while is_digit z = z ∧ take_while is_digit z = [] ∧ fraction_zone_shape z = true.
Proof.
  intros Hz Hd. destruct z as [|c r]; [done|].
  pose proof (Hd c r eq_refl) as Hc. cbn [drop_while take_while fraction_zone_shape].
  rewrite Hc. split_and!; [done..|].
  destruct (is_char "." c) eqn:E; [|done].
  apply is_char_spec in E as ->. by destruct r.
Qed.

Lemma supported_date_only s d :
  filter no_separator s = d → length d = 8%nat → all_digits d = true →
  supported s = true.
Proof.
  intros E L D. unfold supported. rewrite E, L.
  by rewrite take_ge, drop_ge, D by lia.
Qed.

Lemma supported_date_time s d tt r2 :
  filter no_separator s = d ++ "T"%char :: tt ++ r2 →
  length d = 8%nat → all_digits d = true → all_digits tt = true →
  fraction_zone_shape (drop_while is_digit r2) = true →
  supported s = true.
Proof.
  intros E L D T R. unfold supported. rewrite E.
  rewrite take_app_length', drop_app_length' by done. rewrite D.
  rewrite length_app, L. cbn [Nat.leb andb is_char].
  change (Ascii.eqb "T" "T") with true.
  by rewrite drop_while_app_all, R by done.
Qed.

(** Every shape of the list is a supported one. *)
Lemma render_shape_supported dashed Y M D t :
  well_formed_shape Y M D t = true → supported (render_shape dashed Y M D t) = true.
Proof.
  unfold well_formed_shape, digits_of_length.
  intros [[[[LY DY]%andb_true_iff [LM DM]%andb_true_iff]%andb_true_iff
           [LD DD]%andb_true_iff]%andb_true_iff Ht]%andb_true_iff.
  apply Nat.eqb_eq in LY, LM, LD.
  assert (filter no_separator (render_date dashed Y M D) = Y ++ M ++ D) as Ed.
  { unfold render_date.
    destruct dashed;
      rewrite !filter_app, (filter_all_digits Y), (filter_all_digits M),
        (filter_all_digits D) by done; done. }
  assert (length (Y ++ M ++ D) = 8%nat) as L8 by (rewrite !length_app; lia).
  assert (all_digits (Y ++ M ++ D) = true) as D8
    by (by rewrite !all_digits_app, DY, DM, DD).
  unfold render_shape. destruct t as [t|].
  2:{ apply (supported_date_only _ (Y ++ M ++ D)); [|done..].
      by rewrite app_nil_r. }
  unfold well_formed_time in Ht.
  apply andb_true_iff in Ht as [[Hf HF]%andb_true_iff Hz].
  destruct (filter_join_digits (time_colons t) (time_fields t) Hf) as [Et Dt].
  destruct (filter_render_zone _ Hz) as (z' & Ez & Hz').
  assert (∃ r2, filter no_separator
                  (match time_fraction t with Some F => §"." ++ F | None => [] end
                   ++ render_zone (time_zone t)) = r2
                ∧ fraction_zone_shape (drop_while is_digit r2) = true)
    as (r2 & Er & Hr).
  { rewrite filter_app, Ez. destruct (time_fraction t) as [F|].
    - apply andb_true_iff in HF as [HFn HFd].
      apply negb_true_iff, bool_decide_eq_false in HFn.
      exists ("."%char :: F ++ z'). split.
      + rewrite filter_app, (filter_all_digits F) by done. done.
      + cbn [drop_while]. change (is_digit ".") with false. cbn iota.
        cbn [fraction_zone_shape]. change (is_char "." ".") with true. cbn iota.
        rewrite take_while_app_all, drop_while_app_all by done.
        rewrite bool_decide_eq_false_2 by (by destruct F). cbn [negb andb].
        destruct Hz' as [[Hs Hd]|Hall].
        * by destruct (fraction_zone_shape_zone z' Hs Hd) as (-> & _ & _).
        * by rewrite <- (app_nil_r z'), drop_while_app_all by done.
    - exists z'. split; [done|].
      destruct Hz' as [[Hs Hd]|Hall].
      + by destruct (fraction_zone_shape_zone z' Hs Hd) as (-> & _ & ->).
      + by rewrite <- (app_nil_r z'), drop_while_app_all by done. }
  apply (supported_date_time _ (Y ++ M ++ D) (concat (time_fields t)) r2); [|done..].
  unfold render_time. rewrite !filter_app, Ed, Et.
  rewrite <- filter_app, Er. done.
Qed.

(** C8. On every date-string shape of §4.1 (compact, ISO with dashes and
    colons, with a trailing [Z], with a [±HHMM] offset, with fractional
    seconds, with the time cut to hours or to hours and minutes, date only),
    and on every supported string at large, [normalizeCalDate] yields a
    canonical timestamp; a canonical timestamp is returned unchanged; so
    normalizing twice is normalizing once. *)
Theorem normalizeCalDate_idempotent (s : jstring) :
  (supported s = true
   ∨ ∃ dashed Y M D t, well_formed_shape Y M D t = true
                       ∧ s = render_shape dashed Y M D t) →
  ∃ c, normalizeCalDate (Some (JStr s)) = OK (Some (JStr c))
       ∧ canonical c = true
       ∧ normalizeCalDate (Some (JStr c)) = OK (Some (JStr c))
       ∧ (v ← normalizeCalDate (Some (JStr s)); normalizeCalDate v)
         = normalizeCalDate (Some (JStr s)).
Proof.
  intros H.
  assert (supported s = true) as Hs.
  { destruct H as [H|(dashed & Y & M & D & t & Hw & ->)]; [done|].
    by apply render_shape_supported. }
  clear H. exists (normalizeCalDate_string s).
  pose proof (supported_canonical _ Hs) as C.
  assert (normalizeCalDate (Some (JStr (normalizeCalDate_string s)))
          = OK (Some (JStr (normalizeCalDate_string s)))) as E.
  { rewrite normalizeCalDate_nonempty by (by apply canonical_nonempty).
    by rewrite canonical_fixed. }
  rewrite normalizeCalDate_nonempty by (by apply supported_nonempty).
  split_and!; done.
Qed.

Lemma normalizeCalDate_idempotent_witness :
  ∃ c, normalizeCalDate (Some (JStr §"2026-02-25T14:00:00.000Z")) = OK (Some (JStr c))
       ∧ canonical c = true
       ∧ normalizeCalDate (Some (JStr c)) = OK (Some (JStr c))
       ∧ (v ← normalizeCalDate (Some (JStr §"2026-02-25T14:00:00.000Z")); normalizeCalDate v)
         = normalizeCalDate (Some (JStr §"2026-02-25T14:00:00.000Z")).
Proof.
  apply (normalizeCalDate_idempotent §"2026-02-25T14:00:00.000Z").
  right. exists true, §"2026", §"02", §"25".
  exists (Some {| time_fields := [§"14"; §"00"; §"00"]; time_colons := true;
                  time_fraction := Some §"000"; time_zone := Zulu |}).
  split; reflexivity.
Defined.

(** ** The records after normalizeCalendarData and normalizeTaskData *)

Lemma normalizeCalDate_falsy v : truthy v = false → normalizeCalDate v = OK v.
Proof. intros H. unfold normalizeCalDate. by rewrite H. Qed.

Lemma normalizeCalDate_date_value v :
  date_value v = true → ∃ v', normalizeCalDate v = OK v'.
Proof.
  destruct v as [[| | |s| |]|]; try done; intros _; try by eexists.
  unfold normalizeCalDate. destruct (truthy _); by eexists.
Qed.

Lemma normalizeCalDate_normalized_from v v' :
  normalizeCalDate v = OK v' → normalized_from v v'.
Proof.
  intros H. split_and!; [done| | |].
  - intros ->. by injection H.
  - intros s -> Hs.
    rewrite normalizeCalDate_nonempty in H by (by apply supported_nonempty).
    injection H as <-. eexists. split; [done|]. by apply supported_canonical.
  - intros F. rewrite normalizeCalDate_falsy in H by done. by injection H.
Qed.

Lemma assign_lookup (key : jstring) (v : jsval) (data : record) : assign key v data !! key = v.
Proof.
  destruct v; simpl; [apply lookup_insert_eq | apply lookup_delete_eq].
Qed.

Lemma assign_lookup_ne (key k : jstring) (v : jsval) (data : record) :
  key ≠ k → assign key v data !! k = data !! k.
Proof.
  intros H. destruct v; simpl; [by apply lookup_insert_ne | by apply lookup_delete_ne].
Qed.

Lemma assign_id (key : jstring) (data : record) : assign key (data !! key) data = data.
Proof.
  destruct (data !! key) eqn:E; simpl; [by apply insert_id | by apply delete_id].
Qed.

(** The guard [if (data.key)] only skips an assignment that would change
    nothing. *)
Lemma normalize_field_bind (key : jstring) (data : record) :
  normalize_field key data =
  (v ← normalizeCalDate (data !! key); OK (assign key v data)).
Proof.
  unfold normalize_field. destruct (truthy (data !! key)) eqn:T; [done|].
  rewrite normalizeCalDate_falsy by done. simpl. by rewrite assign_id.
Qed.

Lemma normalize_field_OK (key : jstring) (data data' : record) :
  normalize_field key data = OK data' ↔
  ∃ v, normalizeCalDate (data !! key) = OK v ∧ data' = assign key v data.
Proof.
  rewrite normalize_field_bind.
  destruct (normalizeCalDate (data !! key)) as [v|e]; simpl.
  - split; [intros [= <-]; eauto | by intros (v' & [= <-] & ->)].
  - split; [done | by intros (v' & ? & _)].
Qed.

Lemma normalizeCalendarData_OK (data data' : record) :
  normalizeCalendarData data = OK data' ↔
  ∃ v1 v2,
    normalizeCalDate (data !! §"startDate") = OK v1
    ∧ normalizeCalDate (data !! §"endDate") = OK v2
    ∧ data' = <[§"forceAllDay" := JBool (truthy (data !! §"forceAllDay"))]>
                (assign §"endDate" v2 (assign §"startDate" v1 data)).
Proof.
  unfold normalizeCalendarData. rewrite !normalize_field_bind.
  destruct (normalizeCalDate (data !! §"startDate")) as [v1|e1]; cbn [mbind result_bind];
    [|split; [intros [=] | by intros (? & ? & ? & _)]].
  rewrite normalize_field_bind.
  rewrite assign_lookup_ne by done.
  destruct (normalizeCalDate (data !! §"endDate")) as [v2|e2]; cbn [mbind result_bind];
    [|split; [intros [=] | by intros (? & ? & _ & ? & _)]].
  rewrite !assign_lookup_ne by done.
  split.
  - intros [= <-]. by exists v1, v2.
  - by intros (? & ? & [= <-] & [= <-] & ->).
Qed.

Lemma normalizeTaskData_OK (data data' : record) :
  normalizeTaskData data = OK data' ↔
  ∃ v1 v2,
    normalizeCalDate (data !! §"dueDate") = OK v1
    ∧ normalizeCalDate (data !! §"initialDate") = OK v2
    ∧ if truthy (data !! §"InitialDate") then
        ∃ v3, normalizeCalDate (data !! §"InitialDate") = OK v3
              ∧ data' = delete §"InitialDate"
                          (assign §"initialDate" v3
                            (assign §"initialDate" v2 (assign §"dueDate" v1 data)))
      else data' = assign §"initialDate" v2 (assign §"dueDate" v1 data).
Proof.
  unfold normalizeTaskData. rewrite !normalize_field_bind.
  destruct (normalizeCalDate (data !! §"dueDate")) as [v1|e1]; cbn [mbind result_bind];
    [|split; [intros [=] | by intros (? & ? & ? & _)]].
  rewrite normalize_field_bind.
  rewrite assign_lookup_ne by done.
  destruct (normalizeCalDate (data !! §"initialDate")) as [v2|e2]; cbn [mbind result_bind];
    [|split; [intros [=] | by intros (? & ? & _ & ? & _)]].
  rewrite !assign_lookup_ne by done.
  destruct (truthy (data !! §"InitialDate")).
  - destruct (normalizeCalDate (data !! §"InitialDate")) as [v3|e3]; cbn [mbind result_bind].
    + split.
      * intros [= <-]. exists v1, v2. split_and!; [done..|]. by exists v3.
      * by intros (? & ? & [= <-] & [= <-] & ? & [= <-] & ->).
    + split; [intros [=] | by intros (? & ? & _ & _ & ? & ? & _)].
  - split.
    + intros [= <-]. by exists v1, v2.
    + by intros (? & ? & [= <-] & [= <-] & ->).
Qed.

(** C5 (as amended). [normalizeCalendarData] and [normalizeTaskData] return
    a record whenever every date field is absent, [null] or a string.  In the
    record returned, [forceAllDay] of an event is present and boolean, while
    a task keeps whatever [forceAllDay] it had; a date field that was absent
    stays absent, one given in a supported shape is canonical, [null] and the
    empty string are kept; [initialDate] of a task comes from [InitialDate]
    when that is set. *)
Theorem normalized_record_invariant (data : record) :
  (date_value (data !! §"startDate") = true →
   date_value (data !! §"endDate") = true →
   ∃ data', normalizeCalendarData data = OK data')
  ∧ (∀ data', normalizeCalendarData data = OK data' →
       normalized_from (data !! §"startDate") (data' !! §"startDate")
       ∧ normalized_from (data !! §"endDate") (data' !! §"endDate")
       ∧ has_boolean §"forceAllDay" data')
  ∧ (date_value (data !! §"dueDate") = true →
     date_value (data !! §"initialDate") = true →
     date_value (data !! §"InitialDate") = true →
     ∃ data', normalizeTaskData data = OK data')
  ∧ (∀ data', normalizeTaskData data = OK data' →
       normalized_from (data !! §"dueDate") (data' !! §"dueDate")
       ∧ normalized_from
           (if truthy (data !! §"InitialDate")
            then data !! §"InitialDate" else data !! §"initialDate")
           (data' !! §"initialDate")
       ∧ data' !! §"forceAllDay" = data !! §"forceAllDay").
Proof.
  split_and!.
  - intros [v1 H1]%normalizeCalDate_date_value [v2 H2]%normalizeCalDate_date_value.
    eexists. apply normalizeCalendarData_OK. exists v1, v2. split_and!; [done|done|reflexivity].
  - intros data' (v1 & v2 & H1 & H2 & ->)%normalizeCalendarData_OK.
    rewrite !lookup_insert_ne by done. rewrite assign_lookup.
    rewrite assign_lookup_ne, assign_lookup by done.
    split_and!; [by apply normalizeCalDate_normalized_from..|].
    eexists. apply lookup_insert_eq.
  - intros [v1 H1]%normalizeCalDate_date_value [v2 H2]%normalizeCalDate_date_value
           [v3 H3]%normalizeCalDate_date_value.
    destruct (truthy (data !! §"InitialDate")) eqn:T.
    all: eexists; apply normalizeTaskData_OK; exists v1, v2; split_and!; [done..|]; rewrite T.
    all: [> exists v3; split; [done|reflexivity] | reflexivity].
  - intros data' (v1 & v2 & H1 & H2 & H)%normalizeTaskData_OK.
    destruct (truthy (data !! §"InitialDate")).
    + destruct H as (v3 & H3 & ->).
      rewrite !lookup_delete_ne by done. rewrite assign_lookup.
      rewrite !assign_lookup_ne by done. rewrite assign_lookup.
      split_and!; [by apply normalizeCalDate_normalized_from..|].
      by rewrite !assign_lookup_ne by done.
    + subst data'. rewrite assign_lookup.
      rewrite !assign_lookup_ne by done. rewrite assign_lookup.
      split_and!; [by apply normalizeCalDate_normalized_from..|].
      by rewrite ?assign_lookup_ne by done.
Qed.

(** C5 as stated fails: a date the model did not write in a supported shape
    is reshaped, not validated, and a task is given no [forceAllDay]. *)
Lemma record_invariant_counterexample :
  (∃ data', normalizeCalendarData {[ §"startDate" := JStr §"tomorrow" ]} = OK data'
            ∧ data' !! §"startDate" = Some (JStr §"tomorrowT000000")
            ∧ ¬ event_invariant data')
  ∧ (∃ data', normalizeTaskData {[ §"summary" := JStr §"Pay rent" ]} = OK data'
              ∧ data' !! §"forceAllDay" = None
              ∧ ¬ task_invariant data').
Proof.
  split.
  - eexists. split; [reflexivity|]. split; [by vm_compute|].
    intros ([H|(c & H & C)] & _).
    + by vm_compute in H.
    + vm_compute in H. injection H as <-. by vm_compute in C.
  - eexists. split; [reflexivity|]. split; [by vm_compute|].
    intros (_ & _ & b & H). by vm_compute in H.
Qed.

Lemma normalized_record_invariant_witness :
  ∃ data',
    normalizeCalendarData {[ §"startDate" := JStr §"2026-03-10T15:00" ]} = OK data'
    ∧ normalized_from (Some (JStr §"2026-03-10T15:00")) (data' !! §"startDate")
    ∧ has_boolean §"forceAllDay" data'.
Proof.
  destruct (normalized_record_invariant {[ §"startDate" := JStr §"2026-03-10T15:00" ]})
    as (H1 & H2 & _).
  destruct (H1 eq_refl eq_refl) as [data' E].
  exists data'. split; [exact E|].
  destruct (H2 data' E) as (Hs & _ & Hb). split; [exact Hs | exact Hb].
Defined.

(** C10 (as amended). On a record whose date fields are absent, [null] or
    strings, [normalizeTaskData] returns a record in which [dueDate] is
    [normalizeCalDate] of the old [dueDate]; when [InitialDate] holds a
    non-empty string, [initialDate] is [normalizeCalDate] of it and the
    [InitialDate] key is gone; when [InitialDate] is absent, [null] or empty,
    [initialDate] is [normalizeCalDate] of the old [initialDate] and
    [InitialDate] is left as it was; every other field is unchanged. *)
Theorem normalizeTaskData_coalesces (data : record) :
  date_value (data !! §"dueDate") = true →
  date_value (data !! §"initialDate") = true →
  date_value (data !! §"InitialDate") = true →
  ∃ data',
    normalizeTaskData data = OK data'
    ∧ normalizeCalDate (data !! §"dueDate") = OK (data' !! §"dueDate")
    ∧ (if truthy (data !! §"InitialDate")
       then normalizeCalDate (data !! §"InitialDate") = OK (data' !! §"initialDate")
            ∧ data' !! §"InitialDate" = None
       else normalizeCalDate (data !! §"initialDate") = OK (data' !! §"initialDate")
            ∧ data' !! §"InitialDate" = data !! §"InitialDate")
    ∧ (∀ key, key ∉ [§"dueDate"; §"initialDate"; §"InitialDate"] →
         data' !! key = data !! key).
Proof.
  intros [v1 H1]%normalizeCalDate_date_value [v2 H2]%normalizeCalDate_date_value
         [v3 H3]%normalizeCalDate_date_value.
  destruct (truthy (data !! §"InitialDate")) eqn:T.
  - exists (delete §"InitialDate"
             (assign §"initialDate" v3
               (assign §"initialDate" v2 (assign §"dueDate" v1 data)))).
    split_and!.
    + apply normalizeTaskData_OK. exists v1, v2. rewrite T. split_and!; [done..|].
      by exists v3.
    + rewrite lookup_delete_ne by done.
      by rewrite !assign_lookup_ne, assign_lookup by done.
    + rewrite lookup_delete_ne by done. by rewrite assign_lookup.
    + apply lookup_delete_eq.
    + intros key Hk. rewrite !not_elem_of_cons in Hk. destruct Hk as (? & ? & ? & _).
      rewrite lookup_delete_ne by done. by rewrite !assign_lookup_ne by done.
  - exists (assign §"initialDate" v2 (assign §"dueDate" v1 data)).
    split_and!.
    + apply normalizeTaskData_OK. exists v1, v2. by rewrite T.
    + by rewrite !assign_lookup_ne, assign_lookup by done.
    + by rewrite assign_lookup.
    + by rewrite !assign_lookup_ne by done.
    + intros key Hk. rewrite !not_elem_of_cons in Hk. destruct Hk as (? & ? & ? & _).
      by rewrite !assign_lookup_ne by done.
Qed.

Lemma normalizeTaskData_coalesces_witness :
  ∃ data',
    normalizeTaskData sample_task = OK data'
    ∧ data' !! §"initialDate" = Some (JStr §"20260301T000000")
    ∧ data' !! §"InitialDate" = None
    ∧ data' !! §"dueDate" = Some (JStr §"20260305T100000")
    ∧ data' !! §"summary" = Some (JStr §"Pay rent").
Proof.
  assert (H1 : date_value (sample_task !! §"dueDate") = true) by (vm_compute; reflexivity).
  assert (H2 : date_value (sample_task !! §"initialDate") = true) by (vm_compute; reflexivity).
  assert (H3 : date_value (sample_task !! §"InitialDate") = true) by (vm_compute; reflexivity).
  destruct (normalizeTaskData_coalesces sample_task H1 H2 H3)
    as (data' & E & Hd & Hi & Ho).
  exists data'. split; [exact E|].
  vm_compute in Hd. vm_compute in Hi. destruct Hi as [Hi Hn].
  injection Hd as Hd. injection Hi as Hi.
  split_and!; [by symmetry|exact Hn|by symmetry|].
  rewrite Ho; [reflexivity|].
  rewrite !not_elem_of_cons. split_and!; try discriminate. apply not_elem_of_nil.
Defined.

(** C10 as stated fails: the key [InitialDate] is tested for its value, so
    one that holds the empty string, or [null], is not coalesced and stays. *)
Lemma normalizeTaskData_counterexample :
  normalizeTaskData {[ §"InitialDate" := JStr [] ]} = OK {[ §"InitialDate" := JStr [] ]}
  ∧ ({[ §"InitialDate" := JStr [] ]} : record) !! §"InitialDate" ≠ None
  ∧ ({[ §"InitialDate" := JStr [] ]} : record) !! §"initialDate" = None
  ∧ normalizeTaskData {[ §"InitialDate" := JNull ]} = OK {[ §"InitialDate" := JNull ]}.
Proof. split_and!; by vm_compute. Qed.

(** ** extractJSON: what the fence patterns can delete *)

Lemma star_match_sound p : ∀ s prev k n,
  star_match p prev s k = Some n →
  ∃ m rest prev', s = m ++ rest ∧ forallb p m = true ∧ k prev' rest = Some n.
Proof.
  induction s as [|c s IH]; intros prev k n H; cbn [star_match] in H.
  - by exists [], [], prev.
  - destruct (p c) eqn:Pc; [|by exists [], (c :: s), prev].
    destruct (star_match p (Some c) s k) as [n'|] eqn:E.
    + injection H as ->. destruct (IH _ _ _ E) as (m & rest & prev' & -> & Hm & Hk).
      exists (c :: m), rest, prev'. split_and!; [done| |done].
      simpl. by rewrite Pc.
    + by exists [], (c :: s), prev.
Qed.

Lemma forallb_weaken (p q : ascii → bool) m :
  (∀ c, p c = true → q c = true) → forallb p m = true → forallb q m = true.
Proof. rewrite !forallb_forall. auto. Qed.

Lemma rmatch_sound r : ∀ prev s k n,
  rmatch r prev s k = Some n →
  ∃ m rest prev', s = m ++ rest ∧ forallb (regex_class r) m = true
                  ∧ k prev' rest = Some n.
Proof.
  induction r as [|p|r1 IH1 r2 IH2|r1 IH1|p|p|ml|ml]; intros prev s k n H;
    cbn [rmatch] in H.
  - by exists [], s, prev.
  - destruct s as [|c s]; [done|]. destruct (p c) eqn:Pc; [|done].
    exists [c], s, (Some c). split_and!; [done| |done]. simpl. by rewrite Pc.
  - destruct (IH1 _ _ _ _ H) as (m1 & rest1 & prev1 & -> & Hm1 & H1).
    destruct (IH2 _ _ _ _ H1) as (m2 & rest2 & prev2 & -> & Hm2 & H2).
    exists (m1 ++ m2), rest2, prev2. split_and!; [by rewrite app_assoc| |done].
    rewrite forallb_app. apply andb_true_iff. split.
    + eapply forallb_weaken; [|done]. intros c Hc. cbn. by rewrite Hc.
    + eapply forallb_weaken; [|done]. intros c Hc. cbn. by rewrite Hc, orb_true_r.
  - destruct (rmatch r1 prev s k) as [n'|] eqn:E.
    + injection H as ->. by apply IH1 in E.
    + by exists [], s, prev.
  - by apply star_match_sound in H.
  - destruct s as [|c s]; [done|]. destruct (p c) eqn:Pc; [|done].
    apply star_match_sound in H as (m & rest & prev' & -> & Hm & Hk).
    exists (c :: m), rest, prev'. split_and!; [done| |done]. simpl. by rewrite Pc.
  - exists [], s, prev. split_and!; [done..|].
    destruct prev as [c|]; [|done]. by destruct (ml && _).
  - exists [], s, prev. split_and!; [done..|].
    destruct s as [|c s]; [done|]. by destruct (ml && _).
Qed.

(** A match at the front of [s] is a prefix of [s] made of characters the
    pattern can consume. *)
Lemma match_here_prefix r prev s n :
  match_here r prev s = Some n →
  ∃ m rest, s = m ++ rest ∧ n = length m ∧ forallb (regex_class r) m = true.
Proof.
  unfold match_here. intros (m & rest & _ & -> & Hm & [= <-])%rmatch_sound.
  exists m, rest. split_and!; [done| |done]. rewrite length_app. lia.
Qed.

(** [replace] deletes one stretch of characters the pattern can consume. *)
Lemma replace_from_removes r : ∀ s prev,
  ∃ a m b, s = a ++ m ++ b ∧ replace_from r prev s = a ++ b
           ∧ forallb (regex_class r) m = true.
Proof.
  induction s as [|c s IH]; intros prev; cbn [replace_from].
  - destruct (match_here r prev []) as [n|] eqn:E.
    + apply match_here_prefix in E as (m & rest & E & -> & Hm).
      symmetry in E. apply app_eq_nil in E as [-> ->]. by exists [], [], [].
    + by exists [], [], [].
  - destruct (match_here r prev (c :: s)) as [n|] eqn:E.
    + apply match_here_prefix in E as (m & rest & E & -> & Hm).
      exists [], m, rest. rewrite E. split_and!; [done| |done].
      by rewrite drop_app_length.
    + destruct (IH (Some c)) as (a & m & b & -> & Hr & Hm).
      exists (c :: a), m, b. split_and!; [done| |done]. by rewrite Hr.
Qed.

Lemma braces_app a b : braces (a ++ b) = braces a ++ braces b.
Proof. apply List.filter_app. Qed.

Lemma braces_none m :
  forallb (λ c, negb (is_brace c)) m = true → braces m = [].
Proof.
  induction m as [|c m IH]; [done|]. simpl.
  intros [Hc Hm]%andb_true_iff. destruct (is_brace c); [done|]. auto.
Qed.

Lemma replace_braces r s :
  (∀ c, regex_class r c = true → is_brace c = false) →
  braces (replace r s) = braces s.
Proof.
  intros Hr. unfold replace.
  destruct (replace_from_removes r s None) as (a & m & b & -> & -> & Hm).
  rewrite !braces_app. rewrite (braces_none m); [done|].
  eapply forallb_weaken; [|done]. intros c Hc. by rewrite Hr.
Qed.

Lemma fence_open_class c : regex_class re_fence_open c = true → is_brace c = false.
Proof. ascii_cases c. Qed.
Lemma fence_close_class c : regex_class re_fence_close c = true → is_brace c = false.
Proof. ascii_cases c. Qed.
Lemma space_not_brace c : is_space c = true → is_brace c = false.
Proof. ascii_cases c. Qed.

Lemma braces_drop_while s : braces (drop_while is_space s) = braces s.
Proof.
  induction s as [|c s IH]; [done|]. simpl.
  destruct (is_space c) eqn:E; [|done].
  by rewrite (space_not_brace c E).
Qed.

Lemma braces_reverse s : braces (reverse s) = reverse (braces s).
Proof.
  induction s as [|c s IH]; [done|].
  rewrite reverse_cons, braces_app, IH. simpl.
  destruct (is_brace c); [by rewrite reverse_cons | by rewrite app_nil_r].
Qed.

Lemma braces_trim s : braces (trim s) = braces s.
Proof.
  unfold trim.
  by rewrite braces_reverse, braces_drop_while, braces_reverse,
    reverse_involutive, braces_drop_while.
Qed.

Lemma braces_strip_fences text : braces (strip_fences text) = braces text.
Proof.
  unfold strip_fences.
  rewrite braces_trim, !replace_braces; [done|apply fence_open_class|apply fence_close_class].
Qed.

(** ** extractJSON: the two failures *)

Lemma scan_braces_index s : ∀ i j d,
  scan_braces s i d = None → scan_braces s j d = None.
Proof.
  induction s as [|c s IH]; intros i j d; [done|]. cbn [scan_braces].
  destruct (Ascii.eqb c "{"); [apply IH|].
  destruct (Ascii.eqb c "}"); [|apply IH].
  destruct (d - 1 =? 0); [done|apply IH].
Qed.

Lemma is_brace_eqb c :
  is_brace c = Ascii.eqb c "{" || Ascii.eqb c "}".
Proof. unfold is_brace, is_char. by rewrite !(Ascii.eqb_sym c). Qed.

Lemma scan_braces_braces s : ∀ i d,
  scan_braces s i d = None ↔ scan_braces (braces s) 0 d = None.
Proof.
  induction s as [|c s IH]; intros i d; [done|].
  cbn [scan_braces braces List.filter]. fold (braces s).
  rewrite is_brace_eqb.
  destruct (Ascii.eqb c "{") eqn:E1; cbn [orb scan_braces].
  - rewrite E1. rewrite IH. split; apply scan_braces_index.
  - destruct (Ascii.eqb c "}") eqn:E2; cbn [scan_braces].
    + rewrite E1, E2. destruct (d - 1 =? 0); [done|].
      rewrite IH. split; apply scan_braces_index.
    + apply IH.
Qed.

Lemma indexOf_drop_braces s i :
  indexOf "{" s = Some i →
  ∃ j, indexOf "{" (braces s) = Some j ∧ drop j (braces s) = braces (drop i s).
Proof.
  revert i. induction s as [|c s IH]; intros i; [done|].
  cbn [indexOf braces List.filter]. fold (braces s). rewrite is_brace_eqb.
  destruct (Ascii.eqb c "{") eqn:E1; cbn [orb].
  - intros [= <-]. exists 0%nat. cbn [indexOf drop]. rewrite E1.
    split; [done|]. cbn [braces List.filter]. by rewrite is_brace_eqb, E1.
  - destruct (indexOf "{" s) as [i'|] eqn:Ei; [|done].
    intros [= <-]. destruct (IH i' eq_refl) as (j & Hj & Hd).
    destruct (Ascii.eqb c "}") eqn:E2.
    + exists (S j). cbn [indexOf]. rewrite E1, Hj. by split.
    + by exists j.
Qed.

Lemma indexOf_braces_None s :
  indexOf "{" s = None → indexOf "{" (braces s) = None.
Proof.
  rewrite !indexOf_None. intros H Hin. apply H.
  apply list_elem_of_In in Hin. apply List.filter_In in Hin as [Hin _].
  by apply list_elem_of_In.
Qed.

Lemma indexOf_braces_Some s j :
  indexOf "{" (braces s) = Some j → ∃ i, indexOf "{" s = Some i.
Proof.
  intros H. destruct (indexOf "{" s) as [i|] eqn:E; [by eexists|].
  apply indexOf_braces_None in E. congruence.
Qed.

(** C6. A text without [{] makes [extractJSON] throw "No JSON object found",
    a text whose first [{] is never closed at depth zero, as [{"a":1], makes
    it throw "Unclosed JSON object"; nothing is returned in either case. *)
Theorem extractJSON_failures (text : jstring) :
  ("{"%char ∉ text → extractJSON text = Throw NoJsonFound)
  ∧ (unclosed text → extractJSON text = Throw UnclosedJson)
  ∧ extractJSON §"no braces here" = Throw NoJsonFound
  ∧ extractJSON (quoted "{'a':1") = Throw UnclosedJson.
Proof.
  split_and!; [| |reflexivity..].
  - intros H. unfold extractJSON.
    destruct (indexOf "{" (strip_fences text)) as [i|] eqn:E; [|done].
    exfalso. apply H.
    destruct (indexOf_drop_braces _ _ E) as (j & Hj & _).
    rewrite braces_strip_fences in Hj.
    apply indexOf_braces_Some in Hj as [i' Hi'].
    apply indexOf_Some in Hi' as (_ & Hi' & _).
    by eapply list_elem_of_lookup_2.
  - intros (start & Hs & Hscan). unfold extractJSON.
    destruct (indexOf_drop_braces _ _ Hs) as (j & Hj & Hd).
    destruct (indexOf "{" (strip_fences text)) as [i|] eqn:E.
    + destruct (indexOf_drop_braces _ _ E) as (j' & Hj' & Hd').
      rewrite braces_strip_fences in Hj', Hd'.
      assert (j' = j) as -> by congruence.
      replace (scan_braces (drop i (strip_fences text)) i 0) with (@None nat); [done|].
      symmetry. apply scan_braces_braces. rewrite <- Hd', Hd.
      by apply scan_braces_braces in Hscan.
    + apply indexOf_braces_None in E. rewrite braces_strip_fences in E. congruence.
Qed.

Lemma extractJSON_failures_witness :
  extractJSON §"Sorry, I cannot help with that." = Throw NoJsonFound
  ∧ extractJSON (§"```json" ++ [LF] ++ quoted "{'a':{'b':1}" ++ [LF] ++ §"```")
    = Throw UnclosedJson.
Proof.
  split.
  - destruct (extractJSON_failures §"Sorry, I cannot help with that.") as (H & _).
    apply H. apply indexOf_None. reflexivity.
  - destruct (extractJSON_failures
             (§"```json" ++ [LF] ++ quoted "{'a':{'b':1}" ++ [LF] ++ §"```"))
      as (_ & H & _).
    apply H. exists 8%nat. split; reflexivity.
Defined.

(** ** extractJSON: recovering a stringified object *)

Lemma fence_open_at_line_start prev s n :
  match_here re_fence_open prev s = Some n →
  prev = None ∨ ∃ c, prev = Some c ∧ is_line_terminator c = true.
Proof.
  unfold match_here, re_fence_open. cbn [rmatch].
  destruct prev as [c|]; [|intros _; by left]. cbn [andb].
  destruct (is_line_terminator c) eqn:E; [intros _; right; by exists c | done].
Qed.

Lemma fence_close_at_line_end prev s n :
  match_here re_fence_close prev s = Some n →
  ∃ m rest, s = m ++ rest ∧ forallb (regex_class re_fence_close) m = true
            ∧ (rest = [] ∨ ∃ c r, rest = c :: r ∧ is_line_terminator c = true).
Proof.
  unfold match_here.
  change (rmatch re_fence_close prev s (λ _ rest, Some (length s - length rest)%nat))
    with (rmatch (RSeq (RStar is_space) (RSeq (RLit is_char §"```") (RStar is_space)))
            prev s
            (λ p s', rmatch (REol true) p s' (λ _ rest, Some (length s - length rest)%nat))).
  intros (m & rest & prev' & -> & Hm & Hk)%rmatch_sound.
  exists m, rest. split_and!; [done| |].
  - eapply forallb_weaken; [|done]. intros c. cbn. 
    intros H. repeat (apply orb_true_iff in H as [H|H]; rewrite ?H, ?orb_true_r; try done).
  - cbn [rmatch] in Hk. destruct rest as [|c r]; [by left|]. right.
    cbn [andb] in Hk. destruct (is_line_terminator c) eqn:E; [by exists c, r | done].
Qed.

Lemma prefix_stops_at (m rest pre Y : jstring) (c : ascii) (p : ascii → bool) :
  m ++ rest = pre ++ c :: Y → forallb p m = true → p c = false →
  (length m ≤ length pre)%nat.
Proof.
  intros E Hm Hc. destruct (decide (length m ≤ length pre)%nat) as [|Hgt]; [done|].
  exfalso. assert ((m ++ rest) !! length pre = Some c) as Hl.
  { rewrite E. by apply list_lookup_middle. }
  rewrite lookup_app_l in Hl by lia.
  rewrite forallb_forall in Hm.
  apply list_elem_of_lookup_2, list_elem_of_In, Hm in Hl. congruence.
Qed.

Section ReplaceKeepsObject.
Variable r : regex.
Hypothesis class_no_brace : ∀ c, regex_class r c = true → is_brace c = false.
Hypothesis not_inside : ∀ c0 t post n,
  is_line_terminator c0 = false → no_line_terminator t = true →
  match_here r (Some c0) (t ++ "}"%char :: post) = Some n → False.

Lemma replace_from_inside : ∀ t c0 post,
  is_line_terminator c0 = false → no_line_terminator t = true →
  ∃ post', replace_from r (Some c0) (t ++ "}"%char :: post) = t ++ "}"%char :: post'.
Proof.
  induction t as [|c t IH]; intros c0 post H0 Ht.
  all: match goal with |- context [replace_from r _ (?t ++ _)] =>
         pose proof (not_inside c0 t post) as Hn end.
  all: cbn [app] in *; cbn [replace_from].
  - destruct (match_here r (Some c0) ("}"%char :: post)) as [n|] eqn:E.
    + exfalso. by eapply (Hn n).
    + eexists. reflexivity.
  - destruct (match_here r (Some c0) (c :: t ++ "}"%char :: post)) as [n|] eqn:E.
    + exfalso. by eapply (Hn n).
    + cbn [no_line_terminator forallb] in Ht.
      apply andb_true_iff in Ht as [Hc Ht]. apply negb_true_iff in Hc.
      destruct (IH c post Hc Ht) as [post' ->]. eexists. reflexivity.
Qed.

Lemma replace_from_keeps_object : ∀ pre prev body post,
  no_line_terminator body = true →
  ∃ pre' post',
    replace_from r prev (pre ++ "{"%char :: body ++ "}"%char :: post)
    = pre' ++ "{"%char :: body ++ "}"%char :: post'
    ∧ pre' ⊆ pre.
Proof.
  assert (Hclass : ∀ m, forallb (regex_class r) m = true →
                        forallb (λ c, negb (is_brace c)) m = true).
  { intros m. apply forallb_weaken. intros c Hc. by rewrite class_no_brace. }
  induction pre as [|c pre IH]; intros prev body post Hb; cbn [app replace_from].
  - destruct (match_here r prev _) as [n|] eqn:E.
    + apply match_here_prefix in E as (m & rest & E & -> & Hm).
      apply Hclass in Hm.
      pose proof (prefix_stops_at m rest [] _ _ _ (eq_sym E) Hm eq_refl) as L.
      destruct m; [|simpl in L; lia].
      by exists [], post.
    + destruct (replace_from_inside body "{"%char post eq_refl Hb) as [post' ->].
      by exists [], post'.
  - destruct (match_here r prev _) as [n|] eqn:E.
    + apply match_here_prefix in E as (m & rest & E & -> & Hm).
      apply Hclass in Hm.
      pose proof (prefix_stops_at m rest (c :: pre) _ _ _ (eq_sym E) Hm eq_refl) as L.
      exists (drop (length m) (c :: pre)), post. split.
      * rewrite app_comm_cons. by rewrite drop_app_le by done.
      * apply subseteq_drop.
    + destruct (IH (Some c) body post Hb) as (pre' & post' & -> & Hsub).
      exists (c :: pre'), post'. split; [done|].
      intros x [->|Hx]%elem_of_cons; [left | right; by apply Hsub].
Qed.
End ReplaceKeepsObject.

Lemma fence_close_not_inside c0 t post n :
  is_line_terminator c0 = false → no_line_terminator t = true →
  match_here re_fence_close (Some c0) (t ++ "}"%char :: post) = Some n → False.
Proof.
  intros _ Ht (m & rest & E & Hm & Hend)%fence_close_at_line_end.
  assert (length m ≤ length t)%nat as L.
  { eapply (prefix_stops_at m rest t post "}"%char); [done| |].
    - eapply forallb_weaken; [|exact Hm]. intros c Hc.
      apply fence_close_class in Hc. exact (eq_trans (f_equal negb Hc) eq_refl).
    - done. }
  assert (rest = drop (length m) t ++ "}"%char :: post) as ->.
  { apply (f_equal (drop (length m))) in E.
    rewrite drop_app_length in E. by rewrite drop_app_le in E by done. }
  destruct Hend as [Hnil|(c & r & Hc & Hlt)].
  - by destruct (drop (length m) t).
  - destruct (drop (length m) t) as [|x d] eqn:Ed.
    + by injection Hc as <- <-.
    + injection Hc as <- <-.
      assert (x ∈ t) as Hx.
      { eapply (subseteq_drop (length m)). rewrite Ed. left. }
      unfold no_line_terminator in Ht. rewrite forallb_forall in Ht.
      apply list_elem_of_In, Ht in Hx. by rewrite Hlt in Hx.
Qed.

Lemma fence_open_not_inside c0 t post n :
  is_line_terminator c0 = false → no_line_terminator t = true →
  match_here re_fence_open (Some c0) (t ++ "}"%char :: post) = Some n → False.
Proof.
  intros H0 _ [|(c & [= <-] & H)]%fence_open_at_line_start; congruence.
Qed.

Lemma drop_while_stops p (a b : jstring) c :
  p c = false → drop_while p (a ++ c :: b) = drop_while p a ++ c :: b.
Proof.
  intros Hc. induction a as [|x a IH]; simpl; [by rewrite Hc|].
  by destruct (p x).
Qed.

Lemma drop_while_subseteq p (a : jstring) : drop_while p a ⊆ a.
Proof.
  induction a as [|x a IH]; simpl; [done|].
  destruct (p x); [|done]. intros y Hy. right. by apply IH.
Qed.

Lemma trim_keeps_object pre body post :
  ∃ pre' post',
    trim (pre ++ "{"%char :: body ++ "}"%char :: post)
    = pre' ++ "{"%char :: body ++ "}"%char :: post'
    ∧ pre' ⊆ pre.
Proof.
  exists (drop_while is_space pre), (reverse (drop_while is_space (reverse post))).
  split; [|apply drop_while_subseteq].
  unfold trim. rewrite drop_while_stops by done.
  replace (drop_while is_space pre ++ "{"%char :: body ++ "}"%char :: post)
    with ((drop_while is_space pre ++ "{"%char :: body) ++ "}"%char :: post)
    by (by rewrite <- app_assoc).
  rewrite reverse_app, reverse_cons.
  rewrite <- app_assoc. cbn [app].
  rewrite drop_while_stops by done.
  rewrite reverse_app, reverse_cons, reverse_involutive.
  by rewrite <- !app_assoc.
Qed.

Lemma strip_fences_keeps_object pre body post :
  no_line_terminator body = true →
  ∃ pre' post',
    strip_fences (pre ++ "{"%char :: body ++ "}"%char :: post)
    = pre' ++ "{"%char :: body ++ "}"%char :: post'
    ∧ pre' ⊆ pre.
Proof.
  intros Hb. unfold strip_fences, replace.
  destruct (replace_from_keeps_object re_fence_open fence_open_class
              fence_open_not_inside pre None body post Hb) as (p1 & q1 & -> & S1).
  destruct (replace_from_keeps_object re_fence_close fence_close_class
              fence_close_not_inside p1 None body q1 Hb) as (p2 & q2 & -> & S2).
  destruct (trim_keeps_object p2 body q2) as (p3 & q3 & -> & S3).
  exists p3, q3. split; [done|]. by do 2 (etrans; [done|]).
Qed.

Lemma indexOf_app c (pre rest : jstring) :
  c ∉ pre → indexOf c (pre ++ c :: rest) = Some (length pre).
Proof.
  induction pre as [|x pre IH]; intros H; cbn [app indexOf length].
  - by rewrite Ascii.eqb_refl.
  - apply not_elem_of_cons in H as [Hx H].
    rewrite (proj2 (Ascii.eqb_neq x c)) by congruence. by rewrite IH.
Qed.

Lemma balanced_app a b : balanced a → balanced b → balanced (a ++ b).
Proof.
  induction 1 as [|c s Hc Hs IH|a1 a2 H1 IH1 H2 IH2]; intros Hb; cbn [app].
  - done.
  - apply balanced_char; auto.
  - rewrite <- app_assoc. cbn [app]. apply balanced_nest; auto.
Qed.

(** Over a balanced stretch the loop of [extractJSON] keeps its depth and
    does not stop. *)
Lemma scan_braces_balanced a :
  balanced a → ∀ rest i d, 1 ≤ d →
  scan_braces (a ++ rest) i d = scan_braces rest (i + length a) d.
Proof.
  induction 1 as [|c s Hc Hs IH|a1 a2 H1 IH1 H2 IH2]; intros rest i d Hd;
    cbn [app length].
  - by rewrite Nat.add_0_r.
  - cbn [scan_braces]. rewrite is_brace_eqb in Hc.
    apply orb_false_iff in Hc as [-> ->]. rewrite IH by done.
    f_equal. lia.
  - cbn [scan_braces]. change (Ascii.eqb "{" "{") with true. cbn iota.
    rewrite <- app_assoc. rewrite IH1 by lia. cbn [app scan_braces].
    change (Ascii.eqb "}" "{") with false. change (Ascii.eqb "}" "}") with true.
    cbn iota. replace (d + 1 - 1) with d by lia.
    rewrite (proj2 (Z.eqb_neq d 0)) by lia.
    rewrite IH2 by done. f_equal. rewrite length_app. cbn [length]. lia.
Qed.

(** What [extractJSON] recovers: the first object of the text, whatever
    surrounds it, as long as no [{] comes before it. *)
Lemma extractJSON_object pre body post :
  "{"%char ∉ pre → balanced body → no_line_terminator body = true →
  extractJSON (pre ++ "{"%char :: body ++ "}"%char :: post)
  = OK ("{"%char :: body ++ ["}"%char]).
Proof.
  intros Hpre Hbal Hb. unfold extractJSON.
  destruct (strip_fences_keeps_object pre body post Hb) as (p & q & -> & Hsub).
  assert ("{"%char ∉ p) as Hp by (intros Hin; by apply Hpre, Hsub).
  rewrite indexOf_app by done.
  rewrite drop_app_length.
  cbn [scan_braces]. change (Ascii.eqb "{" "{") with true. cbn iota.
  rewrite scan_braces_balanced by (done || lia).
  cbn [scan_braces]. change (Ascii.eqb "}" "{") with false.
  change (Ascii.eqb "}" "}") with true. cbn iota.
  change (0 + 1 - 1 =? 0) with true. cbn iota.
  unfold slice. rewrite drop_app_length.
  replace (S (length p) + length body + 1 - length p)%nat
    with (length ("{"%char :: body ++ ["}"%char]))
    by (cbn [length]; rewrite length_app; cbn [length]; lia).
  replace ("{"%char :: body ++ "}"%char :: q)
    with (("{"%char :: body ++ ["}"%char]) ++ q)
    by (cbn [app]; by rewrite <- app_assoc).
  by rewrite take_app_length.
Qed.

Lemma tame_nil : tame [].
Proof. split; [constructor | done]. Qed.

Lemma tame_app a b : tame a → tame b → tame (a ++ b).
Proof.
  intros [Ba La] [Bb Lb]. split; [by apply balanced_app|].
  unfold no_line_terminator in *. by rewrite forallb_app, La, Lb.
Qed.

Lemma tame_plain s :
  forallb (λ c, negb (is_brace c) && negb (is_line_terminator c)) s = true → tame s.
Proof.
  induction s as [|c s IH]; [intros _; apply tame_nil|].
  cbn [forallb]. intros [[Hb Hl]%andb_true_iff Hs]%andb_true_iff.
  destruct (IH Hs) as [B L]. split.
  - apply balanced_char; [by apply negb_true_iff|done].
  - unfold no_line_terminator in *. cbn [forallb]. by rewrite Hl, L.
Qed.

Lemma tame_escape c :
  is_brace c = false → tame (json_escape c).
Proof. intros H. apply tame_plain. revert H. ascii_cases c. Qed.

Lemma tame_quote s :
  forallb (λ c, negb (is_brace c)) s = true → tame (json_quote s).
Proof.
  intros H. unfold json_quote.
  apply tame_app; [by apply tame_plain|]. apply tame_app; [|by apply tame_plain].
  induction s as [|c s IH]; [apply tame_nil|]. cbn [map concat].
  cbn [forallb] in H. apply andb_true_iff in H as [Hc Hs].
  apply tame_app; [|by apply IH]. apply tame_escape. by apply negb_true_iff.
Qed.

Lemma plain_uint d :
  forallb (λ c, negb (is_brace c) && negb (is_line_terminator c))
    (list_ascii_of_string (NilEmpty.string_of_uint d)) = true.
Proof. induction d; simpl; done. Qed.

Lemma tame_number n : tame (Z_to_jstring n).
Proof.
  apply tame_plain. unfold Z_to_jstring, NilZero.string_of_int.
  destruct (Z.to_int n) as [d|d]; unfold NilZero.string_of_uint.
  - destruct d; try apply plain_uint; done.
  - cbn [list_ascii_of_string forallb]. destruct d; try apply plain_uint; done.
Qed.

Lemma tame_join sep l : tame sep → Forall tame l → tame (join sep l).
Proof.
  intros Hs. induction 1 as [|x l Hx Hl IH]; [apply tame_nil|].
  cbn [join]. destruct l as [|y l]; [done|].
  apply tame_app; [done|]. by apply tame_app.
Qed.

Lemma tame_stringify v : brace_free v = true → tame (stringify v).
Proof.
  induction v as [|b|n|s|items IH|fields IH] using json_rect'; intros H;
    cbn [stringify].
  - by apply tame_plain.
  - destruct b; by apply tame_plain.
  - apply tame_number.
  - by apply tame_quote.
  - apply tame_app; [by apply tame_plain|]. apply tame_app; [|by apply tame_plain].
    apply tame_join; [by apply tame_plain|].
    cbn [brace_free] in H. apply Forall_fmap.
    induction IH as [|x l Hx Hl IHl]; [constructor|].
    cbn [forallb] in H. apply andb_true_iff in H as [H1 H2].
    constructor; [by apply Hx | by apply IHl].
  - cbn [brace_free] in H.
    assert (tame (join §"," (map (λ kv, json_quote kv.1 ++ §":" ++ stringify kv.2) fields)))
      as [B L].
    { apply tame_join; [by apply tame_plain|]. apply Forall_fmap.
      induction IH as [|x l Hx Hl IHl]; [constructor|].
      cbn [forallb] in H. apply andb_true_iff in H as [[H1 H1']%andb_true_iff H2].
      constructor; [|by apply IHl].
      change (tame (json_quote x.1 ++ §":" ++ stringify x.2)).
      apply tame_app; [by apply tame_quote|].
      apply tame_app; [by apply tame_plain | by apply Hx]. }
    split.
    + cbn [app list_ascii_of_string]. by apply (balanced_nest _ []), balanced_nil.
    + unfold no_line_terminator in *. by rewrite !forallb_app, L.
Qed.

Lemma stringify_object_text fields :
  brace_free (JObj fields) = true → object_text (stringify (JObj fields)).
Proof.
  intros H.
  exists (join §"," (map (λ kv, json_quote kv.1 ++ §":" ++ stringify kv.2) fields)).
  split; [done|].
  change (tame (join §"," (map (λ kv, json_quote kv.1 ++ §":" ++ stringify kv.2) fields))).
  cbn [brace_free] in H.
  apply tame_join; [by apply tame_plain|]. apply Forall_fmap, Forall_forall.
  intros [k v] Hin. rewrite forallb_forall in H.
  apply list_elem_of_In, H in Hin. cbn in Hin.
  apply andb_true_iff in Hin as [Hk Hv].
  change (tame (json_quote k ++ §":" ++ stringify v)).
  apply tame_app; [by apply tame_quote|].
  apply tame_app; [by apply tame_plain | by apply tame_stringify].
Qed.




Example extractJSON_brace_in_string :
  extractJSON (stringify (JObj [(§"a", JStr §"}")])) = OK (quoted "{'a':'}").
Proof. reflexivity. Qed.

Example extractJSON_brace_in_prose :
  extractJSON (§"Use {braces}: " ++ stringify (JObj [(§"a", JNum 1)])) = OK §"{braces}".
Proof. reflexivity. Qed.

(** ** callOllama: host validation *)

Lemma isValidHostUrl_spec host :
  isValidHostUrl host = true ↔
  ∃ u, URL_new host = OK u ∧ (protocol u = §"http:" ∨ protocol u = §"https:").
Proof.
  unfold isValidHostUrl. destruct (URL_new host) as [u|e].
  - rewrite orb_true_iff, !bool_decide_eq_true. split.
    + intros H. by exists u.
    + by intros (? & [= <-] & H).
  - split; [done | by intros (? & ? & _)].
Qed.

(** C7. [callOllama] issues a request only when the host parses as a URL
    whose scheme is [http] or [https]; for any other host it throws the
    invalid-host error with no request issued.  [http://127.0.0.1:11434] and
    [https://example.com] pass the validation, [ftp://x], [file:///x] and a
    string that is no URL do not. *)
Theorem callOllama_validates_host (fetch : request → fetch_outcome)
    (host model prompt : jstring) :
  ((callOllama fetch host model prompt).1 ≠ [] →
     ∃ u, URL_new host = OK u ∧ (protocol u = §"http:" ∨ protocol u = §"https:"))
  ∧ (isValidHostUrl host = false →
       callOllama fetch host model prompt = ([], Throw (InvalidHost host)))
  ∧ (isValidHostUrl host = false ↔
       ∀ u, URL_new host = OK u → protocol u ≠ §"http:" ∧ protocol u ≠ §"https:")
  ∧ isValidHostUrl §"http://127.0.0.1:11434" = true
  ∧ isValidHostUrl §"https://example.com" = true
  ∧ isValidHostUrl §"ftp://x" = false
  ∧ isValidHostUrl §"file:///x" = false
  ∧ isValidHostUrl §"not a url" = false.
Proof.
  split_and!; try reflexivity.
  - unfold callOllama. destruct (isValidHostUrl host) eqn:E; [|done].
    intros _. by apply isValidHostUrl_spec.
  - intros E. unfold callOllama. by rewrite E.
  - split.
    + intros E u Hu. split; intros Hp.
      * assert (isValidHostUrl host = true); [|congruence].
        apply isValidHostUrl_spec. exists u. auto.
      * assert (isValidHostUrl host = true); [|congruence].
        apply isValidHostUrl_spec. exists u. auto.
    + intros H. destruct (isValidHostUrl host) eqn:E; [|done].
      apply isValidHostUrl_spec in E as (u & Hu & [Hp|Hp]);
        destruct (H u Hu); congruence.
Qed.

Lemma callOllama_validates_host_witness :
  callOllama (λ _, Aborted) §"ftp://x" §"mistral:7b" §"Hello"
  = ([], Throw (InvalidHost §"ftp://x")).
Proof.
  destruct (callOllama_validates_host (λ _, Aborted) §"ftp://x" §"mistral:7b" §"Hello")
    as (_ & H & _).
  apply H. reflexivity.
Defined.

Example callOllama_request :
  callOllama (λ _, Responded true 200 [] (OK (JObj [(§"response", JStr §"{}")])))
     §"http://127.0.0.1:11434/" §"m" §"p"
  = ([ {| req_url := §"http://127.0.0.1:11434/api/generate";
         req_method := §"POST";
         req_content_type := §"application/json";
         req_body := quoted "{'model':'m','prompt':'p','stream':false}" |} ],
     OK (Some (JStr §"{}"))).
Proof. reflexivity. Qed.

(** ** Year advancement *)

Lemma digit_char_spec k :
  0 ≤ k < 10 →
  is_digit (digit_char k) = true ∧ Z.of_N (code (digit_char k) - 48) = k.
Proof.
  intros H.
  assert (k = 0 ∨ k = 1 ∨ k = 2 ∨ k = 3 ∨ k = 4 ∨ k = 5 ∨ k = 6 ∨ k = 7 ∨ k = 8 ∨ k = 9)
    as Hk by lia.
  repeat destruct Hk as [->|Hk]; try subst k; by vm_compute.
Qed.

Lemma digits_value_snoc s : ∀ acc c,
  digits_value acc (s ++ [c]) =
  v ← digits_value acc s;
  if is_digit c then Some (10 * v + Z.of_N (code c - 48)) else None.
Proof.
  induction s as [|x s IH]; intros acc c; cbn [app digits_value].
  - by destruct (is_digit c).
  - destruct (is_digit x); [apply IH | done].
Qed.

Lemma length_pad_digits w : ∀ n, length (pad_digits w n) = w.
Proof.
  induction w as [|w IH]; intros n; cbn [pad_digits]; [done|].
  rewrite length_app, IH. simpl. lia.
Qed.

Lemma all_digits_pad_digits w : ∀ n, all_digits (pad_digits w n) = true.
Proof.
  induction w as [|w IH]; intros n; cbn [pad_digits]; [done|].
  rewrite all_digits_app, IH. cbn.
  destruct (digit_char_spec (n mod 10)) as [-> _]; [|done].
  apply Z.mod_pos_bound. lia.
Qed.

Lemma digits_value_pad_digits w : ∀ n,
  0 ≤ n < 10 ^ Z.of_nat w → digits_value 0 (pad_digits w n) = Some n.
Proof.
  induction w as [|w IH]; intros n Hn; cbn [pad_digits].
  - cbn in *. f_equal. lia.
  - rewrite digits_value_snoc.
    rewrite Nat2Z.inj_succ, Z.pow_succ_r in Hn by lia.
    rewrite IH by (split; [apply Z.div_pos; lia | apply Z.div_lt_upper_bound; lia]).
    cbn [mbind option_bind].
    destruct (digit_char_spec (n mod 10)) as [-> ->]; [apply Z.mod_pos_bound; lia|].
    f_equal. pose proof (Z.div_mod n 10). lia.
Qed.

Lemma advance_year_reaches referenceYear : ∀ steps y,
  y ≤ referenceYear → referenceYear - y ≤ Z.of_nat steps →
  advance_year steps y referenceYear = referenceYear.
Proof.
  induction steps as [|n IH]; intros y Hy Hn; cbn [advance_year].
  - lia.
  - destruct (Z.ltb_spec y referenceYear); [|lia].
    apply IH; lia.
Qed.

Lemma canonical_intro d t :
  length d = 8%nat → all_digits d = true →
  length t = 6%nat → all_digits t = true →
  canonical (d ++ "T"%char :: t) = true.
Proof.
  intros Ld Dd Lt Dt.
  pose proof (canonical_build d t Ld Dd Dt) as H.
  rewrite <- Lt in H at 1. rewrite firstn_all in H.
  unfold pad_time in H. rewrite Lt in H. simpl in H. by rewrite app_nil_r in H.
Qed.

Lemma digits_value_all_digits s : ∀ acc,
  all_digits s = true → 0 ≤ acc → ∃ v, digits_value acc s = Some v ∧ 0 ≤ v.
Proof.
  unfold all_digits. induction s as [|c s IH]; intros acc H Hacc; cbn [digits_value].
  - by exists acc.
  - cbn [forallb] in H. apply andb_true_iff in H as [-> H]. apply IH; [done|lia].
Qed.

Lemma all_digits_drop n s : all_digits s = true → all_digits (drop n s) = true.
Proof.
  unfold all_digits. rewrite !forallb_forall. intros H c Hc.
  apply H. apply list_elem_of_In. apply list_elem_of_In in Hc.
  by eapply subseteq_drop.
Qed.

(** C3. On a normalized date whose year is below the reference year,
    [advancePastYear] puts the reference year, which is the smallest year not
    below it, and keeps month, day and time; a date whose year is the
    reference year or a later one is returned unchanged. *)
Theorem advancePastYear_spec (dateStr : jstring) (referenceYear : Z) :
  canonical dateStr = true →
  ∃ y, year_of dateStr = Some y
    ∧ (y < referenceYear → referenceYear ≤ 9999 →
         ∃ y', year_of (advancePastYear dateStr referenceYear) = Some y'
           ∧ referenceYear ≤ y'
           ∧ (∀ z, referenceYear ≤ z → y' ≤ z)
           ∧ drop 4 (advancePastYear dateStr referenceYear) = drop 4 dateStr
           ∧ canonical (advancePastYear dateStr referenceYear) = true)
    ∧ (referenceYear ≤ y → advancePastYear dateStr referenceYear = dateStr).
Proof.
  intros (d & t & -> & Ld & Dd & Lt & Dt)%canonical_decompose.
  assert (slice 0 4 (d ++ "T"%char :: t) = take 4 d) as Hs.
  { change (take 4 (d ++ "T"%char :: t) = take 4 d). by rewrite take_app_le by lia. }
  destruct (digits_value_all_digits (take 4 d) 0) as (y & Hy & Hy0);
    [by apply all_digits_take | done |].
  exists y. unfold year_of, advancePastYear. rewrite !Hs, Hy.
  split_and!; [done| |].
  - intros Hlt Hmax. destruct (Z.ltb_spec y referenceYear); [|lia].
    rewrite advance_year_reaches by lia.
    exists referenceYear.
    assert (length (pad_digits 4 referenceYear) = 4%nat) as Lp
      by apply length_pad_digits.
    split_and!; [|lia|auto|..].
    + change (slice 0 4 ?x) with (take 4 x).
      rewrite take_app_length' by done.
      apply digits_value_pad_digits. change (10 ^ Z.of_nat 4) with 10000. lia.
    + by rewrite drop_app_length' by done.
    + rewrite drop_app_le by lia. rewrite app_assoc.
      apply canonical_intro; [|rewrite all_digits_app|done..].
      * rewrite length_app, length_drop. lia.
      * by rewrite all_digits_pad_digits, all_digits_drop.
  - intros Hge. by destruct (Z.ltb_spec y referenceYear); [lia|].
Qed.

Lemma advancePastYear_spec_witness :
  ∃ y', year_of (advancePastYear §"20240310T150000" 2026) = Some y'
        ∧ 2026 ≤ y'
        ∧ drop 4 (advancePastYear §"20240310T150000" 2026) = §"0310T150000".
Proof.
  destruct (advancePastYear_spec §"20240310T150000" 2026 eq_refl)
    as (y & Hy & Hlt & _).
  vm_compute in Hy. injection Hy as <-.
  destruct (Hlt ltac:(lia) ltac:(lia)) as (y' & H1 & H2 & _ & H3 & _).
  exists y'. split; [exact H1|]. split; [exact H2 | exact H3].
Defined.

(** ** The all-day adjustment *)

Lemma slice_middle (a x b : jstring) i j :
  i = length a → j = (i + length x)%nat → slice i j (a ++ x ++ b) = x.
Proof.
  intros -> ->. unfold slice. rewrite drop_app_length.
  replace (length a + length x - length a)%nat with (length x) by lia.
  by rewrite take_app_length.
Qed.

Lemma slice_front (x b : jstring) j :
  j = length x → slice 0 j (x ++ b) = x.
Proof. intros ->. apply (slice_middle [] x b); [done | simpl; lia]. Qed.

Lemma valid_caltime_spec t :
  valid_caltime t = true ↔
  (0 ≤ year t ≤ 9999) ∧ (1 ≤ month t ≤ 12)
  ∧ (1 ≤ day t ≤ days_in_month (year t) (month t))
  ∧ (0 ≤ hour t < 24) ∧ (0 ≤ minute t < 60) ∧ (0 ≤ second t < 60).
Proof.
  unfold valid_caltime. rewrite !andb_true_iff, !Z.leb_le, !Z.ltb_lt. tauto.
Qed.

Lemma days_in_month_bounds y m : 28 ≤ days_in_month y m ≤ 31.
Proof.
  unfold days_in_month.
  destruct (m =? 2); [destruct (is_leap y); lia|].
  destruct (_ || _); lia.
Qed.

Lemma parse_format_caltime t :
  valid_caltime t = true → parse_caltime (format_caltime t) = Some t.
Proof.
  intros (Hy & Hm & Hd & Hh & Hmi & Hs)%valid_caltime_spec.
  pose proof (days_in_month_bounds (year t) (month t)).
  unfold parse_caltime, format_caltime.
  set (Y := pad_digits 4 (year t)). set (M := pad_digits 2 (month t)).
  set (D := pad_digits 2 (day t)). set (h := pad_digits 2 (hour t)).
  set (mi := pad_digits 2 (minute t)). set (se := pad_digits 2 (second t)).
  assert (length Y = 4%nat ∧ length M = 2%nat ∧ length D = 2%nat
          ∧ length h = 2%nat ∧ length mi = 2%nat ∧ length se = 2%nat)
    as (LY & LM & LD & Lh & Lmi & Lse) by (split_and!; apply length_pad_digits).
  assert (canonical (Y ++ M ++ D ++ §"T" ++ h ++ mi ++ se) = true) as ->.
  { replace (Y ++ M ++ D ++ §"T" ++ h ++ mi ++ se)
      with ((Y ++ M ++ D) ++ "T"%char :: (h ++ mi ++ se))
      by (by rewrite <- !app_assoc).
    apply canonical_intro.
    - rewrite !length_app. lia.
    - rewrite !all_digits_app. unfold Y, M, D. by rewrite !all_digits_pad_digits.
    - rewrite !length_app. lia.
    - rewrite !all_digits_app. unfold h, mi, se. by rewrite !all_digits_pad_digits. }
  set (S := Y ++ M ++ D ++ §"T" ++ h ++ mi ++ se).
  assert (slice 0 4 S = Y) as -> by (apply slice_front; lia).
  assert (slice 4 6 S = M) as -> by (apply slice_middle; lia).
  assert (slice 6 8 S = D) as ->.
  { unfold S. rewrite (app_assoc Y M).
    apply slice_middle; rewrite ?length_app; lia. }
  assert (slice 9 11 S = h) as ->.
  { replace S with ((Y ++ M ++ D ++ §"T") ++ h ++ mi ++ se)
      by (unfold S; by rewrite <- !app_assoc).
    apply slice_middle; rewrite ?length_app; cbn [length list_ascii_of_string]; lia. }
  assert (slice 11 13 S = mi) as ->.
  { replace S with ((Y ++ M ++ D ++ §"T" ++ h) ++ mi ++ se)
      by (unfold S; by rewrite <- !app_assoc).
    apply slice_middle; rewrite ?length_app; cbn [length list_ascii_of_string]; lia. }
  assert (slice 13 15 S = se) as ->.
  { replace S with ((Y ++ M ++ D ++ §"T" ++ h ++ mi) ++ se ++ [])
      by (unfold S; by rewrite <- !app_assoc, app_nil_r).
    apply slice_middle; rewrite ?length_app; cbn [length list_ascii_of_string]; lia. }
  unfold Y, M, D, h, mi, se.
  rewrite !digits_value_pad_digits
    by (change (10 ^ Z.of_nat 4) with 10000; change (10 ^ Z.of_nat 2) with 100; lia).
  cbn [mbind option_bind]. by destruct t.
Qed.

Lemma next_day_valid t :
  valid_caltime t = true → year t < 9999 → valid_caltime (next_day t) = true.
Proof.
  intros (Hy & Hm & Hd & Hh & Hmi & Hs)%valid_caltime_spec Hmax.
  apply valid_caltime_spec. unfold next_day.
  destruct (Z.ltb_spec (day t) (days_in_month (year t) (month t))); cbn.
  - split_and!; lia.
  - pose proof (days_in_month_bounds (year t) (month t + 1)).
    destruct (Z.ltb_spec (month t) 12); cbn; split_and!; lia.
Qed.

Lemma days_before_month_succ y m :
  1 ≤ m →
  days_before_month y (Z.to_nat m) =
  days_before_month y (Z.to_nat (m - 1)) + days_in_month y m.
Proof.
  intros Hm. replace (Z.to_nat m) with (S (Z.to_nat (m - 1))) by lia.
  cbn [days_before_month]. do 2 f_equal. lia.
Qed.

Lemma days_before_month_12 y :
  days_before_month y 12 = 365 + (if is_leap y then 1 else 0).
Proof.
  cbn [days_before_month]. unfold days_in_month.
  destruct (is_leap y); by vm_compute.
Qed.

Lemma days_before_month_11 y :
  days_before_month y 11 = 334 + (if is_leap y then 1 else 0).
Proof.
  cbn [days_before_month]. unfold days_in_month.
  destruct (is_leap y); by vm_compute.
Qed.

Lemma days_before_year_succ y :
  days_before_year (y + 1) = days_before_year y + days_before_month y 12.
Proof.
  rewrite days_before_month_12. unfold days_before_year, is_leap.
  replace (y + 1 - 1) with y by lia.
  destruct (Z.eqb_spec (y mod 4) 0), (Z.eqb_spec (y mod 100) 0),
    (Z.eqb_spec (y mod 400) 0); cbn [andb orb negb];
    Z.div_mod_to_equations; lia.
Qed.

Lemma day_number_next_day t :
  valid_caltime t = true → day_number (next_day t) = day_number t + 1.
Proof.
  intros (Hy & Hm & Hd & Hh & Hmi & Hs)%valid_caltime_spec.
  unfold next_day, day_number.
  destruct (Z.ltb_spec (day t) (days_in_month (year t) (month t))); cbn [year month day].
  - lia.
  - destruct (Z.ltb_spec (month t) 12); cbn [year month day].
    + replace (month t + 1 - 1) with (month t) by lia.
      rewrite (days_before_month_succ _ (month t)) by lia. lia.
    + assert (month t = 12) as Hm12 by lia. rewrite Hm12 in *.
      rewrite days_before_year_succ, days_before_month_12.
      change (Z.to_nat (1 - 1)) with 0%nat. change (Z.to_nat (12 - 1)) with 11%nat.
      rewrite days_before_month_11. cbn [days_before_month].
      assert (days_in_month (year t) 12 = 31) as E by reflexivity.
      rewrite E in *. destruct (is_leap (year t)); lia.
Qed.

Lemma seconds_of_next_day t :
  valid_caltime t = true → seconds_of (next_day t) = seconds_of t + 86400.
Proof.
  intros H. unfold seconds_of. rewrite day_number_next_day by done.
  unfold next_day. destruct (_ <? _); [|destruct (_ <? _)]; cbn; lia.
Qed.

Lemma addHoursToCalDate_24 calDate t :
  parse_caltime calDate = Some t → valid_caltime t = true →
  addHoursToCalDate calDate 24 = format_caltime (next_day t).
Proof.
  intros Hp Hv. unfold addHoursToCalDate. rewrite Hp, Hv. cbn [andb Z.leb Z.compare].
  apply valid_caltime_spec in Hv as (Hy & Hm & Hd & Hh & Hmi & Hs).
  replace ((hour t + 24) / 24) with 1 by (Z.div_mod_to_equations; lia).
  replace ((hour t + 24) mod 24) with (hour t) by (Z.div_mod_to_equations; lia).
  change (Nat.iter (Z.to_nat 1) next_day t) with (next_day t).
  f_equal. unfold next_day.
  destruct (_ <? _); [|destruct (_ <? _)]; reflexivity.
Qed.

(** C4. In the all-day step of [handleCalendar], a record with [forceAllDay]
    true and an end date that is a timestamp other than the start date gets
    the end date exactly 24 hours later; a record whose end date equals its
    start date is left as it is. *)
Theorem adjustAllDayEnd_spec (parsed : record) :
  (∀ endDate t,
     parsed !! §"forceAllDay" = Some (JBool true) →
     parsed !! §"endDate" = Some (JStr endDate) →
     strict_eq (parsed !! §"endDate") (parsed !! §"startDate") = false →
     parse_caltime endDate = Some t → valid_caltime t = true → year t < 9999 →
     ∃ endDate' t',
       adjustAllDayEnd parsed !! §"endDate" = Some (JStr endDate')
       ∧ parse_caltime endDate' = Some t'
       ∧ valid_caltime t' = true
       ∧ seconds_of t' = seconds_of t + 24 * 3600
       ∧ ∀ key, key ≠ §"endDate" → adjustAllDayEnd parsed !! key = parsed !! key)
  ∧ (strict_eq (parsed !! §"endDate") (parsed !! §"startDate") = true →
     adjustAllDayEnd parsed = parsed).
Proof.
  split.
  - intros endDate t Hf He Hne Hp Hv Hy.
    exists (format_caltime (next_day t)), (next_day t).
    assert (adjustAllDayEnd parsed
            = <[§"endDate" := JStr (format_caltime (next_day t))]> parsed) as ->.
    { unfold adjustAllDayEnd. rewrite Hne, Hf, He. cbn [truthy andb negb].
      assert (endDate ≠ []) as Hnil by (intros ->; done).
      rewrite bool_decide_eq_false_2 by done. cbn [negb].
      by rewrite (addHoursToCalDate_24 _ _ Hp Hv). }
    split_and!.
    + apply lookup_insert_eq.
    + apply parse_format_caltime. by apply next_day_valid.
    + by apply next_day_valid.
    + rewrite seconds_of_next_day by done. lia.
    + intros key Hk. by rewrite lookup_insert_ne.
  - intros Heq. unfold adjustAllDayEnd. rewrite Heq.
    by rewrite andb_false_r.
Qed.

Lemma adjustAllDayEnd_spec_witness :
  ∃ endDate' t',
    adjustAllDayEnd sample_event !! §"endDate" = Some (JStr endDate')
    ∧ parse_caltime endDate' = Some t'
    ∧ seconds_of t' =
      seconds_of {| year := 2026; month := 3; day := 6;
                    hour := 0; minute := 0; second := 0 |} + 24 * 3600.
Proof.
  destruct (adjustAllDayEnd_spec sample_event) as [H _].
  assert (H1 : sample_event !! §"forceAllDay" = Some (JBool true))
    by (vm_compute; reflexivity).
  assert (H2 : sample_event !! §"endDate" = Some (JStr §"20260306T000000"))
    by (vm_compute; reflexivity).
  assert (H3 : strict_eq (sample_event !! §"endDate") (sample_event !! §"startDate") = false)
    by (vm_compute; reflexivity).
  destruct (H §"20260306T000000"
              {| year := 2026; month := 3; day := 6; hour := 0; minute := 0; second := 0 |}
              H1 H2 H3 eq_refl eq_refl ltac:(simpl; lia))
    as (e' & t' & Ha & Hb & _ & Hc & _).
  exists e', t'. split; [exact Ha|]. split; [exact Hb | exact Hc].
Defined.

Example adjustAllDayEnd_multi_day :
  adjustAllDayEnd sample_event !! §"endDate" = Some (JStr §"20260307T000000").
Proof. vm_compute. reflexivity. Qed.

Example adjustAllDayEnd_single_day :
  adjustAllDayEnd
    (<[§"forceAllDay" := JBool true]>
      (<[§"endDate" := JStr §"20260315T000000"]>
        {[ §"startDate" := JStr §"20260315T000000" ]})) !! §"endDate"
  = Some (JStr §"20260315T000000").
Proof. vm_compute. reflexivity. Qed.

(** * Properties of the rest of the code *)

(** ** utils.js: what extractJSON returns *)

(** The loop of [extractJSON] stops at the brace that closes the [d] levels
    open when it starts: up to there the text is [d] balanced stretches,
    each followed by a closing brace. *)
Lemma scan_braces_Some s : ∀ i d e,
  scan_braces s i d = Some e → 1 ≤ d →
  ∃ segments rest,
    length segments = Z.to_nat d
    ∧ Forall balanced segments
    ∧ s = flat_map (λ b, b ++ ["}"%char]) segments ++ rest
    ∧ (e + 1 = i + length (flat_map (λ b, b ++ ["}"%char]) segments))%nat.
Proof.
  induction s as [|c s IH]; intros i d e; [done|]. cbn [scan_braces].
  destruct (Ascii.eqb_spec c "{") as [->|Hopen].
  - intros H Hd. destruct (IH _ _ _ H) as (segs & rest & Hlen & Hbal & -> & He); [lia|].
    destruct segs as [|b1 [|b2 segs]]; cbn [length] in Hlen; [lia..|].
    apply Forall_cons in Hbal as [Hb1 Hbal]. apply Forall_cons in Hbal as [Hb2 Hbal].
    exists (("{"%char :: b1 ++ "}"%char :: b2) :: segs), rest. split_and!.
    + cbn [length]. lia.
    + apply Forall_cons. split; [by apply balanced_nest|done].
    + cbn [flat_map app]. by rewrite <- !app_assoc.
    + cbn [flat_map] in *. rewrite !length_app in *. cbn [length] in *.
      rewrite !length_app in *. cbn [length] in *. lia.
  - destruct (Ascii.eqb_spec c "}") as [->|Hclose].
    + destruct (Z.eqb_spec (d - 1) 0) as [Hz|Hz].
      * intros [= <-] Hd. exists [[]], s. split_and!; cbn [length flat_map app].
        -- by replace d with 1 by lia.
        -- apply Forall_cons. split; [constructor|done].
        -- done.
        -- lia.
      * intros H Hd. destruct (IH _ _ _ H) as (segs & rest & Hlen & Hbal & -> & He); [lia|].
        exists ([] :: segs), rest. split_and!.
        -- cbn [length]. lia.
        -- apply Forall_cons. split; [constructor|done].
        -- done.
        -- cbn [flat_map app length]. lia.
    + intros H Hd. destruct (IH _ _ _ H) as (segs & rest & Hlen & Hbal & -> & He); [done|].
      destruct segs as [|b1 segs]; cbn [length] in Hlen; [lia|].
      apply Forall_cons in Hbal as [Hb1 Hbal].
      exists ((c :: b1) :: segs), rest. split_and!.
      * done.
      * apply Forall_cons. split; [|done]. apply balanced_char; [|done].
        rewrite is_brace_eqb. apply orb_false_iff.
        split; by apply Ascii.eqb_neq.
      * done.
      * cbn [flat_map app length] in *. lia.
Qed.

(** X1. When [extractJSON] returns, it returns a stretch of the text without
    its fences that begins at the first opening brace, ends with the brace
    that closes it and has matched braces in between. *)
Theorem extractJSON_returns_object (text span : jstring) :
  extractJSON text = OK span →
  ∃ pre body post,
    strip_fences text = pre ++ span ++ post
    ∧ ("{"%char ∉ pre)
    ∧ span = "{"%char :: body ++ ["}"%char]
    ∧ balanced body.
Proof.
  unfold extractJSON. destruct (indexOf "{" (strip_fences text)) as [start|] eqn:Ei; [|done].
  destruct (scan_braces _ _ _) as [e|] eqn:Es; [|done]. intros [= <-].
  apply indexOf_Some in Ei as (_ & Hat & Hbefore).
  set (fenced := strip_fences text) in *.
  assert (fenced = take start fenced ++ "{"%char :: drop (S start) fenced) as Hsplit.
  { rewrite <- (take_drop start fenced) at 1. f_equal. by apply drop_S. }
  rewrite (drop_S _ _ _ Hat) in Es. cbn [scan_braces] in Es.
  change (Ascii.eqb "{" "{") with true in Es. cbn iota in Es.
  apply scan_braces_Some in Es as (segs & rest & Hlen & Hbal & Hs & He); [|lia].
  destruct segs as [|body [|??]]; cbn [length] in Hlen; try (exfalso; lia || discriminate).
  apply Forall_cons in Hbal as [Hbal _]. cbn [flat_map] in Hs, He.
  rewrite app_nil_r in Hs, He. rewrite length_app in He. cbn [length] in He.
  assert (length (take start fenced) = start) as Hl
    by (apply lookup_lt_Some in Hat; rewrite length_take; lia).
  remember (take start fenced) as pre eqn:Hpre.
  assert (fenced = pre ++ ("{"%char :: body ++ ["}"%char]) ++ rest) as Hf.
  { rewrite Hsplit, Hs. cbn [app]. by rewrite <- app_assoc. }
  assert (slice start (e + 1) fenced = "{"%char :: body ++ ["}"%char]) as Hspan.
  { unfold slice. rewrite Hf.
    replace (e + 1 - start)%nat with (length ("{"%char :: body ++ ["}"%char]))
      by (cbn [length]; rewrite length_app; cbn [length]; lia).
    rewrite <- Hl. by rewrite drop_app_length, take_app_length. }
  exists pre, body, rest. rewrite Hspan. by split_and!.
Qed.

Lemma extractJSON_returns_object_witness :
  ∃ pre body post,
    strip_fences (§"Sure: " ++ quoted "{'a':{'b':1}}" ++ §" ok")
    = pre ++ quoted "{'a':{'b':1}}" ++ post
    ∧ ("{"%char ∉ pre)
    ∧ quoted "{'a':{'b':1}}" = "{"%char :: body ++ ["}"%char]
    ∧ balanced body.
Proof.
  apply (extractJSON_returns_object (§"Sure: " ++ quoted "{'a':{'b':1}}" ++ §" ok")).
  reflexivity.
Defined.

(** ** utils.js: normalizeCalDate on any string *)

Lemma replace_subseteq r (s : jstring) : replace r s ⊆ s.
Proof.
  unfold replace. destruct (replace_from_removes r s None) as (a & m & b & -> & -> & _).
  intros x. rewrite !elem_of_app. tauto.
Qed.

Lemma length_padEnd n c (s : jstring) : (length s ≤ n)%nat → length (padEnd n c s) = n.
Proof. intros H. unfold padEnd. rewrite length_app, length_replicate. lia. Qed.

(** X2. Whatever the string, [normalizeCalDate] returns at most eight
    characters without a [T], a [T] and exactly six characters, none of them a
    dash or a colon. *)
Theorem normalizeCalDate_shape (c : ascii) (s : jstring) :
  ∃ datePart timePart,
    normalizeCalDate (Some (JStr (c :: s)))
    = OK (Some (JStr (datePart ++ "T"%char :: timePart)))
    ∧ (length datePart ≤ 8)%nat
    ∧ length timePart = 6%nat
    ∧ ("T"%char ∉ datePart)
    ∧ ("-"%char ∉ datePart ++ timePart)
    ∧ (":"%char ∉ datePart ++ timePart).
Proof.
  unfold normalizeCalDate. cbn [truthy negb]. rewrite bool_decide_eq_false_2 by done.
  cbn [negb]. unfold normalizeCalDate_string.
  set (s0 := replaceAll re_colon (replaceAll re_dash (c :: s))).
  set (s1 := replace re_fraction (replace re_tz_offset (replace re_zulu s0))).
  assert (s1 ⊆ s0) as Hsub.
  { unfold s1. etrans; [apply replace_subseteq|]. etrans; apply replace_subseteq. }
  assert (("-"%char ∉ s1) ∧ (":"%char ∉ s1)) as [Hd Hc].
  { split; intros Hin%Hsub; unfold s0 in Hin; rewrite remove_dashes_colons in Hin;
      apply list_elem_of_filter in Hin as [[??] _]; congruence. }
  destruct (indexOf "T" s1) as [tIdx|] eqn:Ei.
  - apply indexOf_Some in Ei as (_ & _ & HT).
    eexists _, _. split; [reflexivity|]. unfold slice. rewrite !drop_0, !Nat.sub_0_r.
    split_and!.
    + rewrite length_take. lia.
    + apply length_padEnd. rewrite length_take. lia.
    + intros Hin%subseteq_take. done.
    + rewrite elem_of_app. intros [Hin|Hin].
      * apply Hd. do 2 apply subseteq_take in Hin. done.
      * unfold padEnd in Hin. rewrite elem_of_app in Hin. destruct Hin as [Hin|Hin].
        -- apply Hd. apply subseteq_take in Hin. by apply subseteq_drop in Hin.
        -- apply elem_of_replicate in Hin as [? _]. discriminate.
    + rewrite elem_of_app. intros [Hin|Hin].
      * apply Hc. do 2 apply subseteq_take in Hin. done.
      * unfold padEnd in Hin. rewrite elem_of_app in Hin. destruct Hin as [Hin|Hin].
        -- apply Hc. apply subseteq_take in Hin. by apply subseteq_drop in Hin.
        -- apply elem_of_replicate in Hin as [? _]. discriminate.
  - apply indexOf_None in Ei.
    exists (slice 0 8 s1), §"000000". split; [done|].
    unfold slice. rewrite drop_0, Nat.sub_0_r. split_and!.
    + rewrite length_take. lia.
    + done.
    + intros Hin%subseteq_take. done.
    + rewrite elem_of_app. intros [Hin%subseteq_take|Hin]; [done|].
      apply list_elem_of_In in Hin. cbn in Hin. intuition discriminate.
    + rewrite elem_of_app. intros [Hin%subseteq_take|Hin]; [done|].
      apply list_elem_of_In in Hin. cbn in Hin. intuition discriminate.
Qed.

(** ** utils.js: buildAttendeesHint and buildCategoryInstruction *)

(** X3. Every address [buildAttendeesHint] suggests is the author of the
    message, one of its recipients or the static address of the settings; an
    author or a static address that is empty is not suggested; and a source
    other than [from], [to], [static] and [none] gives the author followed by
    the recipients. *)
Theorem buildAttendeesHint_addresses (message : message) (source staticEmail : jstring) :
  (∀ x, x ∈ buildAttendeesHint message source staticEmail →
     (author message = Some x ∧ x ≠ [])
     ∨ x ∈ default [] (recipients message)
     ∨ (x = staticEmail ∧ x ≠ [] ∧ source = §"static"))
  ∧ (source ≠ §"from" → source ≠ §"to" → source ≠ §"static" → source ≠ §"none" →
       buildAttendeesHint message source staticEmail
       = buildAttendeesHint message §"from" staticEmail
         ++ buildAttendeesHint message §"to" staticEmail).
Proof.
  assert (∀ x, x ∈ (if truthy (JStr <$> author message)
                    then [default [] (author message)] else [])
               → author message = Some x ∧ x ≠ []) as Hauthor.
  { intros x. destruct (author message) as [a|]; cbn [fmap option_fmap option_map truthy];
      [|by intros ?%elem_of_nil].
    case_bool_decide as E; cbn [negb default]; [by intros ?%elem_of_nil|].
    by intros ->%list_elem_of_singleton. }
  split.
  - intros x. unfold buildAttendeesHint.
    repeat case_bool_decide; subst.
    + intros Hx. left. by apply Hauthor.
    + intros Hx. right; by left.
    + cbn [truthy]. case_bool_decide as E; cbn [negb]; [by intros ?%elem_of_nil|].
      intros ->%list_elem_of_singleton. right; right. done.
    + by intros ?%elem_of_nil.
    + rewrite elem_of_app. intros [Hx|Hx]; [left; by apply Hauthor|right; by left].
  - intros H1 H2 H3 H4. unfold buildAttendeesHint.
    rewrite !(bool_decide_eq_false_2 (source = _)) by done.
    rewrite (bool_decide_eq_true_2 (§"from" = §"from")) by done.
    rewrite (bool_decide_eq_false_2 (§"to" = §"from")) by done.
    by rewrite (bool_decide_eq_true_2 (§"to" = §"to")) by done.
Qed.

Lemma buildAttendeesHint_addresses_witness :
  let m := {| author := Some §"alice@example.com";
              recipients := Some [§"bob@example.com"; §"carol@example.com"];
              subject := None |} in
  buildAttendeesHint m §"unknown" [] =
  buildAttendeesHint m §"from" [] ++ buildAttendeesHint m §"to" [].
Proof.
  cbn zeta. by eapply buildAttendeesHint_addresses.
Defined.

Lemma startsWith_app w s : startsWith w (w ++ s) = true.
Proof.
  induction w as [|c w IH]; [done|]. cbn [app startsWith].
  by rewrite Ascii.eqb_refl, IH.
Qed.

Lemma includes_startsWith w s : startsWith w s = true → includes w s = true.
Proof. intros H. destruct s; cbn [includes]; by rewrite H. Qed.

Lemma includes_app w a b : includes w (a ++ w ++ b) = true.
Proof.
  induction a as [|x a IH]; cbn [app].
  - apply includes_startsWith, startsWith_app.
  - cbn [includes]. by rewrite IH, orb_true_r.
Qed.

Lemma join_cons sep x l : l ≠ [] → join sep (x :: l) = x ++ sep ++ join sep l.
Proof. by destruct l. Qed.

Lemma includes_join sep (x : jstring) l : x ∈ l → ∃ a b, join sep l = a ++ x ++ b.
Proof.
  induction l as [|y l IH]; [by intros ?%elem_of_nil|].
  intros [->|Hin]%elem_of_cons.
  - destruct l as [|z l]; [exists [], []; by rewrite app_nil_r|].
    exists [], (sep ++ join sep (z :: l)). done.
  - destruct (IH Hin) as (a & b & E). destruct l as [|z l]; [by apply elem_of_nil in Hin|].
    rewrite join_cons by done. rewrite E.
    exists (y ++ sep ++ a), b. by rewrite <- !app_assoc.
Qed.

Lemma includes_app_r w p s : includes w s = true → includes w (p ++ s) = true.
Proof.
  intros H. induction p as [|x p IH]; [done|]. cbn [app includes].
  by rewrite IH, orb_true_r.
Qed.

Lemma startsWith_app_l w s t : startsWith w s = true → startsWith w (s ++ t) = true.
Proof.
  revert s. induction w as [|c w IH]; intros [|x s]; cbn [app startsWith]; try done.
  intros [-> H]%andb_true_iff. by rewrite (IH _ H).
Qed.

Lemma includes_app_l w s t : includes w s = true → includes w (s ++ t) = true.
Proof.
  induction s as [|x s IH]; cbn [app includes].
  - rewrite orb_false_r. intros H. apply includes_startsWith.
    by apply (startsWith_app_l w [] t).
  - intros [H|H]%orb_true_iff.
    + pose proof (startsWith_app_l w (x :: s) t H) as H'. cbn [app] in H'.
      by rewrite H'.
    + by rewrite IH, orb_true_r.
Qed.

(** X4. Without categories, [null] or an empty list,
    [buildCategoryInstruction] adds nothing to the prompt; with categories the
    instruction names every one of them and the line asking for a category is
    there. *)
Theorem buildCategoryInstruction_names (categories : option (list jstring)) :
  (default [] categories = [] →
     buildCategoryInstruction categories = {| instruction := []; jsonLine := [] |})
  ∧ (∀ name, name ∈ default [] categories →
       includes name (instruction (buildCategoryInstruction categories)) = true
       ∧ includes §"category" (jsonLine (buildCategoryInstruction categories)) = true).
Proof.
  split.
  - destruct categories as [[|??]|]; [done| |done]. done.
  - intros name Hin. destruct categories as [[|c cs]|]; cbn [default] in Hin;
      [by apply elem_of_nil in Hin| |by apply elem_of_nil in Hin].
    split; [|reflexivity].
    destruct (includes_join §", " name (c :: cs) Hin) as (a & b & E).
    unfold buildCategoryInstruction. cbn [instruction]. rewrite E.
    do 3 apply includes_app_r. apply includes_app_l, includes_app.
Qed.

Lemma buildCategoryInstruction_names_witness :
  includes §"Work" (instruction (buildCategoryInstruction (Some [§"Family"; §"Work"])))
  = true.
Proof.
  apply (buildCategoryInstruction_names (Some [§"Family"; §"Work"])).
  apply elem_of_cons. right. apply elem_of_cons. by left.
Defined.

(** ** background.js: the normalizers on values that are no dates *)

Lemma normalizeCalDate_normalizable v :
  normalizable v = true → ∃ v', normalizeCalDate v = OK v'.
Proof.
  unfold normalizeCalDate, normalizable.
  destruct (truthy v); cbn [negb orb]; [|by eauto].
  destruct v as [[| | |s| |]|]; by eauto.
Qed.

Lemma normalizeCalDate_not_normalizable v :
  normalizable v = false → normalizeCalDate v = Throw TypeError.
Proof.
  unfold normalizeCalDate, normalizable.
  destruct (truthy v); cbn [negb orb]; [|done].
  by destruct v as [[| | |s| |]|].
Qed.

(** X5. [normalizeCalendarData] fails exactly when [startDate] or [endDate] is
    a truthy value that is no string (a number, [true], an array, an object),
    and then with a TypeError; when it returns, every key other than
    [startDate], [endDate] and [forceAllDay] holds what it held. *)
Theorem normalizeCalendarData_outcome (data : record) :
  (normalizable (data !! §"startDate") && normalizable (data !! §"endDate") = true →
     ∃ data', normalizeCalendarData data = OK data'
              ∧ ∀ k, k ≠ §"startDate" → k ≠ §"endDate" → k ≠ §"forceAllDay" →
                     data' !! k = data !! k)
  ∧ (normalizable (data !! §"startDate") && normalizable (data !! §"endDate") = false →
       normalizeCalendarData data = Throw TypeError).
Proof.
  split.
  - intros [H1 H2]%andb_true_iff.
    apply normalizeCalDate_normalizable in H1 as [v1 E1].
    apply normalizeCalDate_normalizable in H2 as [v2 E2].
    eexists. split; [apply normalizeCalendarData_OK; eauto|].
    intros k Hs He Hf. rewrite lookup_insert_ne by done.
    by rewrite !assign_lookup_ne.
  - intros H. unfold normalizeCalendarData. rewrite !normalize_field_bind.
    destruct (normalizable (data !! §"startDate")) eqn:N1.
    + destruct (normalizeCalDate_normalizable _ N1) as [v1 E1].
      rewrite E1. cbn [mbind result_bind]. rewrite normalize_field_bind.
      rewrite assign_lookup_ne by done.
      by rewrite (normalizeCalDate_not_normalizable (data !! §"endDate")).
    + by rewrite (normalizeCalDate_not_normalizable (data !! §"startDate")).
Qed.

Lemma normalizeCalendarData_outcome_witness :
  normalizeCalendarData sample_bad_event = Throw TypeError
  ∧ ∃ data', normalizeCalendarData sample_event = OK data'.
Proof.
  split.
  - destruct (normalizeCalendarData_outcome sample_bad_event) as (_ & H).
    apply H. vm_compute. reflexivity.
  - destruct (normalizeCalendarData_outcome sample_event) as (H & _).
    destruct H as (data' & H & _); [vm_compute; reflexivity|]. by exists data'.
Defined.

(** X6. [normalizeTaskData] fails exactly when [dueDate], [initialDate] or
    [InitialDate] is a truthy value that is no string, and then with a
    TypeError; when it returns, every key other than these three holds what it
    held. *)
Theorem normalizeTaskData_outcome (data : record) :
  (normalizable (data !! §"dueDate") && normalizable (data !! §"initialDate")
   && normalizable (data !! §"InitialDate") = true →
     ∃ data', normalizeTaskData data = OK data'
              ∧ ∀ k, k ≠ §"dueDate" → k ≠ §"initialDate" → k ≠ §"InitialDate" →
                     data' !! k = data !! k)
  ∧ (normalizable (data !! §"dueDate") && normalizable (data !! §"initialDate")
     && normalizable (data !! §"InitialDate") = false →
       normalizeTaskData data = Throw TypeError).
Proof.
  split.
  - intros [[H1 H2]%andb_true_iff H3]%andb_true_iff.
    apply normalizeCalDate_normalizable in H1 as [v1 E1].
    apply normalizeCalDate_normalizable in H2 as [v2 E2].
    apply normalizeCalDate_normalizable in H3 as [v3 E3].
    destruct (truthy (data !! §"InitialDate")) eqn:T.
    + eexists. split.
      * apply normalizeTaskData_OK. exists v1, v2. rewrite T. split_and!; [done..|].
        by exists v3.
      * intros k Hd Hi HI. rewrite lookup_delete_ne by done.
        by rewrite !assign_lookup_ne.
    + eexists. split.
      * apply normalizeTaskData_OK. exists v1, v2. rewrite T. by split_and!.
      * intros k Hd Hi HI. by rewrite !assign_lookup_ne.
  - intros H. unfold normalizeTaskData. rewrite !normalize_field_bind.
    destruct (normalizable (data !! §"dueDate")) eqn:N1;
      [|by rewrite (normalizeCalDate_not_normalizable (data !! §"dueDate"))].
    destruct (normalizeCalDate_normalizable _ N1) as [v1 E1].
    rewrite E1. cbn [mbind result_bind]. rewrite normalize_field_bind.
    rewrite assign_lookup_ne by done.
    destruct (normalizable (data !! §"initialDate")) eqn:N2;
      [|by rewrite (normalizeCalDate_not_normalizable (data !! §"initialDate"))].
    destruct (normalizeCalDate_normalizable _ N2) as [v2 E2].
    rewrite E2. cbn [mbind result_bind]. rewrite !assign_lookup_ne by done.
    cbn [andb] in H.
    destruct (truthy (data !! §"InitialDate")) eqn:T.
    + by rewrite normalizeCalDate_not_normalizable.
    + unfold normalizable in H. by rewrite T in H.
Qed.

Lemma normalizeTaskData_outcome_witness :
  normalizeTaskData (<[§"InitialDate" := JBool true]> sample_task) = Throw TypeError
  ∧ ∃ data', normalizeTaskData sample_task = OK data'.
Proof.
  split.
  - destruct (normalizeTaskData_outcome (<[§"InitialDate" := JBool true]> sample_task))
      as (_ & H).
    apply H. vm_compute. reflexivity.
  - destruct (normalizeTaskData_outcome sample_task) as (H & _).
    destruct H as (data' & H & _); [vm_compute; reflexivity|]. by exists data'.
Defined.

(** ** background.js: the address callOllama requests *)

Lemma end_anchored_trailing_slash : end_anchored re_trailing_slash slash_shape.
Proof.
  intros prev x. unfold match_here, re_trailing_slash, slash_shape. cbn [rmatch].
  destruct x as [|c [|c' x]]; [done| |].
  - unfold is_char. destruct (Ascii.eqb_spec "/" c) as [<-|Hne].
    + cbn [length]. by rewrite bool_decide_eq_true_2.
    + rewrite bool_decide_eq_false_2; [done|]. intros [= ->]. done.
  - rewrite bool_decide_eq_false_2 by done. by destruct (is_char "/" c).
Qed.

Lemma replace_trailing_slash s :
  replace re_trailing_slash s = strip_last 1 slash_shape s.
Proof.
  apply replace_from_strip_last; [apply end_anchored_trailing_slash|].
  intros x Hx. unfold slash_shape in Hx. by apply bool_decide_eq_true in Hx as ->.
Qed.

Lemma replace_trailing_slash_hit s : replace re_trailing_slash (s ++ §"/") = s.
Proof. rewrite replace_trailing_slash. by apply strip_last_hit. Qed.

Lemma replace_trailing_slash_miss s :
  last s ≠ Some "/"%char → replace re_trailing_slash s = s.
Proof.
  intros H. rewrite replace_trailing_slash. apply strip_last_miss.
  unfold slash_shape. apply bool_decide_eq_false_2. intros E. apply H.
  rewrite <- (take_drop (length s - 1) s), E. exact (last_snoc _ _).
Qed.



(** ** background.js: callOllamaWithNotification and the report of a failure *)

Ltac elem_of_effects :=
  rewrite ?elem_of_app, ?elem_of_cons, ?elem_of_nil; naive_solver.

(** X8. What [callOllamaWithNotification] does around the request. A request
    is sent only to a valid host and, with the preview switched on, only after
    the preview was accepted; the progress notification is cleared whenever it
    was shown; and an object is returned only if one request was answered with
    an [ok] status and a body whose [response] is a string, out of which
    [extractJSON] took the text that was parsed. *)
Theorem callOllamaWithNotification_effects (fetch : request → fetch_outcome)
    (preview : jstring → result unit) (JSON_parse : jstring → result json)
    (host model prompt actionLabel : jstring) (settings : option settings) :
  let run := callOllamaWithNotification fetch preview JSON_parse
               host model prompt actionLabel settings in
  (∀ req, Requested req ∈ run.1 →
     isValidHostUrl host = true
     ∧ (∀ s, settings = Some s → debugPromptPreview s = true → preview prompt = OK ()))
  ∧ (ThinkingShown model actionLabel ∈ run.1 ↔ ThinkingCleared ∈ run.1)
  ∧ (∀ e s, settings = Some s → debugPromptPreview s = true → preview prompt = Throw e →
       run = ([PreviewShown prompt], Throw e))
  ∧ (∀ j, run.2 = OK j →
       ∃ req status body data text span,
         Requested req ∈ run.1
         ∧ fetch req = Responded true status body (OK data)
         ∧ response_of data = OK (Some (JStr text))
         ∧ extractJSON text = OK span
         ∧ JSON_parse span = OK j).
Proof.
  cbn zeta. unfold callOllamaWithNotification.
  set (previewed := match settings with Some s => debugPromptPreview s | None => false end).
  assert (∀ s, settings = Some s → debugPromptPreview s = true → previewed = true) as Hprev.
  { intros s -> Hs. done. }
  destruct (if previewed then preview prompt else OK ()) as [[]|e] eqn:Ep.
  - unfold callOllama. destruct (isValidHostUrl host) eqn:Ev; cbn [negb fst snd map app].
    + split_and!.
      * intros req _. split; [done|]. intros s Hs Hd. by rewrite (Hprev s Hs Hd) in Ep.
      * split; intros _; elem_of_effects.
      * intros e s Hs Hd He. rewrite (Hprev s Hs Hd), He in Ep. done.
      * intros j Hj.
        match type of Hj with context [fetch ?r] => set (req := r) in * end.
        destruct (fetch req) as [|e|ok status text data] eqn:Ef; try done.
        destruct ok; [|done]. cbn [negb] in Hj.
        destruct data as [data|e]; [|done]. cbn [mbind result_bind] in Hj.
        destruct (response_of data) as [raw|e] eqn:Er; [|done].
        cbn [mbind result_bind] in Hj.
        destruct raw as [[| | |t| |]|]; try done. cbn [extractJSON_value] in Hj.
        destruct (extractJSON t) as [span|e] eqn:Ex; [|done].
        cbn [mbind result_bind] in Hj.
        exists req, status, text, data, t, span. split_and!; try done.
        elem_of_effects.
    + split_and!.
      * intros req Hin. exfalso. destruct previewed; cbn [app] in Hin;
          repeat (apply elem_of_cons in Hin as [Hin|Hin]; [discriminate|]);
          by apply elem_of_nil in Hin.
      * split; intros _; elem_of_effects.
      * intros e s Hs Hd He. rewrite (Hprev s Hs Hd), He in Ep. done.
      * done.
  - destruct previewed eqn:P; [|done]. cbn [fst snd]. split_and!.
    + intros req Hin. apply list_elem_of_singleton in Hin. discriminate.
    + split; intros Hin; apply list_elem_of_singleton in Hin; discriminate.
    + intros e' s Hs Hd He. by rewrite He in Ep; injection Ep as ->.
    + done.
Qed.

Lemma callOllamaWithNotification_effects_witness :
  callOllamaWithNotification (λ _, Aborted) (λ _, Throw (JsError §"Prompt cancelled by user."))
    (λ _, Throw TypeError) DEFAULT_HOST §"mistral:7b" §"Hello" §"draft a reply"
    (Some {| ollamaHost := DEFAULT_HOST; ollamaModel := §"mistral:7b";
             attendeesSource := §"from_to"; attendeesStatic := [];
             defaultCalendar := []; descriptionFormat := §"body";
             taskDescriptionFormat := §"body"; taskDefaultDue := §"none";
             calendarUseCategory := false; taskUseCategory := false;
             replyMode := §"replyToSender"; contactAddressBook := [];
             debugPromptPreview := true |})
  = ([PreviewShown §"Hello"], Throw (JsError §"Prompt cancelled by user.")).
Proof.
  eapply callOllamaWithNotification_effects; reflexivity.
Defined.

(** X9. Whatever [extractJSON] throws is reported as a parse error; the time-
    out of [callOllama] is reported with its own message. *)
Theorem extractJSON_failure_reported (text : jstring) (e : error) :
  extractJSON text = Throw e →
  ∃ message, e = JsError message
    ∧ report_failure (Some message)
      = (§"Parse error",
         Some §"Model returned invalid JSON. Check the browser console for details.")
    ∧ report_failure (Some §"Ollama request timed out after 60 seconds.")
      = (§"Error", Some §"Ollama request timed out after 60 seconds.").
Proof.
  unfold extractJSON. destruct (indexOf _ _); [destruct (scan_braces _ _ _); [done|]|];
    intros [= <-]; eexists; (split; [reflexivity|]); split; reflexivity.
Qed.

Lemma extractJSON_failure_reported_witness :
  ∃ message, NoJsonFound = JsError message
    ∧ report_failure (Some message)
      = (§"Parse error",
         Some §"Model returned invalid JSON. Check the browser console for details.")
    ∧ report_failure (Some §"Ollama request timed out after 60 seconds.")
      = (§"Error", Some §"Ollama request timed out after 60 seconds.").
Proof.
  apply (extractJSON_failure_reported §"no braces here"). reflexivity.
Defined.

(** X26. When the server answers with an [ok] status and a JSON body that
    holds no string under [response] (the key is missing, its value is no
    string, or the body is [null] or no object at all),
    [callOllamaWithNotification] throws a TypeError: [extractJSON] is handed
    a value without [replace], and the parser is never reached. *)
Theorem callOllamaWithNotification_no_response (fetch : request → fetch_outcome)
    (preview : jstring → result unit) (JSON_parse : jstring → result json)
    (host model prompt actionLabel : jstring) (settings : option settings)
    (status : Z) (body : jstring) (data : json) :
  isValidHostUrl host = true →
  (∀ s, settings = Some s → debugPromptPreview s = true → preview prompt = OK ()) →
  (∀ req, fetch req = Responded true status body (OK data)) →
  (∀ text, response_of data ≠ OK (Some (JStr text))) →
  (callOllamaWithNotification fetch preview JSON_parse host model prompt actionLabel
     settings).2 = Throw TypeError.
Proof.
  intros Hhost Hpreview Hfetch Hdata. unfold callOllamaWithNotification.
  assert ((if match settings with Some s => debugPromptPreview s | None => false end
           then preview prompt else OK ()) = OK ()) as ->.
  { destruct settings as [s|]; [|done].
    destruct (debugPromptPreview s) eqn:E; [by apply (Hpreview s)|done]. }
  unfold callOllama. rewrite Hhost. cbn [negb snd]. rewrite Hfetch. cbn [negb].
  cbn [mbind result_bind].
  destruct (response_of data) as [[[| | |text| |]|]|e] eqn:Er; cbn [mbind result_bind];
    try done.
  - by destruct (Hdata text).
  - destruct data; cbn [response_of] in Er; congruence.
Qed.

Lemma callOllamaWithNotification_no_response_witness :
  (callOllamaWithNotification
     (λ _, Responded true 200 [] (OK (JObj [(§"error", JStr §"model not found")])))
     (λ _, OK ()) (λ _, Throw TypeError) DEFAULT_HOST §"mistral:7b" §"Hello"
     §"draft a reply" None).2 = Throw TypeError.
Proof.
  apply (callOllamaWithNotification_no_response _ _ _ _ _ _ _ _ 200 []
           (JObj [(§"error", JStr §"model not found")])); try done.
Defined.

(** ** background.js: the reference year of handleCalendar *)

Lemma parseInt_digits ds :
  all_digits ds = true → ds ≠ [] → parseInt ds = digits_value 0 ds.
Proof.
  intros Hd Hne. unfold parseInt. destruct ds as [|c ds]; [done|].
  cbn [all_digits forallb] in Hd. apply andb_true_iff in Hd as [Hc Hd].
  cbn [drop_while].
  assert (is_space c = false) as -> by (revert Hc; ascii_cases c).
  assert (Ascii.eqb c "-" = false) as -> by (revert Hc; ascii_cases c).
  assert (Ascii.eqb c "+" = false) as -> by (revert Hc; ascii_cases c).
  assert (take_digits (c :: ds) = c :: ds) as ->.
  { cbn [take_digits]. rewrite Hc. f_equal.
    induction ds as [|x ds IH]; [done|]. cbn [forallb] in Hd.
    apply andb_true_iff in Hd as [Hx Hd]. cbn [take_digits]. rewrite Hx. f_equal. auto. }
  destruct (digits_value 0 (c :: ds)); cbn; [f_equal; lia|done].
Qed.

Lemma slice_last_app (prefix s : jstring) n :
  length s = n → slice_last n (prefix ++ s) = s.
Proof.
  intros <-. unfold slice_last. rewrite length_app.
  replace (length prefix + length s - length s)%nat with (length prefix) by lia.
  by rewrite drop_app_length.
Qed.

(** X10. The reference year is read off the last four characters of the
    current date. After a date that ends with its year, as [02/20/2026], it is
    that year; after a date and time that ends with minutes and seconds, as
    [02/20/2026, 14:35:00], it is the last digit of the minutes. *)
Theorem refYear_reads_last_four (prefix : jstring) :
  (∀ yyyy, length yyyy = 4%nat → all_digits yyyy = true →
     refYear (prefix ++ yyyy) = digits_value 0 yyyy)
  ∧ (∀ m s1 s2, is_digit m = true →
       refYear (prefix ++ [m; ":"%char; s1; s2]) = Some (Z.of_N (code m - 48))
       ∧ 0 ≤ Z.of_N (code m - 48) ≤ 9).
Proof.
  split.
  - intros yyyy Hl Hd. unfold refYear. rewrite slice_last_app by done.
    apply parseInt_digits; [done|]. by destruct yyyy.
  - intros m s1 s2 Hm. unfold refYear. rewrite slice_last_app by done.
    split.
    + unfold parseInt. cbn [drop_while].
      assert (is_space m = false) as -> by (revert Hm; ascii_cases m).
      assert (Ascii.eqb m "-" = false) as -> by (revert Hm; ascii_cases m).
      assert (Ascii.eqb m "+" = false) as -> by (revert Hm; ascii_cases m).
      cbn [take_digits]. rewrite Hm. change (is_digit ":") with false. cbn iota.
      cbn [digits_value]. rewrite Hm. cbn [fmap option_fmap option_map]. f_equal. lia.
    + revert Hm. ascii_cases m.
Qed.

Lemma refYear_reads_last_four_witness :
  refYear §"02/20/2026" = Some 2026 ∧ refYear §"02/20/2026, 14:35:00" = Some 5.
Proof.
  split.
  - destruct (refYear_reads_last_four §"02/20/") as [H _].
    apply (H §"2026"); reflexivity.
  - destruct (refYear_reads_last_four §"02/20/2026, 14:3") as [_ H].
    apply (H "5"%char "0"%char "0"%char). reflexivity.
Defined.

(** ** background.js: description, attendees and due date of the record *)

Lemma string_or_Some (s w : jstring) :
  string_or (Some s) w = if bool_decide (s = []) then w else s.
Proof.
  unfold string_or. cbn [fmap option_fmap option_map truthy default].
  by case_bool_decide.
Qed.

Lemma string_or_empty (s : jstring) : (if bool_decide (s = []) then [] else s) = s.
Proof. by case_bool_decide. Qed.

Lemma apply_description_lookup_ne (format emailBody author subject : jstring)
    (parsed : record) k :
  k ≠ §"description" →
  apply_description format emailBody author subject parsed !! k = parsed !! k.
Proof.
  intros Hk. unfold apply_description. case_bool_decide.
  - destruct (negb _); [by rewrite lookup_insert_ne|done].
  - destruct (truthy _); [by rewrite assign_lookup_ne|done].
Qed.

(** X11. The description the dialog gets. With the format [none] the record is
    left as the model gave it; with [ai_summary] the description of the model
    is kept, the subject standing in for a missing one; with any other format
    and a body that is not empty the description is put together from the
    message and ends with the whole body, whatever the model wrote. No other
    key of the record is touched. *)
Theorem apply_description_spec (format emailBody author subject : jstring)
    (parsed : record) :
  let out := apply_description format emailBody author subject parsed in
  (∀ k, k ≠ §"description" → out !! k = parsed !! k)
  ∧ (format = §"none" → out = parsed)
  ∧ (format = §"ai_summary" →
       out !! §"description"
       = if truthy (parsed !! §"description") then parsed !! §"description"
         else Some (JStr subject))
  ∧ (format ≠ §"none" → format ≠ §"ai_summary" → emailBody ≠ [] →
       ∃ header, out !! §"description" = Some (JStr (header ++ emailBody))
                 ∧ Some (header ++ emailBody)
                   = buildDescription emailBody author subject format
                 ∧ (format = §"body" → header = [])).
Proof.
  cbn zeta. unfold apply_description. split_and!.
  - intros k Hk. by apply apply_description_lookup_ne.
  - intros ->. rewrite bool_decide_eq_false_2 by done. reflexivity.
  - intros ->. rewrite bool_decide_eq_true_2 by done.
    destruct (truthy (parsed !! §"description")); cbn [negb]; [done|].
    by rewrite lookup_insert_eq.
  - intros H1 H2 Hb. rewrite (bool_decide_eq_false_2 _ H2).
    unfold buildDescription. rewrite (bool_decide_eq_false_2 _ H1).
    case_bool_decide as Ef.
    + exists []. cbn [fmap option_fmap option_map truthy app].
      rewrite (bool_decide_eq_false_2 _ Hb). cbn [negb assign].
      by rewrite lookup_insert_eq.
    + exists (§"From: " ++ author ++ [LF] ++ §"Subject: " ++ subject ++ [LF; LF]).
      cbn [fmap option_fmap option_map truthy].
      rewrite bool_decide_eq_false_2 by (by destruct author).
      cbn [negb assign]. rewrite lookup_insert_eq.
      split_and!; [|by rewrite <- !app_assoc|done].
      by rewrite <- !app_assoc.
Qed.

Lemma apply_description_spec_witness :
  apply_description §"body" §"See you at noon." §"alice@example.com" §"Lunch"
    {[ §"description" := JStr §"A lunch." ]} !! §"description"
  = Some (JStr §"See you at noon.").
Proof.
  destruct (apply_description_spec §"body" §"See you at noon." §"alice@example.com"
              §"Lunch" {[ §"description" := JStr §"A lunch." ]}) as (_ & _ & _ & H).
  destruct H as (header & H & _ & Hh); [discriminate..|].
  rewrite H, (Hh eq_refl). reflexivity.
Defined.

(** X12. With the source [static] or [none] the attendees of the event are the
    ones [buildAttendeesHint] gives, whatever the model answered; with any
    other source they are the ones the model answered. The calendar is the
    default calendar of the settings when one is set. *)
Theorem handleCalendar_finish_attendees (settings : settings) (message : message)
    (emailBody : jstring) (parsed : record) :
  let out := handleCalendar_finish settings message emailBody parsed in
  let source := attendeesSource settings in
  ((source = §"static" ∨ source = §"none") →
     out !! §"attendees"
     = Some (JArr (JStr <$> buildAttendeesHint message source (attendeesStatic settings))))
  ∧ (source ≠ §"static" → source ≠ §"none" →
       out !! §"attendees" = parsed !! §"attendees")
  ∧ (defaultCalendar settings ≠ [] →
       out !! §"calendar_name" = Some (JStr (defaultCalendar settings)))
  ∧ (defaultCalendar settings = [] →
       out !! §"calendar_name" = parsed !! §"calendar_name").
Proof.
  cbn zeta. unfold handleCalendar_finish.
  set (described := apply_description _ _ _ _ parsed).
  assert (∀ k, k ≠ §"description" → described !! k = parsed !! k) as Hdesc.
  { intros k Hk. by apply apply_description_lookup_ne. }
  assert (∀ r : record, ∀ k, k ≠ §"endDate" → adjustAllDayEnd r !! k = r !! k) as Hadj.
  { intros r k Hk. unfold adjustAllDayEnd. destruct (_ && _); [|done].
    destruct (r !! §"endDate") as [[| | |e| |]|]; try done. by rewrite lookup_insert_ne. }
  rewrite !string_or_Some. rewrite !(string_or_empty (_ settings)).
  split_and!.
  - intros [E|E]; rewrite E; rewrite Hadj by done; unfold apply_calendar_settings.
    + rewrite (bool_decide_eq_false_2 (§"static" = [])) by done.
      rewrite bool_decide_eq_true_2 by done. rewrite lookup_insert_eq.
      unfold buildAttendeesHint. rewrite !bool_decide_eq_false_2 by done.
      rewrite bool_decide_eq_true_2 by done. by destruct (truthy _).
    + rewrite (bool_decide_eq_false_2 (§"none" = [])) by done.
      rewrite bool_decide_eq_false_2 by done. rewrite bool_decide_eq_true_2 by done.
      by rewrite lookup_insert_eq.
  - intros H1 H2. rewrite Hadj by done. unfold apply_calendar_settings.
    destruct (bool_decide (attendeesSource settings = []));
      rewrite !(bool_decide_eq_false_2 (_ = §"static")), !(bool_decide_eq_false_2 (_ = §"none"))
        by done;
      (destruct (truthy _); [rewrite lookup_insert_ne by done|]; by apply Hdesc).
  - intros Hc. rewrite Hadj by done. unfold apply_calendar_settings.
    cbn [truthy]. rewrite (bool_decide_eq_false_2 (defaultCalendar settings = [])) by done.
    cbn [negb].
    repeat case_bool_decide; try done; rewrite ?lookup_insert_ne by done;
      by rewrite lookup_insert_eq.
  - intros Hc. rewrite Hadj by done. unfold apply_calendar_settings.
    rewrite Hc. cbn [truthy negb]. rewrite (bool_decide_eq_true_2 ([] = [])) by done.
    cbn [negb].
    repeat case_bool_decide; try done; rewrite ?lookup_insert_ne by done; by apply Hdesc.
Qed.

Lemma handleCalendar_finish_attendees_witness :
  handleCalendar_finish sample_settings sample_message §"See you at noon."
    (<[§"attendees" := JArr [JStr §"mallory@example.com"]]> sample_event)
    !! §"attendees"
  = Some (JArr [JStr §"team@example.com"]).
Proof.
  destruct (handleCalendar_finish_attendees sample_settings sample_message
              §"See you at noon."
              (<[§"attendees" := JArr [JStr §"mallory@example.com"]]> sample_event))
    as (H & _).
  rewrite H; [reflexivity|]. by left.
Defined.

Lemma Z_to_jstring_4_digits y : 1000 ≤ y ≤ 9999 → Z_to_jstring y = pad_digits 4 y.
Proof.
  intros Hy.
  assert (forallb (λ y, bool_decide (Z_to_jstring y = pad_digits 4 y)) (seqZ 1000 9000) = true)
    as H by (vm_compute; reflexivity).
  rewrite forallb_forall in H. specialize (H y).
  apply bool_decide_eq_true in H; [done|].
  apply list_elem_of_In, elem_of_seqZ. lia.
Qed.

Lemma Z_to_jstring_2_digits m :
  0 ≤ m ≤ 99 → padStart 2 "0" (Z_to_jstring m) = pad_digits 2 m.
Proof.
  intros Hm.
  assert (forallb (λ m, bool_decide (padStart 2 "0" (Z_to_jstring m) = pad_digits 2 m))
            (seqZ 0 100) = true)
    as H by (vm_compute; reflexivity).
  rewrite forallb_forall in H. specialize (H m).
  apply bool_decide_eq_true in H; [done|].
  apply list_elem_of_In, elem_of_seqZ. lia.
Qed.

Lemma next_day_year t : year t ≤ year (next_day t) ≤ year t + 1.
Proof. unfold next_day. destruct (_ <? _); [|destruct (_ <? _)]; cbn; lia. Qed.

Lemma next_day_time t :
  hour (next_day t) = hour t ∧ minute (next_day t) = minute t
  ∧ second (next_day t) = second t.
Proof. unfold next_day. by destruct (_ <? _); [|destruct (_ <? _)]. Qed.

Lemma iter_next_day t : ∀ k : nat,
  valid_caltime t = true → year t + Z.of_nat k ≤ 9999 →
  let t' := Nat.iter k next_day t in
  valid_caltime t' = true
  ∧ day_number t' = day_number t + Z.of_nat k
  ∧ year t ≤ year t' ≤ year t + Z.of_nat k.
Proof.
  induction k as [|k IH]; intros Hv Hy; cbn zeta.
  - change (Nat.iter 0 next_day t) with t. split_and!; [done|lia..].
  - change (Nat.iter (S k) next_day t) with (next_day (Nat.iter k next_day t)).
    destruct IH as (IH1 & IH2 & IH3); [done|lia|].
    pose proof (next_day_year (Nat.iter k next_day t)).
    split_and!.
    + apply next_day_valid; [done|lia].
    + rewrite day_number_next_day by done. lia.
    + lia.
    + lia.
Qed.

(** X13. The due date [handleTask] falls back on. With a setting that reads as
    the number [n] of days it is a canonical timestamp, the day [n] days after
    today at noon, and [normalizeCalDate] leaves it as it is; with a setting
    that is no number it is no timestamp. *)
Theorem default_due_date_spec (now : caltime) (taskDefaultDue : jstring) :
  valid_caltime now = true → 1000 ≤ year now →
  (∀ n, parseInt taskDefaultDue = Some n → 0 ≤ n → year now + n ≤ 9999 →
     ∃ due, parse_caltime (default_due_date now taskDefaultDue) = Some due
            ∧ valid_caltime due = true
            ∧ day_number due = day_number now + n
            ∧ hour due = 12 ∧ minute due = 0 ∧ second due = 0
            ∧ normalizeCalDate (Some (JStr (default_due_date now taskDefaultDue)))
              = OK (Some (JStr (default_due_date now taskDefaultDue))))
  ∧ (parseInt taskDefaultDue = None →
       canonical (default_due_date now taskDefaultDue) = false).
Proof.
  intros Hv Hy. split.
  - intros n Hn Hpos Hmax. unfold default_due_date, add_days. rewrite Hn.
    rewrite (proj2 (Z.leb_le 0 n)) by done.
    destruct (iter_next_day now (Z.to_nat n)) as (Hv' & Hd' & Hy'); [done|lia|].
    set (future := Nat.iter (Z.to_nat n) next_day now) in *.
    pose proof (proj1 (valid_caltime_spec _) Hv') as (Vy & Vm & Vd & _).
    pose proof (days_in_month_bounds (year future) (month future)).
    rewrite Z_to_jstring_4_digits, !Z_to_jstring_2_digits by lia.
    set (due := {| year := year future; month := month future; day := day future;
                   hour := 12; minute := 0; second := 0 |}).
    assert (valid_caltime due = true) as Hdue.
    { apply valid_caltime_spec. cbn. split_and!; lia. }
    assert (pad_digits 4 (year future) ++ pad_digits 2 (month future)
            ++ pad_digits 2 (day future) ++ §"T120000" = format_caltime due) as ->
      by reflexivity.
    exists due. split_and!; try done.
    + by apply parse_format_caltime.
    + unfold day_number in *. cbn [year month day due]. lia.
    + assert (canonical (format_caltime due) = true) as Hc.
      { pose proof (parse_format_caltime _ Hdue) as Hp. unfold parse_caltime in Hp.
        by destruct (canonical _). }
      unfold normalizeCalDate. cbn [truthy negb].
      rewrite bool_decide_eq_false_2 by (by apply canonical_nonempty).
      cbn [negb]. by rewrite canonical_fixed.
  - intros Hn. unfold default_due_date. by rewrite Hn.
Qed.

Lemma default_due_date_spec_witness :
  ∃ due, parse_caltime (default_due_date
           {| year := 2026; month := 2; day := 25; hour := 9; minute := 30; second := 0 |}
           §"7") = Some due
         ∧ day_number due
           = day_number {| year := 2026; month := 2; day := 25;
                           hour := 9; minute := 30; second := 0 |} + 7.
Proof.
  destruct (default_due_date_spec
              {| year := 2026; month := 2; day := 25; hour := 9; minute := 30; second := 0 |}
              §"7") as [H _]; [reflexivity|vm_compute; discriminate|].
  destruct (H 7) as (due & H1 & _ & H2 & _); [reflexivity|lia|vm_compute; discriminate|].
  exists due. split; [exact H1|exact H2].
Defined.

Lemma default_due_date_nonempty now taskDefaultDue :
  default_due_date now taskDefaultDue ≠ [].
Proof.
  unfold default_due_date. destruct (parseInt taskDefaultDue); [|done].
  intros H. apply (f_equal length) in H. rewrite !length_app in H. cbn in H. lia.
Qed.

Lemma normalizeCalDate_string_nonempty s : normalizeCalDate_string s ≠ [].
Proof.
  unfold normalizeCalDate_string. intros H. apply (f_equal length) in H. revert H.
  destruct (indexOf _ _); rewrite !length_app; cbn [length list_ascii_of_string]; lia.
Qed.

Lemma handleTask_record_returns (settings : settings) (message : message)
    (emailBody : jstring) (now : caltime) (parsed : record) :
  (∃ data, normalizeTaskData parsed = OK data) →
  ∃ out, handleTask_record settings message emailBody now parsed = OK out.
Proof. intros [data E]. unfold handleTask_record. rewrite E. by eexists. Qed.

Lemma OK_inj {A} (a b : A) : OK a = OK b → a = b.
Proof. congruence. Qed.

(** X14. The due date the task dialog gets. A due date the model gave is the
    one passed on, normalized; when the model gave none and the setting is not
    [none], the fallback date is passed on, so the dialog is never opened
    without a due date then. *)
Theorem handleTask_record_dueDate (settings : settings) (message : message)
    (emailBody : jstring) (now : caltime) (parsed out : record) :
  handleTask_record settings message emailBody now parsed = OK out →
  (∀ s, parsed !! §"dueDate" = Some (JStr s) → s ≠ [] →
     out !! §"dueDate" = Some (JStr (normalizeCalDate_string s)))
  ∧ (truthy (parsed !! §"dueDate") = false →
       taskDefaultDue settings ≠ [] → taskDefaultDue settings ≠ §"none" →
       out !! §"dueDate"
       = Some (JStr (default_due_date now (taskDefaultDue settings))))
  ∧ (truthy (parsed !! §"dueDate") = false →
       (taskDefaultDue settings = [] ∨ taskDefaultDue settings = §"none") →
       out !! §"dueDate" = parsed !! §"dueDate").
Proof.
  unfold handleTask_record. rewrite !string_or_Some.
  destruct (normalizeTaskData parsed) as [data|e] eqn:En; [|done].
  cbn [mbind result_bind]. intros <-%OK_inj.
  rewrite apply_description_lookup_ne by done.
  apply normalizeTaskData_OK in En as (v1 & v2 & E1 & E2 & E3).
  assert (data !! §"dueDate" = v1) as Hdue.
  { destruct (truthy (parsed !! §"InitialDate")).
    - destruct E3 as (v3 & _ & ->). rewrite lookup_delete_ne by done.
      rewrite !assign_lookup_ne by done. apply assign_lookup.
    - rewrite E3. rewrite !assign_lookup_ne by done. apply assign_lookup. }
  rewrite Hdue. split_and!.
  - intros s Hs Hne. rewrite Hs in E1. unfold normalizeCalDate in E1.
    cbn [truthy] in E1. rewrite (bool_decide_eq_false_2 _ Hne) in E1. cbn [negb] in E1.
    assert (v1 = Some (JStr (normalizeCalDate_string s))) as -> by congruence.
    cbn [truthy].
    rewrite bool_decide_eq_false_2; [cbn [negb andb]; by rewrite Hdue|].
    apply normalizeCalDate_string_nonempty.
  - intros Hf H1 H2. rewrite normalizeCalDate_falsy in E1 by done.
    assert (v1 = parsed !! §"dueDate") as -> by congruence.
    rewrite Hf. cbn [negb andb].
    rewrite (bool_decide_eq_false_2 (taskDefaultDue settings = [])) by done.
    rewrite (bool_decide_eq_false_2 (taskDefaultDue settings = §"none")) by done.
    cbn [negb]. by rewrite lookup_insert_eq.
  - intros Hf H. rewrite normalizeCalDate_falsy in E1 by done.
    assert (v1 = parsed !! §"dueDate") as -> by congruence.
    rewrite Hf. cbn [negb andb].
    assert ((if bool_decide (taskDefaultDue settings = [])
             then §"none" else taskDefaultDue settings) = §"none") as ->
      by (destruct H as [->| ->]; done).
    rewrite bool_decide_eq_true_2 by done. cbn [negb]. by rewrite Hdue.
Qed.

Lemma handleTask_record_dueDate_witness :
  ∃ out,
    handleTask_record sample_settings sample_message §"Please pay the rent."
      sample_now {[ §"summary" := JStr §"Pay rent" ]} = OK out
    ∧ out !! §"dueDate" = Some (JStr §"20260304T120000").
Proof.
  destruct (handleTask_record_returns sample_settings sample_message
              §"Please pay the rent." sample_now {[ §"summary" := JStr §"Pay rent" ]})
    as [out E].
  { eexists. apply normalizeTaskData_OK. exists None, None.
    rewrite !lookup_singleton_ne by done. by split_and!. }
  exists out. split; [exact E|].
  destruct (handleTask_record_dueDate _ _ _ _ _ _ E) as (_ & H & _).
  rewrite H; [reflexivity|by rewrite lookup_singleton_ne|discriminate|discriminate].
Defined.

(** ** background.js: escaping the text of the model for the compose window *)

Lemma replaceAllWith_from_char c w prev s :
  replaceAllWith_from (RChar (is_char c)) w prev s 0
  = flat_map (λ x, if Ascii.eqb x c then w else [x]) s.
Proof.
  revert prev. induction s as [|x s IH]; intros prev; [done|].
  cbn [replaceAllWith_from flat_map]. unfold match_here. cbn [rmatch].
  unfold is_char at 1. rewrite (Ascii.eqb_sym c x).
  destruct (Ascii.eqb x c).
  - cbn [length]. replace (S (length s) - length s)%nat with 1%nat by lia.
    cbn [replaceAllWith_from]. by rewrite IH.
  - cbn [app]. by rewrite IH.
Qed.

Lemma replaceAllWith_char c w s :
  replaceAllWith (RChar (is_char c)) w s
  = flat_map (λ x, if Ascii.eqb x c then w else [x]) s.
Proof. apply replaceAllWith_from_char. Qed.

Lemma flat_map_flat_map {A B C} (f : A → list B) (g : B → list C) l :
  flat_map g (flat_map f l) = flat_map (λ x, flat_map g (f x)) l.
Proof.
  induction l as [|x l IH]; [done|]. cbn [flat_map].
  by rewrite flat_map_app, IH.
Qed.

Lemma escape_html_flat_map (s : jstring) :
  escape_html s = flat_map escape_char s.
Proof.
  unfold escape_html. rewrite !replaceAllWith_char, !flat_map_flat_map.
  apply flat_map_ext. intros c. unfold escape_char.
  destruct (Ascii.eqb c "&") eqn:E1.
  { apply Ascii.eqb_eq in E1 as ->. reflexivity. }
  cbn [flat_map app]. rewrite ?app_nil_r.
  destruct (Ascii.eqb c "<") eqn:E2.
  { apply Ascii.eqb_eq in E2 as ->. reflexivity. }
  cbn [flat_map app].
  destruct (Ascii.eqb c ">") eqn:E3.
  { apply Ascii.eqb_eq in E3 as ->. reflexivity. }
  cbn [flat_map app].
  destruct (Ascii.eqb c LF) eqn:E4; reflexivity.
Qed.

(** X15. The four replacements of [handleDraftReply] and
    [handleSummarizeForward], run one after the other, amount to replacing
    each character on its own: [&], [<], [>] and the line feed by [&amp;],
    [&lt;], [&gt;] and [<br>], any other character by itself. An ampersand
    written by one replacement is not escaped again by a later one, and the
    escaped form of a text is the escaped forms of its parts put together. *)
Theorem escape_html_by_character (s : jstring) :
  escape_html s = flat_map escape_char s
  ∧ ∀ a b, escape_html (a ++ b) = escape_html a ++ escape_html b.
Proof.
  split; [apply escape_html_flat_map|].
  intros a b. rewrite !escape_html_flat_map. apply flat_map_app.
Qed.

Lemma escape_char_cases c :
  (c = "&"%char ∧ escape_char c = §"&amp;")
  ∨ (c = "<"%char ∧ escape_char c = §"&lt;")
  ∨ (c = ">"%char ∧ escape_char c = §"&gt;")
  ∨ (c = LF ∧ escape_char c = §"<br>")
  ∨ (c ≠ "&"%char ∧ c ≠ "<"%char ∧ c ≠ ">"%char ∧ c ≠ LF ∧ escape_char c = [c]).
Proof.
  unfold escape_char.
  destruct (Ascii.eqb_spec c "&") as [->|H1]; [by left|].
  destruct (Ascii.eqb_spec c "<") as [->|H2]; [right; by left|].
  destruct (Ascii.eqb_spec c ">") as [->|H3]; [do 2 right; by left|].
  destruct (Ascii.eqb_spec c LF) as [->|H4]; [do 3 right; by left|].
  by do 4 right.
Qed.

(** X16. Two texts with the same escaped form are the same text: nothing of
    the answer of the model is lost or confused by the escaping. *)
Theorem escape_html_injective (s1 s2 : jstring) :
  escape_html s1 = escape_html s2 → s1 = s2.
Proof.
  rewrite !escape_html_flat_map.
  revert s2. induction s1 as [|c1 s1 IH]; intros [|c2 s2]; cbn [flat_map].
  - done.
  - destruct (escape_char_cases c2) as [(_ & ->)|[(_ & ->)|[(_ & ->)|[(_ & ->)|(_ & _ & _ & _ & ->)]]]];
      discriminate.
  - destruct (escape_char_cases c1) as [(_ & ->)|[(_ & ->)|[(_ & ->)|[(_ & ->)|(_ & _ & _ & _ & ->)]]]];
      discriminate.
  - destruct (escape_char_cases c1) as [(-> & ->)|[(-> & ->)|[(-> & ->)|[(-> & ->)|(? & ? & ? & ? & ->)]]]];
    destruct (escape_char_cases c2) as [(-> & ->)|[(-> & ->)|[(-> & ->)|[(-> & ->)|(? & ? & ? & ? & ->)]]]];
      cbn [app list_ascii_of_string]; intros [= ?]; subst;
      try congruence; try (f_equal; by apply IH).
Qed.

Lemma app_cons_split {A} (pre post a b : list A) x :
  pre ++ x :: post = a ++ b →
  (∃ k, a = pre ++ x :: k ∧ post = k ++ b) ∨ (∃ k, pre = a ++ k ∧ b = k ++ x :: post).
Proof.
  revert a. induction pre as [|p pre IH]; intros [|y a]; cbn [app].
  - intros <-. right. by exists [].
  - intros [= <- ->]. left. by exists a.
  - intros <-. right. by exists (p :: pre).
  - intros [= <- H]. destruct (IH _ H) as [(k & -> & ->)|(k & -> & ->)].
    + left. by exists k.
    + right. by exists k.
Qed.

(** X17. The escaped text holds no line feed; every [<] in it begins a [<br>],
    every [>] ends one, and every [&] begins [&amp;], [&lt;] or [&gt;]: no
    markup of the model reaches the compose window. *)
Theorem escape_html_no_markup (s : jstring) :
  (LF ∉ escape_html s)
  ∧ (∀ pre post, escape_html s = pre ++ "<"%char :: post →
       ∃ post', post = §"br>" ++ post')
  ∧ (∀ pre post, escape_html s = pre ++ ">"%char :: post →
       ∃ pre', pre = pre' ++ §"<br")
  ∧ (∀ pre post, escape_html s = pre ++ "&"%char :: post →
       ∃ post', post = §"amp;" ++ post' ∨ post = §"lt;" ++ post' ∨ post = §"gt;" ++ post').
Proof.
  rewrite escape_html_flat_map.
  induction s as [|c s (IH1 & IH2 & IH3 & IH4)]; cbn [flat_map].
  { split_and!; [by apply not_elem_of_nil|intros [|??] ?; discriminate..]. }
  split_and!.
  - rewrite elem_of_app. intros [H|H]; [|done].
    destruct (escape_char_cases c) as [(-> & E)|[(-> & E)|[(-> & E)|[(-> & E)|(? & ? & ? & ? & E)]]]];
      rewrite E in H; apply list_elem_of_In in H; cbn in H;
      intuition (discriminate || congruence).
  - intros pre post H. symmetry in H. apply app_cons_split in H as [(k & Hk & ->)|(k & -> & Hk)].
    + destruct (escape_char_cases c) as [(-> & E)|[(-> & E)|[(-> & E)|[(-> & E)|(? & ? & ? & ? & E)]]]];
        rewrite E in Hk;
        destruct pre as [|? [|? [|? [|? [|? [|? ?]]]]]]; simplify_eq/=; eauto.
    + by apply IH2 in Hk.
  - intros pre post H. symmetry in H. apply app_cons_split in H as [(k & Hk & ->)|(k & -> & Hk)].
    + destruct (escape_char_cases c) as [(-> & E)|[(-> & E)|[(-> & E)|[(-> & E)|(? & ? & ? & ? & E)]]]];
        rewrite E in Hk;
        destruct pre as [|? [|? [|? [|? [|? [|? ?]]]]]]; simplify_eq/=; by exists [].
    + apply IH3 in Hk as [pre' ->]. exists (escape_char c ++ pre').
      by rewrite app_assoc.
  - intros pre post H. symmetry in H. apply app_cons_split in H as [(k & Hk & ->)|(k & -> & Hk)].
    + destruct (escape_char_cases c) as [(-> & E)|[(-> & E)|[(-> & E)|[(-> & E)|(? & ? & ? & ? & E)]]]];
        rewrite E in Hk;
        destruct pre as [|? [|? [|? [|? [|? [|? ?]]]]]]; simplify_eq/=; eauto.
    + by apply IH4 in Hk.
Qed.

Lemma escape_html_injective_witness : §"a" ++ §"<b" = §"a<b".
Proof. apply (escape_html_injective (§"a" ++ §"<b") §"a<b"). reflexivity. Defined.

Lemma escape_html_no_markup_witness :
  ∃ post', §"br>done&amp;" = §"br>" ++ post'.
Proof.
  destruct (escape_html_no_markup (§"1 &lt; 2" ++ [LF] ++ §"done&")) as (_ & H & _).
  apply (H §"1 &amp;lt; 2"). reflexivity.
Defined.

(** ** api/CalendarTools/implementation.js *)

Lemma drop_while_head p (s : jstring) c :
  head (drop_while p s) = Some c → p c = false.
Proof.
  induction s as [|x s IH]; [done|]. cbn [drop_while].
  destruct (p x) eqn:E; [done|]. by intros [= <-].
Qed.

Lemma drop_while_id p (s : jstring) :
  (∀ c, head s = Some c → p c = false) → drop_while p s = s.
Proof. destruct s as [|x s]; [done|]. intros H. cbn [drop_while]. by rewrite H. Qed.

Lemma drop_while_suffix p (s : jstring) : drop_while p s `suffix_of` s.
Proof.
  exists (take_while p s). symmetry. apply take_while_drop_while.
Qed.

Lemma last_suffix (a b : jstring) c : a `suffix_of` b → last a = Some c → last b = Some c.
Proof.
  intros [k ->] H. destruct a as [|x a]; [done|]. by rewrite last_app, H.
Qed.

Lemma last_reverse (s : jstring) : last (reverse s) = head s.
Proof. destruct s as [|x s]; [done|]. by rewrite reverse_cons, last_snoc. Qed.

Lemma head_reverse (s : jstring) : head (reverse s) = last s.
Proof. by rewrite <- last_reverse, reverse_involutive. Qed.

Lemma trim_trimmed s : trimmed (trim s).
Proof.
  unfold trim. split; intros c.
  - rewrite head_reverse. intros H.
    eapply last_suffix in H; [|apply drop_while_suffix].
    rewrite last_reverse in H. by apply drop_while_head in H.
  - rewrite last_reverse. apply drop_while_head.
Qed.

Lemma trimmed_trim s : trimmed s → trim s = s.
Proof.
  intros [Hh Hl]. unfold trim. rewrite (drop_while_id _ s) by done.
  rewrite drop_while_id; [apply reverse_involutive|].
  intros c. rewrite head_reverse. apply Hl.
Qed.

Lemma split_from_nonempty c piece s : split_from c piece s ≠ [].
Proof.
  revert piece. induction s as [|x s IH]; intros piece; cbn [split_from]; [done|].
  by destruct (Ascii.eqb x c).
Qed.


Lemma split_from_join c piece s :
  join [c] (split_from c piece s) = piece ++ s.
Proof.
  revert piece. induction s as [|x s IH]; intros piece; cbn [split_from].
  - by rewrite app_nil_r.
  - destruct (Ascii.eqb_spec x c) as [->|Hne].
    + rewrite join_cons by apply split_from_nonempty. by rewrite IH.
    + rewrite IH. by rewrite <- app_assoc.
Qed.

Lemma split_from_pieces c s : ∀ piece p,
  c ∉ piece → p ∈ split_from c piece s → c ∉ p.
Proof.
  induction s as [|x s IH]; intros piece p Hp; cbn [split_from].
  - by intros ->%list_elem_of_singleton.
  - destruct (Ascii.eqb_spec x c) as [->|Hne].
    + intros [->|Hin]%elem_of_cons; [done|]. eapply IH; [|done]. apply not_elem_of_nil.
    + apply IH. rewrite elem_of_app, list_elem_of_singleton. intros [?|?]; [done|congruence].
Qed.

Lemma string_lt_irrefl a : string_lt a a = false.
Proof.
  induction a as [|x a IH]; [done|]. cbn [string_lt].
  by rewrite N.ltb_irrefl, N.eqb_refl, IH.
Qed.

Lemma string_lt_total a b : string_lt a b = false → string_lt b a = false → a = b.
Proof.
  revert b. induction a as [|x a IH]; intros [|y b]; cbn [string_lt]; try done.
  intros [H1 H2]%orb_false_iff [H3 H4]%orb_false_iff.
  apply N.ltb_ge in H1, H3. assert (code x = code y) as E by lia.
  rewrite E, N.eqb_refl in H2, H4. cbn [andb] in H2, H4.
  f_equal; [|by apply IH].
  unfold code in E. by apply (f_equal ascii_of_N) in E; rewrite !ascii_N_embedding in E.
Qed.

Lemma string_lt_trans a b c :
  string_lt a b = true → string_lt b c = true → string_lt a c = true.
Proof.
  revert b c. induction a as [|x a IH]; intros [|y b] [|z c]; cbn [string_lt]; try done.
  intros [H1|[H1 H2]%andb_true_iff]%orb_true_iff [H3|[H3 H4]%andb_true_iff]%orb_true_iff;
    apply orb_true_iff.
  - left. apply N.ltb_lt in H1, H3. apply N.ltb_lt. lia.
  - left. apply N.ltb_lt in H1. apply N.eqb_eq in H3. apply N.ltb_lt. lia.
  - left. apply N.eqb_eq in H1. apply N.ltb_lt in H3. apply N.ltb_lt. lia.
  - right. apply N.eqb_eq in H1, H3. apply andb_true_iff. split.
    + apply N.eqb_eq. lia.
    + by eapply IH.
Qed.

Lemma string_le_trans a b c :
  string_le a b = true → string_le b c = true → string_le a c = true.
Proof.
  unfold string_le. rewrite !negb_true_iff. intros H1 H2.
  destruct (string_lt c a) eqn:E; [|done]. exfalso.
  destruct (string_lt c b) eqn:E2; [congruence|].
  destruct (string_lt a b) eqn:E3.
  - rewrite (string_lt_trans c a b) in E2; done.
  - assert (a = b) as -> by (by apply string_lt_total). congruence.
Qed.

Lemma insert_sorted_perm x l : insert_sorted x l ≡ₚ x :: l.
Proof.
  induction l as [|y l IH]; [done|]. cbn [insert_sorted].
  destruct (string_lt y x); [|done]. rewrite IH. apply Permutation_swap.
Qed.

Lemma sort_perm l : sort l ≡ₚ l.
Proof.
  induction l as [|x l IH]; [done|]. cbn [sort foldr]. fold (sort l).
  by rewrite insert_sorted_perm, IH.
Qed.

Lemma insert_sorted_sorted x l :
  StronglySorted (λ a b, string_le a b = true) l →
  StronglySorted (λ a b, string_le a b = true) (insert_sorted x l).
Proof.
  induction 1 as [|y l Hs IH Hy]; cbn [insert_sorted].
  - repeat constructor.
  - destruct (string_lt y x) eqn:E.
    + constructor; [done|]. rewrite insert_sorted_perm. constructor; [|done].
      unfold string_le. destruct (string_lt x y) eqn:E2; [|done].
      pose proof (string_lt_trans _ _ _ E2 E) as C. by rewrite string_lt_irrefl in C.
    + constructor; [by constructor|]. constructor.
      * unfold string_le. by rewrite E.
      * eapply Forall_impl; [done|]. intros z Hz. cbn beta in *.
        eapply string_le_trans; [|done]. unfold string_le. by rewrite E.
Qed.

Lemma sort_sorted l : StronglySorted (λ a b, string_le a b = true) (sort l).
Proof.
  induction l as [|x l IH]; [constructor|]. by apply insert_sorted_sorted.
Qed.

Lemma trim_subseteq (s : jstring) : trim s ⊆ s.
Proof.
  unfold trim. intros x. rewrite elem_of_reverse. intros H.
  apply drop_while_subseteq in H. rewrite elem_of_reverse in H.
  by apply drop_while_subseteq in H.
Qed.

(** X18. The categories [getCategories] returns are the pieces between the
    commas of the preference, trimmed, without the empty ones, in ascending
    order: none is empty, begins or ends with white space or contains a comma,
    and a piece that occurs twice is returned twice. Joining the pieces with
    commas gives the preference back. When the preference cannot be read there
    are no categories. *)
Theorem getCategories_spec (pref : jstring) :
  StronglySorted (λ a b, string_le a b = true) (getCategories (OK pref))
  ∧ getCategories (OK pref) ≡ₚ List.filter nonempty (map trim (split "," pref))
  ∧ (∀ c, c ∈ getCategories (OK pref) → c ≠ [] ∧ trimmed c ∧ ","%char ∉ c)
  ∧ join §"," (split "," pref) = pref
  ∧ ∀ e, getCategories (Throw e) = [].
Proof.
  assert (getCategories (OK pref) = sort (List.filter nonempty (map trim (split "," pref))))
    as ->.
  { unfold getCategories. destruct pref; [reflexivity|]. cbn [truthy negb].
    by rewrite bool_decide_eq_false_2. }
  split_and!.
  - apply sort_sorted.
  - apply sort_perm.
  - intros c. rewrite sort_perm. intros Hin.
    apply list_elem_of_In, List.filter_In in Hin as [Hin Hne].
    apply List.in_map_iff in Hin as (piece & <- & Hin). split_and!.
    + unfold nonempty in Hne. cbn [truthy] in Hne.
      by apply negb_true_iff, bool_decide_eq_false in Hne.
    + apply trim_trimmed.
    + intros Hc%trim_subseteq. revert Hc. eapply split_from_pieces; [|by apply list_elem_of_In].
      apply not_elem_of_nil.
  - apply (split_from_join "," []).
  - done.
Qed.

Lemma getCategories_spec_witness :
  §"Family" ≠ [] ∧ trimmed §"Family" ∧ (","%char ∉ §"Family").
Proof.
  destruct (getCategories_spec §" Work , ,Family") as (_ & _ & H & _).
  apply H. apply list_elem_of_In. vm_compute. left. reflexivity.
Defined.

(** X19. The address of an attendee always begins with [mailto:], and an
    address that does is not changed. *)
Theorem attendee_address_mailto (attendee : jstring) :
  startsWith §"mailto:" (attendee_address attendee) = true
  ∧ attendee_address (attendee_address attendee) = attendee_address attendee
  ∧ (attendee_address attendee = attendee ∨ attendee_address attendee = §"mailto:" ++ attendee).
Proof.
  unfold attendee_address.
  destruct (startsWith §"mailto:" attendee) eqn:E.
  - rewrite E. auto.
  - rewrite (startsWith_app §"mailto:" attendee). auto using startsWith_app.
Qed.

(** X20. A calendar found by its name is an enabled calendar of that name, one
    of those [getCalendars] lists; and every calendar [getCalendars] lists
    under a name that is not empty is found by that name. *)
Theorem findCalendarByName_getCalendars (calendars : result (list calendar))
    (name : jstring) :
  (∀ c, findCalendarByName calendars name = Some c →
     name ≠ [] ∧ cal_name c = name ∧ cal_disabled c = false
     ∧ (cal_name c, cal_id c) ∈ getCalendars calendars)
  ∧ (∀ id, (name, id) ∈ getCalendars calendars → name ≠ [] →
       ∃ c, findCalendarByName calendars name = Some c ∧ cal_name c = name).
Proof.
  unfold findCalendarByName, getCalendars. cbn [truthy].
  split.
  - intros c. case_bool_decide as En; cbn [negb]; [done|].
    destruct calendars as [cs|e]; [|done].
    intros H. pose proof (List.find_some _ _ H) as [Hin [Hn Hd]%andb_true_iff].
    apply bool_decide_eq_true in Hn. apply negb_true_iff in Hd.
    split_and!; [done..|].
    apply list_elem_of_fmap. exists c. split; [done|].
    apply list_elem_of_In, List.filter_In. split; [done|]. by rewrite Hd.
  - intros id Hin Hne. rewrite (bool_decide_eq_false_2 _ Hne). cbn [negb].
    destruct calendars as [cs|e]; [|by apply elem_of_nil in Hin].
    apply list_elem_of_fmap in Hin as (c & [= Hn Hi] & Hin).
    apply list_elem_of_In, List.filter_In in Hin as [Hin Hd].
    destruct (List.find _ cs) as [c'|] eqn:Ef.
    + exists c'. split; [done|].
      apply List.find_some in Ef as [_ [Hn' _]%andb_true_iff].
      by apply bool_decide_eq_true in Hn'.
    + exfalso. eapply List.find_none in Ef; [|done]. cbn beta in Ef.
      rewrite Hd, bool_decide_eq_true_2 in Ef; done.
Qed.

Lemma findCalendarByName_getCalendars_witness :
  ∃ c, findCalendarByName (OK sample_calendars) §"Work" = Some c ∧ cal_name c = §"Work".
Proof.
  destruct (findCalendarByName_getCalendars (OK sample_calendars) §"Work") as (_ & H).
  apply (H §"c2"); [|discriminate].
  apply list_elem_of_In. vm_compute. left. reflexivity.
Defined.

(** ** contact/review.js *)

Lemma set_if_truthy_lookup (key value : jstring) (m : gmap jstring jstring) k v :
  set_if_truthy key value m !! k = Some v →
  (v = value ∧ value ≠ []) ∨ m !! k = Some v.
Proof.
  unfold set_if_truthy. cbn [truthy]. case_bool_decide as E; cbn [negb]; [by right|].
  destruct (decide (k = key)) as [->|Hne].
  - rewrite lookup_insert_eq. intros [= <-]. by left.
  - rewrite lookup_insert_ne by done. by right.
Qed.

Lemma set_if_truthy_key (key value : jstring) (m : gmap jstring jstring) :
  set_if_truthy key value m !! key = if nonempty value then Some value else m !! key.
Proof.
  unfold set_if_truthy, nonempty. destruct (truthy _); [|done]. apply lookup_insert_eq.
Qed.

Lemma set_if_truthy_ne (key value : jstring) (m : gmap jstring jstring) k :
  k ≠ key → set_if_truthy key value m !! k = m !! k.
Proof.
  intros H. unfold set_if_truthy. destruct (truthy _); [|done]. by apply lookup_insert_ne.
Qed.

Lemma trimmed_join_space a b :
  trimmed a → trimmed b → a ≠ [] → b ≠ [] → trimmed (a ++ §" " ++ b).
Proof.
  intros [Ha _] [_ Hb] Hna Hnb. split; intros c.
  - destruct a as [|x a]; [done|]. apply Ha.
  - rewrite app_assoc, last_app. destruct (last b) eqn:E; [by intros [= <-]; apply Hb|].
    by destruct b using rev_ind; [|rewrite last_snoc in E].
Qed.

(** X21. What [saveContact] passes on. Without a selected address book nothing
    is created. Otherwise every property passed is a field of the form with
    the white space around it removed, and none is empty; [DisplayName] is
    passed exactly when a first or a last name is, and is the two names with
    one space between them, or the one there is. *)
Theorem saveContact_properties (form : contact_form) :
  (form_addressBook form = [] → saveContact form = None)
  ∧ (form_addressBook form ≠ [] →
       ∃ properties,
         saveContact form = Some (form_addressBook form, properties)
         ∧ (∀ k v, properties !! k = Some v → v ≠ [] ∧ trimmed v)
         ∧ properties !! §"FirstName"
           = (if nonempty (trim (form_firstName form))
              then Some (trim (form_firstName form)) else None)
         ∧ properties !! §"LastName"
           = (if nonempty (trim (form_lastName form))
              then Some (trim (form_lastName form)) else None)
         ∧ properties !! §"DisplayName"
           = match properties !! §"FirstName", properties !! §"LastName" with
             | Some first, Some last => Some (first ++ §" " ++ last)
             | Some name, None | None, Some name => Some name
             | None, None => None
             end).
Proof.
  split.
  - intros E. unfold saveContact. by rewrite E.
  - intros Hbook. unfold saveContact. cbn [truthy]. rewrite (bool_decide_eq_false_2 _ Hbook).
    cbn [negb]. eexists. split; [reflexivity|].
    set (first := trim (form_firstName form)).
    set (last_ := trim (form_lastName form)).
    assert (trimmed first) as Tf by apply trim_trimmed.
    assert (trimmed last_) as Tl by apply trim_trimmed.
    set (base := set_if_truthy §"WebPage1" _ _).
    assert (∀ k v, base !! k = Some v → v ≠ [] ∧ trimmed v) as Hbase.
    { intros k v H. unfold base in H.
      repeat (apply set_if_truthy_lookup in H as [(-> & Hne)|H];
              [split; [exact Hne|apply trim_trimmed]|]).
      by rewrite lookup_empty in H. }
    assert (base !! §"FirstName" = if nonempty first then Some first else None) as Hf.
    { unfold base. rewrite !set_if_truthy_ne by done. by rewrite set_if_truthy_key. }
    assert (base !! §"LastName" = if nonempty last_ then Some last_ else None) as Hl.
    { unfold base. rewrite !set_if_truthy_ne by done. rewrite set_if_truthy_key.
      by rewrite set_if_truthy_ne. }
    assert (base !! §"DisplayName" = None) as Hd.
    { unfold base. by rewrite !set_if_truthy_ne. }
    unfold nonempty in *. cbn [List.filter truthy] in *.
    destruct (bool_decide (first = [])) eqn:Nf, (bool_decide (last_ = [])) eqn:Nl;
      cbn [negb orb join] in *.
    all: try apply bool_decide_eq_false in Nf; try apply bool_decide_eq_false in Nl.
    all: rewrite ?lookup_insert_eq, ?lookup_insert_ne by done; rewrite ?Hf, ?Hl, ?Hd.
    all: split_and!; try done.
    all: intros k v; destruct (decide (k = §"DisplayName")) as [->|Hk];
           [rewrite lookup_insert_eq; intros [= <-]
           |rewrite lookup_insert_ne by done; apply Hbase].
    + done.
    + done.
    + split; [by destruct first|by apply trimmed_join_space].
Qed.

Lemma saveContact_properties_witness :
  ∃ properties,
    saveContact sample_form = Some (§"book-2", properties)
    ∧ properties !! §"DisplayName" = Some §"Ada Lovelace".
Proof.
  destruct (saveContact_properties sample_form) as (_ & H).
  destruct H as (properties & H1 & _ & H2 & H3 & H4); [discriminate|].
  exists properties. split; [exact H1|]. rewrite H4, H2, H3. reflexivity.
Defined.

Lemma option_index_Some value options i :
  option_index value options = Some i →
  ∃ o, options !! i = Some o ∧ opt_value o = value.
Proof.
  revert i. induction options as [|o options IH]; intros i; [done|].
  cbn [option_index]. case_bool_decide as E.
  - intros [= <-]. by exists o.
  - destruct (option_index value options) as [j|]; [|done].
    intros [= <-]. by apply IH.
Qed.

Lemma option_index_None value options o :
  option_index value options = None → o ∈ options → opt_value o ≠ value.
Proof.
  induction options as [|o' options IH]; [by intros _ ?%elem_of_nil|].
  cbn [option_index]. case_bool_decide as E; [done|].
  destruct (option_index value options); [done|].
  intros _ [->|Hin]%elem_of_cons; [done|]. by apply IH.
Qed.

(** X22. The address books offered for saving a contact are the writable ones,
    in their order, and the one selected is the saved one when that is among
    them, the first one otherwise. When the books cannot be listed, or none is
    writable, the list holds one disabled entry and nothing is selected. *)
Theorem populateAddressBooks_offers_writable (books : result (list address_book))
    (savedId : jstring) :
  let run := populateAddressBooks books savedId in
  (∀ o, o ∈ run.1 → opt_disabled o = false →
     ∃ bs b, books = OK bs ∧ b ∈ bs ∧ book_readOnly b = false
             ∧ opt_value o = book_id b ∧ opt_text o = book_name b)
  ∧ (∀ bs b, books = OK bs → b ∈ bs → book_readOnly b = false →
       ∃ o, o ∈ run.1 ∧ opt_disabled o = false ∧ opt_value o = book_id b)
  ∧ (∀ i, run.2 = Some i →
       ∃ o, run.1 !! i = Some o ∧ opt_disabled o = false
            ∧ (savedId ≠ [] → (∃ o', o' ∈ run.1 ∧ opt_value o' = savedId) →
               opt_value o = savedId)
            ∧ ((savedId = [] ∨ ∀ o', o' ∈ run.1 → opt_value o' ≠ savedId) →
               i = 0%nat))
  ∧ (run.2 = None → ∃ o, run.1 = [o] ∧ opt_disabled o = true).
Proof.
  cbn zeta. unfold populateAddressBooks. destruct books as [bs|e].
  2:{ cbn [fst snd]. split_and!; [|done|done|intros _; eexists; split; reflexivity].
      intros o ->%list_elem_of_singleton [=]. }
  set (writable := List.filter (λ b, negb (book_readOnly b)) bs).
  set (to_option := λ b, {| opt_value := book_id b; opt_text := book_name b;
                            opt_disabled := false |}).
  assert (∀ b, b ∈ writable ↔ b ∈ bs ∧ book_readOnly b = false) as Hw.
  { intros b. unfold writable. rewrite !list_elem_of_In, List.filter_In, negb_true_iff. done. }
  destruct writable as [|w ws] eqn:Ew.
  { cbn [fst snd]. split_and!; [| |done|intros _; eexists; split; reflexivity].
    - intros o ->%list_elem_of_singleton [=].
    - intros ? b [= <-] Hb Hr. exfalso. eapply elem_of_nil, Hw. eauto. }
  clear Ew. cbn [fst snd]. split_and!.
  - intros o (b & -> & Hb)%list_elem_of_fmap _. apply Hw in Hb as [Hb Hr].
    by exists bs, b.
  - intros ? b [= <-] Hb Hr. exists (to_option b). split_and!; [|done..].
    apply list_elem_of_fmap. exists b. split; [done|]. by apply Hw.
  - assert (∀ o, o ∈ map to_option (w :: ws) → opt_disabled o = false) as Hen.
    { by intros o (b & -> & _)%list_elem_of_fmap. }
    intros i Hi. cbn [truthy] in Hi. case_bool_decide as Es; cbn [negb] in Hi.
    + injection Hi as <-. exists (to_option w). by split_and!.
    + destruct (option_index savedId (map to_option (w :: ws))) as [j|] eqn:Ej.
      * injection Hi as <-. apply option_index_Some in Ej as (o & Ho & Hv).
        exists o. split_and!; [done| |done|].
        -- apply Hen. by eapply list_elem_of_lookup_2.
        -- intros [?|Hno]; [done|]. exfalso. eapply Hno; [|done].
           by eapply list_elem_of_lookup_2.
      * injection Hi as <-. exists (to_option w).
        split_and!; [done..| |done]. intros _ (o' & Hin & Hv). exfalso.
        by eapply option_index_None.
  - cbn [truthy]. case_bool_decide; cbn [negb]; [done|].
    by destruct (option_index _ _).
Qed.

Lemma populateAddressBooks_offers_writable_witness :
  ∃ o, (populateAddressBooks (OK sample_books) §"book-1").1 !! 0%nat = Some o
       ∧ opt_disabled o = false.
Proof.
  destruct (populateAddressBooks_offers_writable (OK sample_books) §"book-1")
    as (_ & _ & H & _).
  destruct (H 0%nat) as (o & H1 & H2 & _); [reflexivity|]. by exists o.
Defined.

(** ** analyze/analyze.js *)

Lemma digits_value_uint d : ∀ acc,
  digits_value acc (list_ascii_of_string (NilEmpty.string_of_uint d))
  = Some (uint_value acc d)
  ∧ all_digits (list_ascii_of_string (NilEmpty.string_of_uint d)) = true.
Proof.
  induction d as [|d IH|d IH|d IH|d IH|d IH|d IH|d IH|d IH|d IH|d IH]; intros acc;
    cbn [NilEmpty.string_of_uint list_ascii_of_string digits_value uint_value
         all_digits forallb]; [done|..];
    change (is_digit _) with true; cbn [andb];
    (split; [|apply (IH acc)]);
    match goal with |- digits_value ?a _ = Some (uint_value ?b _) =>
      replace a with b by (vm_compute Z.of_N; lia) end; apply IH.
Qed.

Lemma uint_value_of_uint_acc d : ∀ acc,
  uint_value (Z.pos acc) d = Z.pos (Pos.of_uint_acc d acc).
Proof.
  induction d as [|d IH|d IH|d IH|d IH|d IH|d IH|d IH|d IH|d IH|d IH]; intros acc;
    cbn [uint_value Pos.of_uint_acc]; [done|..];
    rewrite <- IH; f_equal; lia.
Qed.

Lemma uint_value_of_uint d : uint_value 0 d = Z.of_N (Pos.of_uint d).
Proof.
  induction d as [|d IH|d IH|d IH|d IH|d IH|d IH|d IH|d IH|d IH|d IH];
    cbn [uint_value Pos.of_uint]; [done|done|..];
    cbn [Z.of_N]; rewrite <- uint_value_of_uint_acc; f_equal.
Qed.

Lemma parseInt_Z_to_jstring n : 0 ≤ n → parseInt (Z_to_jstring n) = Some n.
Proof.
  intros Hn. unfold Z_to_jstring.
  assert (∃ d, Z.to_int n = Decimal.Pos d ∧ uint_value 0 d = n ∧ d ≠ Decimal.Nil)
    as (d & -> & Hd & Hnil).
  { destruct n as [|p|p]; [by exists (Decimal.D0 Decimal.Nil)| |lia].
    exists (Pos.to_uint p). split_and!; [done| |].
    - by rewrite uint_value_of_uint, DecimalPos.Unsigned.of_to.
    - intros E. pose proof (DecimalPos.Unsigned.of_to p) as H. by rewrite E in H. }
  cbn [NilZero.string_of_int].
  assert (NilZero.string_of_uint d = NilEmpty.string_of_uint d) as -> by (by destruct d).
  destruct (digits_value_uint d 0) as [Hv Ha]. rewrite parseInt_digits; [by rewrite Hv, Hd|done|].
  by destruct d.
Qed.

Lemma previewText_OK item :
  item ≠ JNull → ∃ text, previewText item = OK text.
Proof. destruct item; by eauto. Qed.

Lemma or_else_truthy a b : truthy b = true → truthy (or_else a b) = true.
Proof. intros H. unfold or_else. by destruct (truthy a) eqn:E. Qed.

Lemma render_rows_outcome g : ∀ items idx,
  (JNull ∈ items ∧ render_rows g idx items = Throw TypeError)
  ∨ ((JNull ∉ items)
     ∧ ∃ rows, render_rows g idx items = OK rows
               ∧ length rows = length items
               ∧ Forall (λ cb, cb_checked cb = true ∧ truthy (Some (cb_label cb)) = true)
                   rows).
Proof.
  induction items as [|item items IH]; intros idx; cbn [render_rows].
  - right. split; [apply not_elem_of_nil|]. by exists [].
  - assert (item = JNull ∨ item ≠ JNull) as [->|Hitem] by (destruct item; auto).
    + left. split; [apply elem_of_cons; by left|done].
    + destruct (previewText_OK item Hitem) as [text ->]. cbn [mbind result_bind].
      destruct (IH (idx + 1)) as [(Hin & ->)|(Hnin & rows & -> & Hlen & Hall)].
      * left. split; [apply elem_of_cons; by right|done].
      * right. split; [by apply not_elem_of_cons|].
        eexists. split; [reflexivity|]. cbn [length]. split; [by rewrite Hlen|].
        apply Forall_cons. split; [|done]. cbn [cb_checked cb_label]. split; [done|].
        set (fallback := Some (JStr _)).
        assert (truthy (or_else text fallback) = true) as Ht.
        { apply or_else_truthy. unfold fallback. cbn [truthy].
          rewrite bool_decide_eq_false_2; [done|]. by destruct g. }
        by destruct (or_else text fallback).
Qed.

(** X23. What the review page shows for an analysis. When one of the three
    arrays holds a [null] the page fails with a TypeError; otherwise it shows
    one checked box for every item, with a label that is never empty. *)
Theorem render_detected_outcome (analysis : record) :
  (holds_null analysis → render_detected analysis = Throw TypeError)
  ∧ (¬ holds_null analysis →
       ∃ boxes, render_detected analysis = OK boxes
                ∧ length boxes = (length (detected analysis Events)
                                  + length (detected analysis Tasks)
                                  + length (detected analysis Contacts))%nat
                ∧ Forall (λ cb, cb_checked cb = true ∧ truthy (Some (cb_label cb)) = true)
                    boxes).
Proof.
  unfold render_detected, groups, holds_null. cbn [render_groups].
  destruct (render_rows_outcome Events (detected analysis Events) 0)
    as [(H1 & ->)|(H1 & r1 & -> & L1 & F1)].
  { split; [done|]. intros H. destruct H. by exists Events. }
  cbn [mbind result_bind].
  destruct (render_rows_outcome Tasks (detected analysis Tasks) 0)
    as [(H2 & ->)|(H2 & r2 & -> & L2 & F2)].
  { split; [done|]. intros H. destruct H. by exists Tasks. }
  cbn [mbind result_bind].
  destruct (render_rows_outcome Contacts (detected analysis Contacts) 0)
    as [(H3 & ->)|(H3 & r3 & -> & L3 & F3)].
  { split; [done|]. intros H. destruct H. by exists Contacts. }
  cbn [mbind result_bind]. split.
  - intros [[] Hg]; done.
  - intros _. eexists. split; [reflexivity|]. split.
    + rewrite !length_app. cbn [length]. lia.
    + rewrite !Forall_app. split_and!; [done..|constructor].
Qed.

Lemma render_detected_outcome_witness :
  render_detected sample_null_analysis = Throw TypeError.
Proof.
  destruct (render_detected_outcome sample_null_analysis) as [H _].
  apply H. exists Tasks. apply list_elem_of_In. vm_compute. right. left. reflexivity.
Defined.

Lemma seqZ_S m (n : nat) : seqZ m (Z.of_nat (S n)) = m :: seqZ (m + 1) (Z.of_nat n).
Proof.
  rewrite seqZ_cons by lia. f_equal. f_equal; lia.
Qed.

Lemma render_rows_selected g g' state : ∀ items idx rows,
  render_rows g' idx items = OK rows → 0 ≤ idx →
  selected g (leave state rows)
  = if same_group g g'
    then map Some (List.filter (λ i, state (group_prefix g' ++ §"-" ++ Z_to_jstring i))
                     (seqZ idx (Z.of_nat (length items))))
    else [].
Proof.
  induction items as [|item items IH]; intros idx rows; cbn [render_rows].
  - intros [= <-] _. cbn [length]. by destruct (same_group g g').
  - destruct (previewText item) as [text|e]; [|done]. cbn [mbind result_bind].
    destruct (render_rows g' (idx + 1) items) as [rows'|e] eqn:Er; [|done].
    cbn [mbind result_bind]. intros [= <-] Hidx.
    specialize (IH _ _ Er ltac:(lia)).
    unfold selected, leave in *. cbn [map List.filter cb_checked cb_group cb_id cb_index].
    cbn [length]. rewrite seqZ_S. cbn [List.filter].
    set (id := group_prefix g' ++ §"-" ++ Z_to_jstring idx).
    change (group_prefix g' ++ "-"%char :: Z_to_jstring idx) with id.
    destruct (same_group g g') eqn:Eg.
    + rewrite andb_true_r. destruct (state id); cbn [map cb_index]; [|exact IH].
      rewrite parseInt_Z_to_jstring by done. by rewrite IH.
    + rewrite andb_false_r. done.
Qed.

Lemma selected_app g a b : selected g (a ++ b) = selected g a ++ selected g b.
Proof. unfold selected. by rewrite List.filter_app, map_app. Qed.

Lemma leave_app state a b : leave state (a ++ b) = leave state a ++ leave state b.
Proof. apply map_app. Qed.

(** X24. The indices [buildSelections] returns for an analysis the page has
    shown, whatever boxes the user unchecked: for each group, the indices of
    the items whose boxes are checked, in ascending order, each one an index
    of the array of the analysis. *)
Theorem buildSelections_indices (analysis : record) (boxes : list checkbox)
    (state : jstring → bool) (a : actions) :
  render_detected analysis = OK boxes →
  buildSelections (leave state boxes) a
  = {| sel_events := checked_indices state analysis Events;
       sel_tasks := checked_indices state analysis Tasks;
       sel_contacts := checked_indices state analysis Contacts;
       sel_actions := a |}
  ∧ ∀ g i, i ∈ checked_indices state analysis g →
           ∃ n, i = Some n ∧ 0 ≤ n < Z.of_nat (length (detected analysis g)).
Proof.
  unfold render_detected, groups. cbn [render_groups].
  destruct (render_rows Events 0 _) as [r1|e] eqn:E1; [|done]. cbn [mbind result_bind].
  destruct (render_rows Tasks 0 _) as [r2|e] eqn:E2; [|done]. cbn [mbind result_bind].
  destruct (render_rows Contacts 0 _) as [r3|e] eqn:E3; [|done]. cbn [mbind result_bind].
  intros [= <-]. split.
  - unfold buildSelections. rewrite !leave_app, !selected_app.
    rewrite !(render_rows_selected _ _ _ _ _ _ E1), !(render_rows_selected _ _ _ _ _ _ E2),
      !(render_rows_selected _ _ _ _ _ _ E3) by done.
    cbn [same_group app]. by rewrite !app_nil_r.
  - intros g i. unfold checked_indices.
    intros (n & -> & Hn)%list_elem_of_fmap. exists n. split; [done|].
    apply list_elem_of_In, List.filter_In in Hn as [Hn _].
    apply list_elem_of_In, elem_of_seqZ in Hn. lia.
Qed.

Lemma buildSelections_indices_witness :
  ∃ boxes,
    render_detected sample_analysis = OK boxes
    ∧ sel_events (buildSelections
                    (leave (λ id, negb (bool_decide (id = §"event-0"))) boxes)
                    {| act_forceCalendar := false; act_forceTask := false;
                       act_forceContact := false; act_reply := false;
                       act_forward := false; act_catalog := false;
                       act_archive := true; act_delete := false |})
      = [Some 1].
Proof.
  destruct (render_detected sample_analysis) as [boxes|] eqn:E;
    [|vm_compute in E; discriminate].
  exists boxes. split; [reflexivity|].
  destruct (buildSelections_indices sample_analysis boxes
              (λ id, negb (bool_decide (id = §"event-0")))
              {| act_forceCalendar := false; act_forceTask := false;
                 act_forceContact := false; act_reply := false;
                 act_forward := false; act_catalog := false;
                 act_archive := true; act_delete := false |} E) as [H _].
  rewrite H. vm_compute. reflexivity.
Defined.

(** X25. However the user clicks through [archive] and [delete], the two are
    never left checked together, provided one of them has been clicked or they
    were not both checked to begin with; the other actions are not touched. *)
Theorem archive_delete_exclusive (clicks : list click) (a : actions) :
  clicks ≠ [] ∨ act_archive a && act_delete a = false →
  let a' := foldl (λ a c, on_click c a) a clicks in
  act_archive a' && act_delete a' = false
  ∧ act_forceCalendar a' = act_forceCalendar a
  ∧ act_forceTask a' = act_forceTask a
  ∧ act_forceContact a' = act_forceContact a
  ∧ act_reply a' = act_reply a
  ∧ act_forward a' = act_forward a
  ∧ act_catalog a' = act_catalog a.
Proof.
  cbn zeta. revert a. induction clicks as [|c clicks IH]; intros a H.
  - destruct H as [H|H]; [done|]. by cbn [foldl].
  - cbn [foldl].
    destruct (IH (on_click c a)) as (I1 & I2 & I3 & I4 & I5 & I6 & I7).
    { right. destruct c; cbn; by destruct (act_archive a), (act_delete a). }
    split_and!; [done|destruct c; by rewrite ?I2, ?I3, ?I4, ?I5, ?I6, ?I7..].
Qed.

Lemma archive_delete_exclusive_witness :
  let a := {| act_forceCalendar := false; act_forceTask := false;
              act_forceContact := false; act_reply := true; act_forward := false;
              act_catalog := false; act_archive := true; act_delete := true |} in
  let a' := foldl (λ a c, on_click c a) a [ClickDelete; ClickArchive] in
  act_archive a' && act_delete a' = false.
Proof.
  cbn zeta. eapply archive_delete_exclusive. left. discriminate.
Defined.

(** * Checks against the unit tests *)

Example normalizeCalDate_fraction_and_Z : normalizeCalDate_string §"2026-02-25T14:00:00.000Z" = §"20260225T140000".
Proof. reflexivity. Qed.
Example normalizeCalDate_negative_offset : normalizeCalDate_string §"2026-02-25T09:30:00-0500" = §"20260225T093000".
Proof. reflexivity. Qed.
Example normalizeCalDate_trailing_colons : normalizeCalDate_string §"2028-01-10T13::" = §"20280110T130000".
Proof. reflexivity. Qed.
Example normalizeCalDate_date_only : normalizeCalDate_string §"2026-02-25" = §"20260225T000000".
Proof. reflexivity. Qed.
Example normalizeCalDate_positive_offset : normalizeCalDate_string §"2026-02-25T14:00:00+0530" = §"20260225T140000".
Proof. reflexivity. Qed.
Example normalizeCalDate_lower_case_z : normalizeCalDate_string §"2026-02-25T14z" = §"20260225T140000".
Proof. reflexivity. Qed.
Example normalizeCalDate_not_idempotent_1 : normalizeCalDate_string §"T12345ZZ" = §"T12345Z".
Proof. reflexivity. Qed.
Example normalizeCalDate_not_idempotent_2 : normalizeCalDate_string §"T12345Z" = §"T123450".
Proof. reflexivity. Qed.

Example isValidHostUrl_loopback : isValidHostUrl §"http://127.0.0.1:11434" = true.
Proof. reflexivity. Qed.
Example isValidHostUrl_localhost : isValidHostUrl §"http://localhost:11434" = true.
Proof. reflexivity. Qed.
Example isValidHostUrl_https : isValidHostUrl §"https://ollama.example.com" = true.
Proof. reflexivity. Qed.
Example isValidHostUrl_not_a_url : isValidHostUrl §"not a url" = false.
Proof. reflexivity. Qed.
Example isValidHostUrl_empty : isValidHostUrl [] = false.
Proof. reflexivity. Qed.
Example isValidHostUrl_ftp : isValidHostUrl §"ftp://example.com" = false.
Proof. reflexivity. Qed.
Example isValidHostUrl_file : isValidHostUrl §"file:///etc/passwd" = false.
Proof. reflexivity. Qed.
Example isValidHostUrl_no_host : isValidHostUrl §"http://" = false.
Proof. reflexivity. Qed.
Example isValidHostUrl_bad_port : isValidHostUrl §"http://host:99999" = false.
Proof. reflexivity. Qed.
Example stringify_nested : stringify (JObj [(§"a", JNum 1); (§"b", JArr [JStr §"x}"; JNull; JBool true; JNum (-12)])]) = quoted "{'a':1,'b':['x}',null,true,-12]}".
Proof. reflexivity. Qed.
Example extractJSON_json_fence : extractJSON (§"```json" ++ [LF] ++ quoted "{'a':1}" ++ [LF] ++ §"```") = OK (quoted "{'a':1}").
Proof. reflexivity. Qed.
Example extractJSON_preamble : extractJSON (§"Here is the JSON:" ++ [LF] ++ quoted "{'a':1}") = OK (quoted "{'a':1}").
Proof. reflexivity. Qed.
Example extractJSON_brace_in_value : extractJSON (quoted "{'a':'}'}") = OK (quoted "{'a':'}").
Proof. reflexivity. Qed.
Example extractJSON_unclosed : extractJSON (quoted "{'a':1") = Throw UnclosedJson.
Proof. reflexivity. Qed.
Example extractJSON_no_object : extractJSON §"no braces here" = Throw NoJsonFound.
Proof. reflexivity. Qed.
Example extractJSON_fence_after_prose : extractJSON (§"Here: ```json" ++ [LF] ++ quoted "{'a':1}" ++ [LF] ++ §"```") = OK (quoted "{'a':1}").
Proof. reflexivity. Qed.
Example strip_fences_after_prose : strip_fences (§"Here: ```" ++ [LF] ++ quoted "{'a':1}" ++ [LF] ++ §"```") = §"Here:" ++ [LF] ++ quoted "{'a':1}".
Proof. reflexivity. Qed.

Example addHoursToCalDate_next_day : addHoursToCalDate §"20260306T000000" 24 = §"20260307T000000".
Proof. reflexivity. Qed.
Example addHoursToCalDate_new_year : addHoursToCalDate §"20241231T235959" 24 = §"20250101T235959".
Proof. reflexivity. Qed.
Example addHoursToCalDate_leap_day : addHoursToCalDate §"20240228T100000" 24 = §"20240229T100000".
Proof. reflexivity. Qed.
Example addHoursToCalDate_38_hours : addHoursToCalDate §"20230228T100000" 38 = §"20230302T000000".
Proof. reflexivity. Qed.
Example advancePastYear_past : advancePastYear §"20230310T150000" 2026 = §"20260310T150000".
Proof. reflexivity. Qed.
Example advancePastYear_future : advancePastYear §"20270310T150000" 2026 = §"20270310T150000".
Proof. reflexivity. Qed.
Example normalizeTaskData_InitialDate : (d ← normalizeTaskData (<[§"InitialDate" := JStr §"2026-03-01"]> ∅); OK (d !! §"initialDate", d !! §"InitialDate")) = OK (Some (JStr §"20260301T000000"), None).
Proof. vm_compute. reflexivity. Qed.
Example supported_shape_1 : supported §"20260225T140000" = true.
Proof. reflexivity. Qed.
Example supported_shape_2 : supported §"2026-02-25T14:00:00" = true.
Proof. reflexivity. Qed.
Example supported_shape_3 : supported §"2026-02-25T14:00:00Z" = true.
Proof. reflexivity. Qed.
Example supported_shape_4 : supported §"2026-02-25T14:00:00+0530" = true.
Proof. reflexivity. Qed.
Example supported_shape_5 : supported §"2026-02-25T09:30:00-0500" = true.
Proof. reflexivity. Qed.
Example supported_shape_6 : supported §"2026-02-25T14:00:00.000Z" = true.
Proof. reflexivity. Qed.
Example supported_shape_7 : supported §"2028-01-10T13" = true.
Proof. reflexivity. Qed.
Example supported_shape_8 : supported §"2028-01-10T13::" = true.
Proof. reflexivity. Qed.
Example supported_shape_9 : supported §"2026-02-25" = true.
Proof. reflexivity. Qed.
Example supported_shape_10 : supported §"20260225" = true.
Proof. reflexivity. Qed.
Example supported_shape_11 : supported §"2026-02-25T14:00:00+05:30" = true.
Proof. reflexivity. Qed.
Example supported_shape_12 : supported §"tomorrow" = false.
Proof. reflexivity. Qed.
Example supported_shape_13 : supported §"2026-02-25T13:30" = true.
Proof. reflexivity. Qed.
Example supported_shape_14 : supported §"T12345ZZ" = false.
Proof. reflexivity. Qed.
Example render_shape_iso :
  render_shape true §"2026" §"02" §"25"
    (Some {| time_fields := [§"09"; §"30"; §"00"]; time_colons := true;
             time_fraction := Some §"000"; time_zone := Offset true false §"05" §"00" |})
  = §"2026-02-25T09:30:00.000-0500".
Proof. reflexivity. Qed.

Example buildAttendeesHint_from_to : buildAttendeesHint sample_message §"from_to" [] = [§"alice@example.com"; §"bob@example.com"; §"carol@example.com"].
Proof. reflexivity. Qed.

Example buildAttendeesHint_from : buildAttendeesHint sample_message §"from" [] = [§"alice@example.com"].
Proof. reflexivity. Qed.

Example buildAttendeesHint_to : buildAttendeesHint sample_message §"to" [] = [§"bob@example.com"; §"carol@example.com"].
Proof. reflexivity. Qed.

Example buildAttendeesHint_static : buildAttendeesHint sample_message §"static" §"me@example.com" = [§"me@example.com"].
Proof. reflexivity. Qed.

Example buildAttendeesHint_static_empty : buildAttendeesHint sample_message §"static" [] = [].
Proof. reflexivity. Qed.

Example buildAttendeesHint_none : buildAttendeesHint sample_message §"none" [] = [].
Proof. reflexivity. Qed.

Example buildAttendeesHint_unknown : buildAttendeesHint sample_message §"unknown" [] = [§"alice@example.com"; §"bob@example.com"; §"carol@example.com"].
Proof. reflexivity. Qed.

Example buildAttendeesHint_no_author : buildAttendeesHint {| author := None; recipients := Some [§"bob@example.com"]; subject := None |} §"from_to" [] = [§"bob@example.com"].
Proof. reflexivity. Qed.

Example buildDescription_default : buildDescription §"Please join us." §"alice@example.com" §"Q1 Review" §"body_from_subject" = Some (§"From: alice@example.com" ++ [LF] ++ §"Subject: Q1 Review" ++ [LF; LF] ++ §"Please join us.").
Proof. reflexivity. Qed.

Example buildDescription_body : buildDescription §"Please join us." §"alice@example.com" §"Q1 Review" §"body" = Some §"Please join us.".
Proof. reflexivity. Qed.

Example buildDescription_none : buildDescription §"Please join us." §"alice@example.com" §"Q1 Review" §"none" = None.
Proof. reflexivity. Qed.

Example buildCategoryInstruction_empty : buildCategoryInstruction (Some []) = buildCategoryInstruction None.
Proof. reflexivity. Qed.

Example buildCategoryInstruction_list : includes §"- Available categories: Family, Work, Personal" (instruction (buildCategoryInstruction (Some [§"Family"; §"Work"; §"Personal"]))) = true.
Proof. reflexivity. Qed.

Example parseInt_leading_digits : parseInt §" 42px" = Some 42 ∧ parseInt §"-7" = Some (-7) ∧ parseInt §"0:00" = Some 0 ∧ parseInt §"none" = None.
Proof. by split_and!. Qed.

Example refYear_of_date_time : refYear §"02/20/2026, 14:00:00" = Some 0.
Proof. reflexivity. Qed.

Example default_due_date_week : default_due_date sample_now §"7" = §"20260304T120000".
Proof. reflexivity. Qed.

Example default_due_date_leap_year : default_due_date {| year := 2028; month := 2; day := 20; hour := 0; minute := 0; second := 0 |} §"14" = §"20280305T120000".
Proof. reflexivity. Qed.

Example default_due_date_no_number : default_due_date sample_now §"soon" = §"NaNNaNNaNT120000".
Proof. reflexivity. Qed.

Example escape_html_markup : escape_html (§"a < b && c > d" ++ [LF] ++ §"<br>") = §"a &lt; b &amp;&amp; c &gt; d<br>&lt;br&gt;".
Proof. reflexivity. Qed.

Example handleDraftReply_body_reply : handleDraftReply_body {[ §"body" := JStr (§" Thanks," ++ [LF] ++ §"Bob ") ]} (Some §"<blockquote>Hi</blockquote>") = OK (Some §"<p>Thanks,<br>Bob</p><br><blockquote>Hi</blockquote>").
Proof. reflexivity. Qed.

Example handleDraftReply_body_blank : handleDraftReply_body {[ §"body" := JStr §"   " ]} None = OK None.
Proof. reflexivity. Qed.

Example handleDraftReply_body_number : handleDraftReply_body {[ §"body" := JNum 5 ]} None = Throw TypeError.
Proof. reflexivity. Qed.

Example handleSummarizeForward_body_summary : handleSummarizeForward_body {[ §"summary" := JStr §"Rent is due." ]} None = OK (Some §"<p><strong>Summary:</strong><br>Rent is due.</p><hr>").
Proof. reflexivity. Qed.

Example report_failure_unclosed : report_failure (Some §"Unclosed JSON object in model output") = (§"Parse error", Some §"Model returned invalid JSON. Check the browser console for details.").
Proof. reflexivity. Qed.

Example report_failure_http : report_failure (Some §"HTTP 500: boom") = (§"Error", Some §"HTTP 500: boom").
Proof. reflexivity. Qed.

Example split_commas : split "," §"a,,b," = [§"a"; []; §"b"; []].
Proof. reflexivity. Qed.

Example getCategories_sorted : getCategories (OK §" Work , ,Family,Personal ,Family") = [§"Family"; §"Family"; §"Personal"; §"Work"].
Proof. reflexivity. Qed.

Example getCategories_no_pref : getCategories (OK []) = [].
Proof. reflexivity. Qed.

Example attendee_address_plain : attendee_address §"bob@example.com" = §"mailto:bob@example.com".
Proof. reflexivity. Qed.

Example findCalendarByName_enabled : cal_id <$> findCalendarByName (OK sample_calendars) §"Work" = Some §"c2".
Proof. reflexivity. Qed.

Example getCalendars_enabled : getCalendars (OK sample_calendars) = [(§"Work", §"c2")].
Proof. reflexivity. Qed.

Example saveContact_no_book : saveContact {| form_firstName := §"Ada"; form_lastName := []; form_email := []; form_phone := []; form_company := []; form_jobTitle := []; form_website := []; form_addressBook := [] |} = None.
Proof. reflexivity. Qed.

Example populateAddressBooks_saved : (populateAddressBooks (OK sample_books) §"book-3").2 = Some 1%nat.
Proof. reflexivity. Qed.

Example populateAddressBooks_read_only_saved : (populateAddressBooks (OK sample_books) §"book-1").2 = Some 0%nat.
Proof. reflexivity. Qed.

Example render_detected_labels : (boxes ← render_detected sample_analysis; OK (map (λ cb, (cb_id cb, cb_label cb)) boxes)) = OK [(§"event-0", JStr §"Lunch on Friday"); (§"event-1", JStr §"Dinner")].
Proof. reflexivity. Qed.

Example render_detected_fallback_label : (boxes ← render_detected {[ §"contacts" := JArr [JNum 5] ]}; OK (map cb_label boxes)) = OK [JStr §"Contacts item 1"].
Proof. reflexivity. Qed.
